(** * httpx: request builder, transport middleware and retry transport

    A shallow embedding of the Go package [httpx] (builder in [httpx.go],
    transport wrappers, the retry transport of [transport.go] and the
    status-envelope codec), with the properties of its specification
    stated and proved over the embedding.

    Conventions.
    - A Go pair [(resp, err)] is a pair of options: [None] is [nil].
    - An [io.ReadCloser] is the bytes still to be read and the error, if
      any, that ends the stream in place of [io.EOF]. A stream is read
      once: the code that reads it, or hands it to a transport, goes on
      with the drained stream.
    - Effects (sleeping, logging, reading a body, deriving a context) are
      events appended to the trace of a world that is threaded through
      every call; a Go panic is the outcome [None].
    - A Go [int] or [time.Duration] is a [Z]; no operation of the modelled
      code can overflow (the only arithmetic is the loop counter, which
      stays below [maxRetry]). *)

From Stdlib Require Import ZArith Lia Ascii String.
From Stdlib Require Import Strings.Byte.
From stdpp Require Import base option list strings pretty gmap fin_maps.

Local Open Scope string_scope.
Local Open Scope list_scope.
Local Open Scope Z_scope.

(** ** Errors *)

(** Go's [error] values: a message ([fmt.Errorf], [errors.New], the errors
    of collaborators) or an error annotated by [errors.WithStack] of
    [github.com/pkg/errors]. *)
Inductive error : Type :=
| errorString (s : string)
| withStack (cause : error).

(** [errors.WithStack(err)]: [nil] stays [nil]. *)
Definition errors_WithStack (err : option error) : option error :=
  match err with
  | Some e => Some (withStack e)
  | None => None
  end.

(** [errors.Cause]: strips the stack annotations. *)
Fixpoint Cause (e : error) : error :=
  match e with
  | withStack c => Cause c
  | errorString _ => e
  end.

(** ** Streams, requests and responses *)

Definition bytes : Type := list byte.

Definition bytes_of (s : string) : bytes := String.list_byte_of_string s.

(** An [io.ReadCloser]: [pending] is what is left to read, [fault] the
    error that a read to the end runs into ([None]: [io.EOF]). *)
Record ReadCloser : Type := mkReadCloser {
  pending : bytes;
  fault : option error
}.

(** [io.NopCloser(bytes.NewBuffer(b))] and [ioutil.NopCloser(bytes.NewReader(b))]. *)
Definition NopCloser (b : bytes) : ReadCloser :=
  {| pending := b; fault := None |}.

(** A stream after it was read to its end: a stream is read once, so
    nothing is left to read in it (a further read meets the same end). *)
Definition drained (r : ReadCloser) : ReadCloser :=
  {| pending := []; fault := fault r |}.

Abbreviation Header := (gmap string (list string)).

(** The part of a [context.Context] the package looks at: the deadline
    and the identifiers of the span it carries. *)
Record Context : Type := mkContext {
  deadline : option Z;
  traceID : string;
  spanID : string
}.

(** The fields of [http.Request] and [http.Response] that the package
    reads or writes. *)
Module http.

Record Request : Type := mkRequest {
  Method : string;
  URL : string;
  ReqHeader : Header;
  Body : option ReadCloser;
  Ctx : Context
}.

Record Response : Type := mkResponse {
  StatusCode : Z;
  RespHeader : Header;
  RespBody : ReadCloser
}.

End http.

Import http.

(** What [RoundTrip] returns: the response pointer and the error. *)
Definition RTResult : Type := (option Response * option error)%type.

Definition set_Body (body : option ReadCloser) (r : Request) : Request :=
  {| Method := Method r; URL := URL r; ReqHeader := ReqHeader r;
     Body := body; Ctx := Ctx r |}.

Definition set_Ctx (c : Context) (r : Request) : Request :=
  {| Method := Method r; URL := URL r; ReqHeader := ReqHeader r;
     Body := Body r; Ctx := c |}.

Definition set_ReqHeader (h : Header) (r : Request) : Request :=
  {| Method := Method r; URL := URL r; ReqHeader := h;
     Body := Body r; Ctx := Ctx r |}.

Definition set_RespBody (b : ReadCloser) (r : Response) : Response :=
  {| StatusCode := StatusCode r; RespHeader := RespHeader r; RespBody := b |}.

(** ** Worlds, events and the call monad *)

(** A value logged by [slog]. *)
Inductive LogValue : Type :=
| LogString (s : string)
| LogInt (n : Z).

Inductive Event : Type :=
| EvRead (data : bytes) (err : option error)
    (* a stream read to its end: [ioutil.ReadAll], [bytes.Buffer.ReadFrom] *)
| EvSleep (d : Z)
    (* [time.Sleep(d)], in nanoseconds *)
| EvWithTimeout (d : Z)
    (* [context.WithTimeout(_, d)] *)
| EvCancel
    (* the [cancel] of a derived context *)
| EvPrintln (h : Header)
    (* [fmt.Println] of a header *)
| EvSlog (msg : string) (kvs : list (string * LogValue))
    (* [slog.Info(msg, kvs...)] *)
| EvRoundTrip (req : Request) (res : RTResult).
    (* a call observed by an instrumented stub, with what it answered *)

Definition Millisecond : Z := 1000000.
Definition Second : Z := 1000000000.

Section Calls.

(** The state of the transport at the bottom of a stack (a stub's script,
    a connection pool, ...). *)
Context {St : Type}.

Record World : Type := mkWorld {
  stub : St;
  now : Z;
  events : list Event
}.

(** A call: runs in a world, returns a value or panics ([None]). *)
Definition M (A : Type) : Type := World → option A * World.

Definition ret {A} (a : A) : M A := λ w, (Some a, w).

Definition bind {A B} (m : M A) (k : A → M B) : M B :=
  λ w, match m w with
       | (Some a, w') => k a w'
       | (None, w') => (None, w')
       end.

(** A run-time panic (here: a nil pointer dereference). *)
Definition panic {A} : M A := λ w, (None, w).

Definition emit (e : Event) : M unit :=
  λ w, (Some tt, {| stub := stub w; now := now w; events := events w ++ [e] |}).

(** [defer d] in a function of body [body]: [d] runs when the body
    returns and also when it panics. *)
Definition defer {A} (body : M A) (d : M unit) : M A :=
  λ w, let '(r, w') := body w in (r, (d w').2).

(** [time.Sleep(d)]: the clock advances. *)
Definition time_Sleep (d : Z) : M unit :=
  λ w, (Some tt, {| stub := stub w; now := now w + d;
                    events := events w ++ [EvSleep d] |}).

(** [ioutil.ReadAll(r)]: the bytes read, the error that stopped the
    read, if any, and the stream [r] as the read leaves it. *)
Definition ioutil_ReadAll (r : ReadCloser) : M (bytes * option error * ReadCloser) :=
  bind (emit (EvRead (pending r) (fault r)))
       (λ _, ret (pending r, fault r, drained r)).

(** [http.RoundTripper]. *)
Definition RoundTripper : Type := Request → M RTResult.

(** An instrumented stub: a transport that is a function of the request
    and of its own state, and whose calls are recorded in the trace. *)
Definition observe (f : Request → St → RTResult * St) : RoundTripper :=
  λ req w,
    let '(res, s') := f req (stub w) in
    (Some res, {| stub := s'; now := now w;
                  events := events w ++ [EvRoundTrip req res] |}).

(** [resp, err = inner.RoundTrip(req)] for a caller that goes on using
    the pointer [req]: the answer, and the request as the call leaves
    it. A transport reads and closes the body it is handed (the contract
    of [http.RoundTripper]), so the stream [req.Body] points to is
    drained when the call returns. *)
Definition handed_over (req : Request) : Request :=
  set_Body (drained <$> Body req) req.

Definition call_RoundTrip (inner : RoundTripper) (req : Request) : M (RTResult * Request) :=
  bind (inner req) (λ res, ret (res, handed_over req)).

End Calls.

Arguments World : clear implicits.
Arguments M : clear implicits.
Arguments RoundTripper : clear implicits.

Declare Scope call_scope.
Delimit Scope call_scope with call.
Notation "'let*' x ':=' m 'in' k" := (bind m (λ x, k))
  (at level 10, x name, m at level 100, k at level 200) : call_scope.
Notation "'let*' ' p ':=' m 'in' k" := (bind m (λ x, match x with p => k end))
  (at level 10, p pattern, m at level 100, k at level 200) : call_scope.
Notation "m ';;' k" := (bind m (λ _, k))
  (at level 100, k at level 200, right associativity) : call_scope.
Local Open Scope call_scope.

(** ** The retry transport ([transport.go]) *)

Section Retry.

Context {St : Type}.

Record retriableTransport : Type := mkRetriable {
  maxRetry : Z;
  rt : RoundTripper St
}.

(** The statements after the loop of [RoundTrip]. *)
Definition retry_finish (resp : option Response) (err : option error) : RTResult :=
  match resp with
  | Some r => (Some r, None)
  | None => (None, errors_WithStack err)
  end.

(** The loop [for i := 0; i < rt.maxRetry; i++] with [n] iterations left;
    [resp] and [err] are the variables of the same name. *)
Fixpoint retry_loop (n : nat) (inner : RoundTripper St) (saved : bytes)
    (req : Request) (resp : option Response) (err : option error) : M St RTResult :=
  match n with
  | O => ret (retry_finish resp err)
  | S n' =>
      let req := set_Body (Some (NopCloser saved)) req in
      let* '(resp, err, req) := call_RoundTrip inner req in
      match err with
      | None =>
          match resp with
          | None => panic
          | Some r =>
              if 500 <=? StatusCode r
              then time_Sleep (Millisecond * 100);;
                   retry_loop n' inner saved req resp err
              else ret (Some r, None)
          end
      | Some _ => retry_loop n' inner saved req resp err
      end
  end.

Definition RoundTrip (t : retriableTransport) (req : Request) : M St RTResult :=
  let run (saved : bytes) (req : Request) :=
    retry_loop (Z.to_nat (maxRetry t)) (rt t) saved req None None in
  match 0 <? maxRetry t, Body req with
  | true, Some body =>
      let* '(saved, err, body) := ioutil_ReadAll body in
      (* [req.Body] still points to the stream that was just read *)
      let req := set_Body (Some body) req in
      match err with
      | Some e => ret (None, errors_WithStack (Some e))
      | None => run saved req
      end
  | _, _ => run [] req
  end.

(** [RetriableTransport(maxRetry, rt)]. *)
Definition RetriableTransport (maxRetry : Z) (rt : RoundTripper St) : retriableTransport :=
  {| rt := rt; maxRetry := maxRetry |}.

End Retry.

Arguments retriableTransport : clear implicits.

(** ** Headers and query values *)

(** [net/textproto]: the bytes allowed in a header field name. *)
Definition is_lower (c : ascii) : bool :=
  let n := N_of_ascii c in ((97 <=? n) && (n <=? 122))%N.
Definition is_upper (c : ascii) : bool :=
  let n := N_of_ascii c in ((65 <=? n) && (n <=? 90))%N.
Definition is_digit (c : ascii) : bool :=
  let n := N_of_ascii c in ((48 <=? n) && (n <=? 57))%N.

Definition validHeaderFieldByte (c : ascii) : bool :=
  is_digit c || is_lower c || is_upper c
  || existsb (Ascii.eqb c) (list_ascii_of_string "!#$%&'*+-.^_`|~").

(** The second loop of [canonicalMIMEHeaderKey]: upper case for the first
    letter and for a letter after a dash, lower case elsewhere. *)
Definition canonical_byte (upper : bool) (c : ascii) : ascii :=
  if upper && is_lower c then ascii_of_N (N_of_ascii c - 32)
  else if negb upper && is_upper c then ascii_of_N (N_of_ascii c + 32)
  else c.

Fixpoint canonical_case (upper : bool) (s : string) : string :=
  match s with
  | EmptyString => EmptyString
  | String c rest =>
      let c' := canonical_byte upper c in
      String c' (canonical_case (Ascii.eqb c' "-") rest)
  end.

(** [textproto.CanonicalMIMEHeaderKey] of the Go standard library: a key
    with a byte that is not allowed in a field name is returned as it is. *)
Definition CanonicalMIMEHeaderKey (s : string) : string :=
  if forallb validHeaderFieldByte (list_ascii_of_string s)
  then canonical_case true s
  else s.

(** [url.Values.Add]: [v[key] = append(v[key], value)]. *)
Definition Values_Add (key value : string) (v : gmap string (list string)) :
    gmap string (list string) :=
  <[key := default [] (v !! key) ++ [value]]> v.

(** [http.Header.Add], [Set] and [Get]. *)
Definition Header_Add (key value : string) (h : Header) : Header :=
  Values_Add (CanonicalMIMEHeaderKey key) value h.

Definition Header_Set (key value : string) (h : Header) : Header :=
  <[CanonicalMIMEHeaderKey key := [value]]> h.

Definition Header_Get (key : string) (h : Header) : string :=
  match default [] (h !! CanonicalMIMEHeaderKey key) with
  | [] => ""
  | v :: _ => v
  end.

Definition ContentTypeKey : string := "Content-Type".
Definition ContentTypeJson : string := "application/json".

(** [for key, values := range src { for _, value := range values { add(key, value) } }]
    into the map [dst]. Go visits the keys in an unspecified order; the
    order of [map_to_list] is one of them. *)
Definition range_into (add : string → string → gmap string (list string) → gmap string (list string))
    (kvs : list (string * list string)) (dst : gmap string (list string)) :
    gmap string (list string) :=
  foldl (λ d kv, foldl (λ d value, add kv.1 value d) d kv.2) dst kvs.

(** ** Transport wrappers *)

Section Wrappers.

Context {St : Type}.

(** Collaborators outside the package: [os.Args[0]] and
    [otelhttp.NewTransport(next, otelhttp.WithServerName(name))]. *)
Variable os_Args0 : string.
Variable otelhttp_NewTransport : RoundTripper St → string → RoundTripper St.

Definition TransportWrapper : Type := RoundTripper St → RoundTripper St.

Definition defaultTransprtTimeout : Z := Second * 10.

(** [context.WithTimeout(parent, d)]: the deadline is [d] from now, unless
    the parent's is earlier. *)
Definition context_WithTimeout (parent : Context) (d : Z) : M St Context :=
  λ w, (Some {| deadline := Some (match deadline parent with
                                  | Some p => Z.min p (now w + d)
                                  | None => now w + d
                                  end);
                traceID := traceID parent; spanID := spanID parent |},
        {| stub := stub w; now := now w; events := events w ++ [EvWithTimeout d] |}).

Definition TimeoutTransport (timeout : Z) : TransportWrapper :=
  let timeout := if timeout <=? 0 then defaultTransprtTimeout else timeout in
  λ next httpReq,
    defer
      (let* ctx := context_WithTimeout (Ctx httpReq) timeout in
       let httpReq := set_Ctx ctx httpReq in
       next httpReq)
      (emit EvCancel).

Definition HeaderTransport (key value : string) : TransportWrapper :=
  λ next httpReq,
    next (set_ReqHeader (Header_Add key value (ReqHeader httpReq)) httpReq).

Definition JsonTransport : TransportWrapper :=
  λ next httpReq,
    if String.eqb (Header_Get ContentTypeKey (ReqHeader httpReq)) ""
    then next (set_ReqHeader (Header_Add ContentTypeKey ContentTypeJson (ReqHeader httpReq)) httpReq)
    else next httpReq.

(** [DrainBody] returns either [(nil, nil, err)] or the captured bytes
    and the stream that replays them with a nil error: a sum. The
    captured bytes are nil when nothing was read. *)
Definition DrainBody (src : ReadCloser) : M St (bytes * ReadCloser + error) :=
  emit (EvRead (pending src) (fault src));;
  match fault src with
  | Some e => ret (inr e)
  | None =>
      if (0 <? length (pending src))%nat
      then ret (inl (pending src, NopCloser (pending src)))
      else ret (inl ([], NopCloser (pending src)))
  end.

(** Runs [d] when [m] panics (the part of a [defer] that is taken on a
    panic). *)
Definition on_panic {A} (m : M St A) (d : M St unit) : M St A :=
  λ w, match m w with
       | (Some a, w') => (Some a, w')
       | (None, w') => (None, (d w').2)
       end.

(** [LoggingTransport]. The deferred [slog.Info("got http resp", kvs...)]
    reads [kvs] when the function returns: [got kvs] is that call, placed
    at each return with the value [kvs] has there. *)
Definition LoggingTransport (loggingReqBody loggingRespBody : bool) : TransportWrapper :=
  λ next httpReq,
    emit (EvPrintln (ReqHeader httpReq));;
    let kvs := [("http_method", LogString (Method httpReq));
                ("http_url", LogString (URL httpReq));
                ("traceID", LogString (traceID (Ctx httpReq)));
                ("spanID", LogString (spanID (Ctx httpReq)))] in
    let got kvs := emit (EvSlog "got http resp" kvs) in
    let isUpgrade := String.eqb (Header_Get "Connection" (ReqHeader httpReq)) "Upgrade" in
    let send kvs httpReq :=
      emit (EvSlog "send http req" kvs);;
      let* '(httpResp, err) := on_panic (next httpReq) (got kvs) in
      match err with
      | Some e => got kvs;; ret (None, Some e)
      | None =>
          match httpResp with
          | None => got kvs;; panic
          | Some r =>
              let kvs := kvs ++ [("http_status_code", LogInt (StatusCode r))] in
              if negb isUpgrade && loggingRespBody
              then let* drained := DrainBody (RespBody r) in
                   match drained with
                   | inr err => got kvs;; ret (None, Some err)
                   | inl (respData, respBody) =>
                       got (kvs ++ [("resp_data", LogString (string_of_list_byte respData))]);;
                       ret (Some (set_RespBody respBody r), None)
                   end
              else got kvs;; ret (Some r, None)
          end
      end in
    match (if negb isUpgrade && loggingReqBody then Body httpReq else None) with
    | Some body =>
        let* drained := DrainBody body in
        match drained with
        | inr err => got kvs;; ret (None, Some err)
        | inl (reqData, reqBody) =>
            send (kvs ++ [("req_data", LogString (string_of_list_byte reqData))])
                 (set_Body (Some reqBody) httpReq)
        end
    | None => send kvs httpReq
    end.

Definition TracingTransport (serviceName : string) : TransportWrapper :=
  let serviceName := if String.eqb serviceName "" then os_Args0 else serviceName in
  λ next,
    let transport := otelhttp_NewTransport next serviceName in
    λ httpReq, transport httpReq.

(** [fmt.Errorf] with the verbs the package uses: [%d] of an int and of a
    slice of ints, [%s] of a string. *)
Definition fmt_d (n : Z) : string := pretty n.

Fixpoint fmt_join (l : list Z) : string :=
  match l with
  | [] => ""
  | [n] => fmt_d n
  | n :: rest => fmt_d n +:+ " " +:+ fmt_join rest
  end.

Definition fmt_ds (l : list Z) : string := "[" +:+ fmt_join l +:+ "]".

Definition StatusCodeTransport (expectedStatusCode : Z) : TransportWrapper :=
  λ next httpReq,
    let* '(httpResp, err) := next httpReq in
    match err with
    | Some e => ret (None, Some e)
    | None =>
        match httpResp with
        | None => panic
        | Some r =>
            let gotStatusCode := StatusCode r in
            if negb (gotStatusCode =? expectedStatusCode)
            then ret (None, Some (errorString
                   ("expected statuscode:" +:+ fmt_d expectedStatusCode
                    +:+ ",got:" +:+ fmt_d gotStatusCode)))
            else ret (Some r, None)
        end
    end.

Definition StatusCodesTransport (expectedStatusCodes : list Z) : TransportWrapper :=
  let expectedStatusCodesMap : gset Z := list_to_set expectedStatusCodes in
  λ next httpReq,
    let* '(httpResp, err) := next httpReq in
    match err with
    | Some e => ret (None, Some e)
    | None =>
        match httpResp with
        | None => panic
        | Some r =>
            let gotStatusCode := StatusCode r in
            if bool_decide (gotStatusCode ∈ expectedStatusCodesMap)
            then ret (Some r, None)
            else ret (None, Some (errorString
                   ("expected statuscodes:" +:+ fmt_ds expectedStatusCodes
                    +:+ ",got:" +:+ fmt_d gotStatusCode)))
        end
    end.

(** [WrapTransport(next, wrappers...)]. *)
Definition WrapTransport (next : RoundTripper St) (wrappers : list TransportWrapper) :
    RoundTripper St :=
  let next := foldl (λ next wrapper, wrapper next) next wrappers in
  λ httpReq,
    let* '(resp, err) := next httpReq in
    match err with
    | Some e => ret (None, Some e)
    | None => ret (resp, None)
    end.

End Wrappers.

Arguments TransportWrapper : clear implicits.

(** ** The request builder ([httpx.go]) *)

Module Builder.

(** A location of the heap: the address of a [builder] struct or of a
    map. *)
Definition loc : Type := positive.

Section Defs.

Context {St Obj : Type}.

(** The [Codec] interface. [Decode] writes into the target it is given:
    it returns the target as it is afterwards. *)
Record Codec : Type := mkCodec {
  Encode : Obj → bytes * option error;
  Decode : ReadCloser → Obj → Obj * option error
}.

(** [*url.URL]: the raw query, which [BuildHTTPReq] assigns, and all the
    other fields. *)
Record url_URL : Type := mkURL {
  RawQuery : string;
  Rest : string
}.

Record builder : Type := mkBuilder {
  path : string;
  method : string;
  baseURL : string;
  codec : Codec;
  resp : option Obj;
  req : option Obj;
  urlValues : loc;
  header : loc;
  expectedStatusCodes : list Z;
  loggingReq : bool;
  loggingResp : bool;
  timeout : Z;
  tracing : bool;
  contentType : string;
  insecure : bool;
  transport : option (RoundTripper St);
  err : option error
}.

(** Assignments to the fields of a [builder]. *)
Definition with_path (v : string) (B : builder) : builder :=
  mkBuilder v (method B) (baseURL B) (codec B) (resp B) (req B) (urlValues B)
    (header B) (expectedStatusCodes B) (loggingReq B) (loggingResp B) (timeout B)
    (tracing B) (contentType B) (insecure B) (transport B) (err B).
Definition with_method (v : string) (B : builder) : builder :=
  mkBuilder (path B) v (baseURL B) (codec B) (resp B) (req B) (urlValues B) (header
    B) (expectedStatusCodes B) (loggingReq B) (loggingResp B) (timeout B) (tracing
    B) (contentType B) (insecure B) (transport B) (err B).
Definition with_baseURL (v : string) (B : builder) : builder :=
  mkBuilder (path B) (method B) v (codec B) (resp B) (req B) (urlValues B) (header
    B) (expectedStatusCodes B) (loggingReq B) (loggingResp B) (timeout B) (tracing
    B) (contentType B) (insecure B) (transport B) (err B).
Definition with_codec (v : Codec) (B : builder) : builder :=
  mkBuilder (path B) (method B) (baseURL B) v (resp B) (req B) (urlValues B) (header
    B) (expectedStatusCodes B) (loggingReq B) (loggingResp B) (timeout B) (tracing
    B) (contentType B) (insecure B) (transport B) (err B).
Definition with_resp (v : option Obj) (B : builder) : builder :=
  mkBuilder (path B) (method B) (baseURL B) (codec B) v (req B) (urlValues B)
    (header B) (expectedStatusCodes B) (loggingReq B) (loggingResp B) (timeout B)
    (tracing B) (contentType B) (insecure B) (transport B) (err B).
Definition with_req (v : option Obj) (B : builder) : builder :=
  mkBuilder (path B) (method B) (baseURL B) (codec B) (resp B) v (urlValues B)
    (header B) (expectedStatusCodes B) (loggingReq B) (loggingResp B) (timeout B)
    (tracing B) (contentType B) (insecure B) (transport B) (err B).
Definition with_expectedStatusCodes (v : list Z) (B : builder) : builder :=
  mkBuilder (path B) (method B) (baseURL B) (codec B) (resp B) (req B) (urlValues B)
    (header B) v (loggingReq B) (loggingResp B) (timeout B) (tracing B) (contentType
    B) (insecure B) (transport B) (err B).
Definition with_loggingReq (v : bool) (B : builder) : builder :=
  mkBuilder (path B) (method B) (baseURL B) (codec B) (resp B) (req B) (urlValues B)
    (header B) (expectedStatusCodes B) v (loggingResp B) (timeout B) (tracing B)
    (contentType B) (insecure B) (transport B) (err B).
Definition with_loggingResp (v : bool) (B : builder) : builder :=
  mkBuilder (path B) (method B) (baseURL B) (codec B) (resp B) (req B) (urlValues B)
    (header B) (expectedStatusCodes B) (loggingReq B) v (timeout B) (tracing B)
    (contentType B) (insecure B) (transport B) (err B).
Definition with_timeout (v : Z) (B : builder) : builder :=
  mkBuilder (path B) (method B) (baseURL B) (codec B) (resp B) (req B) (urlValues B)
    (header B) (expectedStatusCodes B) (loggingReq B) (loggingResp B) v (tracing B)
    (contentType B) (insecure B) (transport B) (err B).
Definition with_tracing (v : bool) (B : builder) : builder :=
  mkBuilder (path B) (method B) (baseURL B) (codec B) (resp B) (req B) (urlValues B)
    (header B) (expectedStatusCodes B) (loggingReq B) (loggingResp B) (timeout B) v
    (contentType B) (insecure B) (transport B) (err B).
Definition with_contentType (v : string) (B : builder) : builder :=
  mkBuilder (path B) (method B) (baseURL B) (codec B) (resp B) (req B) (urlValues B)
    (header B) (expectedStatusCodes B) (loggingReq B) (loggingResp B) (timeout B)
    (tracing B) v (insecure B) (transport B) (err B).
Definition with_insecure (v : bool) (B : builder) : builder :=
  mkBuilder (path B) (method B) (baseURL B) (codec B) (resp B) (req B) (urlValues B)
    (header B) (expectedStatusCodes B) (loggingReq B) (loggingResp B) (timeout B)
    (tracing B) (contentType B) v (transport B) (err B).
Definition with_transport (v : option (RoundTripper St)) (B : builder) : builder :=
  mkBuilder (path B) (method B) (baseURL B) (codec B) (resp B) (req B) (urlValues B)
    (header B) (expectedStatusCodes B) (loggingReq B) (loggingResp B) (timeout B)
    (tracing B) (contentType B) (insecure B) v (err B).
Definition with_err (v : option error) (B : builder) : builder :=
  mkBuilder (path B) (method B) (baseURL B) (codec B) (resp B) (req B) (urlValues B)
    (header B) (expectedStatusCodes B) (loggingReq B) (loggingResp B) (timeout B)
    (tracing B) (contentType B) (insecure B) (transport B) v.

(** The heap: the [builder] structs and the maps ([url.Values],
    [http.Header]) that the structs point to. A value slice of a map is
    only ever built by [append] to a slice of the same map ([Add]) or as
    a fresh literal ([Set]), so no two maps share a backing array: the
    slices are modelled by value. *)
Record Heap : Type := mkHeap {
  builders : gmap loc builder;
  maps : gmap loc (gmap string (list string))
}.

(** A method on the heap; [None] is the panic of a nil or dangling
    pointer. *)
Definition H (A : Type) : Type := Heap → option (A * Heap).

Definition hret {A} (a : A) : H A := λ h, Some (a, h).

Definition hbind {A B} (m : H A) (k : A → H B) : H B :=
  λ h, match m h with
       | Some (a, h') => k a h'
       | None => None
       end.

Definition deref (b : loc) : H builder :=
  λ h, match builders h !! b with
       | Some B => Some (B, h)
       | None => None
       end.

Definition load_map (l : loc) : H (gmap string (list string)) :=
  λ h, match maps h !! l with
       | Some m => Some (m, h)
       | None => None
       end.

(** [make(url.Values)], [make(http.Header)]. *)
Definition make_map : H loc :=
  λ h, let l := fresh (dom (maps h)) in
       Some (l, {| builders := builders h; maps := <[l := ∅]> (maps h) |}).

(** Writes to the map at [l]. *)
Definition update_map (l : loc) (f : gmap string (list string) → gmap string (list string)) :
    H unit :=
  λ h, match maps h !! l with
       | Some m => Some (tt, {| builders := builders h; maps := <[l := f m]> (maps h) |})
       | None => None
       end.

(** [&builder{...}]. *)
Definition new_builder (B : builder) : H loc :=
  λ h, let b := fresh (dom (builders h)) in
       Some (b, {| builders := <[b := B]> (builders h); maps := maps h |}).

(** Assignment to fields of the struct at [b]. *)
Definition assign (b : loc) (f : builder → builder) : H unit :=
  λ h, match builders h !! b with
       | Some B => Some (tt, {| builders := <[b := f B]> (builders h); maps := maps h |})
       | None => None
       end.

(** *** Collaborators outside the package *)

(** [defaultCodec] (the JSON codec), the shared transports that
    [Transport()] and [InsecureTransport()] return, [query.Values] of
    [go-querystring], [base64.StdEncoding.EncodeToString], [net/url]
    ([Parse], [ParseQuery] as used by [URL.Query], which drops its
    error, [Values.Encode], [URL.String]), the checks of
    [http.NewRequestWithContext] on the method and the URL, [os.Args[0]]
    and [otelhttp.NewTransport]. *)
Variable defaultCodec : Codec.
Variable defaultTransport insecureTransport : RoundTripper St.
Variable query_Values : Obj → gmap string (list string) * option error.
Variable base64_EncodeToString : string → string.
Variable url_Parse : string → url_URL + error.
Variable url_ParseQuery : string → gmap string (list string).
Variable url_Encode : gmap string (list string) → string.
Variable url_String : url_URL → string.
Variable http_NewRequest_err : string → string → option error.
Variable os_Args0 : string.
Variable otelhttp_NewTransport : RoundTripper St → string → RoundTripper St.

Local Notation "'let+' x ':=' m 'in' k" := (hbind m (λ x, k))
  (at level 10, x name, m at level 100, k at level 200).
Local Notation "m ';;+' k" := (hbind m (λ _, k))
  (at level 100, k at level 200, right associativity).

(** *** Construction and copy *)

Definition New : H loc :=
  let+ urlValues := make_map in
  let+ header := make_map in
  new_builder
    {| path := ""; method := ""; baseURL := "";
       codec := defaultCodec; resp := None; req := None;
       urlValues := urlValues; header := header;
       expectedStatusCodes := [200];
       loggingReq := true; loggingResp := true;
       timeout := defaultTransprtTimeout;
       tracing := true; contentType := ContentTypeJson; insecure := false;
       transport := None; err := None |}.

Definition clone (b : loc) : H loc :=
  let+ B := deref b in
  let+ urlValues' := make_map in
  let+ src := load_map (urlValues B) in
  update_map urlValues' (range_into Values_Add (map_to_list src));;+
  let+ header' := make_map in
  let+ src := load_map (header B) in
  update_map header' (range_into Header_Add (map_to_list src));;+
  new_builder
    {| path := path B; method := method B; baseURL := baseURL B;
       codec := codec B; resp := resp B; req := req B;
       urlValues := urlValues'; header := header';
       expectedStatusCodes := expectedStatusCodes B;
       loggingReq := loggingReq B; loggingResp := loggingResp B;
       timeout := timeout B;
       tracing := tracing B; contentType := contentType B; insecure := insecure B;
       transport := transport B; err := err B |}.

(** *** The chaining methods *)

(** The frame every chaining method shares:
    [newBuilder := b.clone(); if newBuilder.err != nil { return newBuilder }; ...; return newBuilder]. *)
Definition chained (b : loc) (set : loc → H unit) : H loc :=
  let+ newBuilder := clone b in
  let+ NB := deref newBuilder in
  match err NB with
  | Some _ => hret newBuilder
  | None => set newBuilder;;+ hret newBuilder
  end.

Definition set_method_path (m p : string) (newBuilder : loc) : H unit :=
  assign newBuilder (with_method m);;+ assign newBuilder (with_path p).

(** [newBuilder.urlValues.Add] for every value of [values]. *)
Definition add_urlValues (values : gmap string (list string)) (newBuilder : loc) : H unit :=
  let+ NB := deref newBuilder in
  update_map (urlValues NB) (range_into Values_Add (map_to_list values)).

Definition Get (p : string) (b : loc) : H loc := chained b (set_method_path "GET" p).
Definition Method (m p : string) (b : loc) : H loc := chained b (set_method_path m p).
Definition BaseURL (u : string) (b : loc) : H loc :=
  chained b (λ newBuilder, assign newBuilder (with_baseURL u)).
Definition Head (p : string) (b : loc) : H loc := chained b (set_method_path "HEAD" p).
Definition Post (p : string) (b : loc) : H loc := chained b (set_method_path "POST" p).
Definition Put (p : string) (b : loc) : H loc := chained b (set_method_path "PUT" p).
Definition Patch (p : string) (b : loc) : H loc := chained b (set_method_path "PATCH" p).
Definition Delete (p : string) (b : loc) : H loc := chained b (set_method_path "DELETE" p).
Definition Connect (p : string) (b : loc) : H loc := chained b (set_method_path "CONNECT" p).
Definition Options (p : string) (b : loc) : H loc := chained b (set_method_path "OPTIONS" p).
Definition Trace (p : string) (b : loc) : H loc := chained b (set_method_path "TRACE" p).

Definition WithQueryString (key value : string) (b : loc) : H loc :=
  chained b (λ newBuilder,
    let+ NB := deref newBuilder in
    update_map (urlValues NB) (Values_Add key value)).

Definition WithQueryStringObj (obj : Obj) (b : loc) : H loc :=
  chained b (λ newBuilder,
    let '(values, e) := query_Values obj in
    assign newBuilder (with_err e);;+
    add_urlValues values newBuilder).

Definition WithURLValues (values : gmap string (list string)) (b : loc) : H loc :=
  chained b (add_urlValues values).

Definition WithCodec (c : Codec) (b : loc) : H loc :=
  chained b (λ newBuilder, assign newBuilder (with_codec c)).

Definition WithHeader (key value : string) (b : loc) : H loc :=
  chained b (λ newBuilder,
    let+ NB := deref newBuilder in
    update_map (header NB) (Header_Add key value)).

Definition BasicAuth (username password : string) : string :=
  let auth := username +:+ ":" +:+ password in
  base64_EncodeToString auth.

Definition WithBasicAuth (username password : string) (b : loc) : H loc :=
  chained b (λ newBuilder,
    let+ NB := deref newBuilder in
    update_map (header NB)
      (Header_Set "Authorization" ("Basic " +:+ BasicAuth username password))).

Definition WithHeaders (headers : Header) (b : loc) : H loc :=
  chained b (λ newBuilder,
    let+ NB := deref newBuilder in
    update_map (header NB) (range_into Header_Add (map_to_list headers))).

Definition WithReq (o : option Obj) (b : loc) : H loc :=
  chained b (λ newBuilder, assign newBuilder (with_req o)).

Definition WithResp (o : option Obj) (b : loc) : H loc :=
  chained b (λ newBuilder, assign newBuilder (with_resp o)).

Definition ExpectedStatusCodes (codes : list Z) (b : loc) : H loc :=
  chained b (λ newBuilder, assign newBuilder (with_expectedStatusCodes codes)).

Definition Logging (lreq lresp : bool) (b : loc) : H loc :=
  chained b (λ newBuilder,
    assign newBuilder (with_loggingReq lreq);;+ assign newBuilder (with_loggingResp lresp)).

Definition Timeout (d : Z) (b : loc) : H loc :=
  chained b (λ newBuilder, assign newBuilder (with_timeout d)).

Definition Tracing (on : bool) (b : loc) : H loc :=
  chained b (λ newBuilder, assign newBuilder (with_tracing on)).

Definition ContentType (ct : string) (b : loc) : H loc :=
  chained b (λ newBuilder, assign newBuilder (with_contentType ct)).

Definition Insecure (on : bool) (b : loc) : H loc :=
  chained b (λ newBuilder, assign newBuilder (with_insecure on)).

Definition WithTransport (t : option (RoundTripper St)) (b : loc) : H loc :=
  chained b (λ newBuilder, assign newBuilder (with_transport t)).

(** The chaining methods of the [Builder] interface with their
    arguments, and the call of one of them on a receiver. *)
Inductive chain_op : Type :=
| OpGet (p : string)
| OpMethod (m p : string)
| OpBaseURL (u : string)
| OpHead (p : string)
| OpPost (p : string)
| OpPut (p : string)
| OpPatch (p : string)
| OpDelete (p : string)
| OpConnect (p : string)
| OpOptions (p : string)
| OpTrace (p : string)
| OpWithQueryString (key value : string)
| OpWithURLValues (values : gmap string (list string))
| OpWithQueryStringObj (obj : Obj)
| OpWithCodec (c : Codec)
| OpWithHeader (key value : string)
| OpWithBasicAuth (username password : string)
| OpWithHeaders (headers : Header)
| OpWithReq (o : option Obj)
| OpWithResp (o : option Obj)
| OpExpectedStatusCodes (codes : list Z)
| OpLogging (lreq lresp : bool)
| OpTimeout (d : Z)
| OpTracing (on : bool)
| OpContentType (ct : string)
| OpInsecure (on : bool)
| OpWithTransport (t : option (RoundTripper St)).

Definition call (op : chain_op) (b : loc) : H loc :=
  match op with
  | OpGet p => Get p b
  | OpMethod m p => Method m p b
  | OpBaseURL u => BaseURL u b
  | OpHead p => Head p b
  | OpPost p => Post p b
  | OpPut p => Put p b
  | OpPatch p => Patch p b
  | OpDelete p => Delete p b
  | OpConnect p => Connect p b
  | OpOptions p => Options p b
  | OpTrace p => Trace p b
  | OpWithQueryString key value => WithQueryString key value b
  | OpWithURLValues values => WithURLValues values b
  | OpWithQueryStringObj obj => WithQueryStringObj obj b
  | OpWithCodec c => WithCodec c b
  | OpWithHeader key value => WithHeader key value b
  | OpWithBasicAuth username password => WithBasicAuth username password b
  | OpWithHeaders headers => WithHeaders headers b
  | OpWithReq o => WithReq o b
  | OpWithResp o => WithResp o b
  | OpExpectedStatusCodes codes => ExpectedStatusCodes codes b
  | OpLogging lreq lresp => Logging lreq lresp b
  | OpTimeout d => Timeout d b
  | OpTracing on => Tracing on b
  | OpContentType ct => ContentType ct b
  | OpInsecure on => Insecure on b
  | OpWithTransport t => WithTransport t b
  end.

(** Every location of [h] holds in [h'] what it holds in [h]. *)
Definition unchanged (h h' : Heap) : Prop :=
  (∀ l B, builders h !! l = Some B → builders h' !! l = Some B) ∧
  (∀ l m, maps h !! l = Some m → maps h' !! l = Some m).

(** What the statements of a chaining method after the copy may touch:
    the fields of the new struct other than the two map pointers, and
    the two maps of the new struct. *)
(** No key of a map has an empty list of values. *)
Definition no_empty_values (m : gmap string (list string)) : Prop :=
  ∀ k, m !! k ≠ Some [].

(** Every key of a header is in canonical form, as [Add] and [Set]
    leave it. *)
Definition canonical_keys (m : gmap string (list string)) : Prop :=
  ∀ k, is_Some (m !! k) → CanonicalMIMEHeaderKey k = k.

Definition header_canonical (h : Heap) (l : loc) : Prop :=
  ∃ hd, maps h !! l = Some hd ∧ canonical_keys hd.

Definition touches_only_new (set : loc → H unit) : Prop :=
  ∀ h nb NB,
    builders h !! nb = Some NB →
    is_Some (maps h !! urlValues NB) →
    is_Some (maps h !! header NB) →
    ∃ h' NB',
      set nb h = Some (tt, h') ∧
      builders h' !! nb = Some NB' ∧
      urlValues NB' = urlValues NB ∧ header NB' = header NB ∧
      is_Some (maps h' !! urlValues NB) ∧ is_Some (maps h' !! header NB) ∧
      (∀ l, l ≠ nb → builders h' !! l = builders h !! l) ∧
      (∀ l, l ≠ urlValues NB → l ≠ header NB → maps h' !! l = maps h !! l) ∧
      (urlValues NB ≠ header NB →
       header_canonical h (header NB) → header_canonical h' (header NB)).

(** *** Materialising the request and the transport *)

Definition BuildHTTPReq (ctx : Context) (b : loc) : H (Request + error) :=
  let+ B := deref b in
  match err B with
  | Some e => hret (inr e)
  | None =>
      let url := baseURL B +:+ path B in
      match url_Parse url with
      | inr e => hret (inr e)
      | inl urlObj =>
          let+ bvalues := load_map (urlValues B) in
          let urlValues := range_into Values_Add (map_to_list bvalues) ∅ in
          let urlValues :=
            range_into Values_Add (map_to_list (url_ParseQuery (RawQuery urlObj))) urlValues in
          let urlObj := if bool_decide (size urlValues ≠ 0%nat)
                        then {| RawQuery := url_Encode urlValues; Rest := Rest urlObj |}
                        else urlObj in
          let url := url_String urlObj in
          let method := if String.eqb (method B) "" then "GET" else method B in
          let encoded : option ReadCloser + error :=
            match req B with
            | Some r =>
                let '(data, e) := Encode (codec B) r in
                match e with
                | Some e => inr e
                | None => inl (Some (NopCloser data))
                end
            | None => inl None
            end in
          match encoded with
          | inr e => hret (inr e)
          | inl body =>
              match http_NewRequest_err method url with
              | Some e => hret (inr e)
              | None =>
                  let+ bheader := load_map (header B) in
                  let headers := range_into Header_Set (map_to_list bheader) ∅ in
                  let contentType :=
                    if String.eqb (contentType B) "" then ContentTypeJson else contentType B in
                  let headers :=
                    if String.eqb (Header_Get ContentTypeKey headers) ""
                    then Header_Set ContentTypeKey contentType headers
                    else headers in
                  hret (inl (mkRequest method url headers body ctx))
              end
          end
      end
  end.

Definition BuildTransport (ctx : Context) (b : loc) : H (RoundTripper St + error) :=
  let+ B := deref b in
  match err B with
  | Some e => hret (inr e)
  | None =>
      let transport0 := defaultTransport in
      let transport0 := if insecure B then insecureTransport else transport0 in
      let transport0 := match transport B with
                        | Some t => t
                        | None => transport0
                        end in
      let expected := if bool_decide (length (expectedStatusCodes B) ≠ 0%nat)
                      then expectedStatusCodes B else [200] in
      let tws := [StatusCodesTransport expected] in
      let tws := if String.eqb (contentType B) "" || String.eqb (contentType B) ContentTypeJson
                 then tws ++ [JsonTransport] else tws in
      let tws := tws ++ [LoggingTransport (loggingReq B) (loggingResp B)] in
      let tws := if tracing B
                 then tws ++ [TracingTransport os_Args0 otelhttp_NewTransport ""] else tws in
      let tws := tws ++ [TimeoutTransport (timeout B)] in
      hret (inl (WrapTransport transport0 tws))
  end.

End Defs.

Arguments Codec : clear implicits.
Arguments builder : clear implicits.
Arguments Heap : clear implicits.
Arguments H : clear implicits.
Arguments chain_op : clear implicits.

End Builder.


(** ** The status-envelope codec *)

Section StatusCodec.

Context {Obj : Type}.

(** [statusResp]. [Data] is the interface field that [Decode] points at
    the caller's target: its content here is the content of the target. *)
Record statusResp : Type := mkStatusResp {
  Code : Z;
  Msg : string;
  Data : Obj
}.

(** [json.NewDecoder(r).Decode(resp)] of [encoding/json]: the struct as
    the decoder leaves it, and its error. *)
Variable json_Decode : ReadCloser → statusResp → statusResp * option error.

(** [StatusJsonCodec.Decode(r, obj)]: the target as it is afterwards,
    and the error. *)
Definition StatusJsonCodec_Decode (r : ReadCloser) (obj : Obj) : Obj * option error :=
  let resp := {| Code := 0; Msg := ""; Data := obj |} in
  let '(resp, err) := json_Decode r resp in
  match err with
  | Some e => (Data resp, Some e)
  | None =>
      if negb (Code resp =? 0)
      then (Data resp,
            Some (errorString ("unexpected code:" +:+ fmt_d (Code resp)
                               +:+ ",msg:" +:+ Msg resp)))
      else (Data resp, None)
  end.

End StatusCodec.

Arguments statusResp : clear implicits.

(** ** Vocabulary for the traces of the retry transport *)

(** The calls a stub has answered, oldest first. *)
Definition calls (evs : list Event) : list (Request * RTResult) :=
  omap (λ e, match e with EvRoundTrip r res => Some (r, res) | _ => None end) evs.

(** The streams read to their end, oldest first. *)
Definition reads (evs : list Event) : list (bytes * option error) :=
  omap (λ e, match e with EvRead d err => Some (d, err) | _ => None end) evs.

(** The shape of what a run of the loop with [n] iterations left adds to
    the trace, and the outcome it ends with. [saved] is the saved body;
    [resp] and [err] are the values the variables hold on entry. *)
Inductive retry_trace (saved : bytes) :
    nat → option Response → option error → list Event → option RTResult → Prop :=
| retry_exhausted resp err :
    retry_trace saved 0 resp err [] (Some (retry_finish resp err))
| retry_after_error n resp err req r e evs out :
    Body req = Some (NopCloser saved) →
    retry_trace saved n r (Some e) evs out →
    retry_trace saved (S n) resp err (EvRoundTrip req (r, Some e) :: evs) out
| retry_after_5xx n resp err req r evs out :
    Body req = Some (NopCloser saved) →
    500 ≤ StatusCode r →
    retry_trace saved n (Some r) None evs out →
    retry_trace saved (S n) resp err
      (EvRoundTrip req (Some r, None) :: EvSleep (Millisecond * 100) :: evs) out
| retry_done n resp err req r :
    Body req = Some (NopCloser saved) →
    StatusCode r < 500 →
    retry_trace saved (S n) resp err [EvRoundTrip req (Some r, None)] (Some (Some r, None))
| retry_nil_deref n resp err req :
    Body req = Some (NopCloser saved) →
    retry_trace saved (S n) resp err [EvRoundTrip req (None, None)] None.

(** [RoundTrip] as the specification words it: an attempt that ends in
    a transport-level error ends the call, with that error and without a
    further attempt. *)
Definition error_ends_the_call : Prop :=
  ∀ (St : Type) (f : Request → St → RTResult * St) n req w out w' evs pre r e post,
    RoundTrip (RetriableTransport n (observe f)) req w = (out, w') →
    events w' = events w ++ evs →
    calls evs = pre ++ (r, (None, Some e)) :: post →
    post = [] ∧ out = Some (None, Some (withStack e)).

(** ** Vocabulary for the middleware stack *)

(** The last statements of the function [WrapTransport] returns: the
    response is dropped when the error is not nil. *)
Definition final_step (out : option RTResult) : option RTResult :=
  match out with
  | Some (_, Some e) => Some (None, Some e)
  | other => other
  end.

(** A result as the contract of [http.RoundTripper] wants it: not both a
    response and an error. *)
Definition response_or_error (out : option RTResult) : Prop :=
  match out with
  | Some (Some _, Some _) => False
  | _ => True
  end.

(** Wrappers nested with the first of the list outermost. *)
Definition nest {St : Type} (wrappers : list (TransportWrapper St))
    (base : RoundTripper St) : RoundTripper St :=
  foldr (λ wrapper next, wrapper next) base wrappers.

(** [WrapTransport] as the specification words it: the sequence
    [A, B, C] yields A-wraps(B-wraps(C-wraps(base))). *)
Definition first_wrapper_outermost : Prop :=
  ∀ (St : Type) (base : RoundTripper St) (A B C : TransportWrapper St) req w,
    WrapTransport base [A; B; C] req w = A (B (C base)) req w.

Section DefaultStack.

Context {St Obj : Type}.
Variable defaultTransport insecureTransport : RoundTripper St.
Variable os_Args0 : string.
Variable otelhttp_NewTransport : RoundTripper St → string → RoundTripper St.

(** The transport at the bottom of the stack of a builder. *)
Definition base_of (B : Builder.builder St Obj) : RoundTripper St :=
  match Builder.transport B with
  | Some t => t
  | None => if Builder.insecure B then insecureTransport else defaultTransport
  end.

Definition expected_of (B : Builder.builder St Obj) : list Z :=
  match Builder.expectedStatusCodes B with
  | [] => [200]
  | codes => codes
  end.

(** The layers between the timeout and the status validation, around
    [validated]: tracing (when enabled) around logging around the JSON
    content type (when the content type is empty or JSON). *)
Definition instrumentation (B : Builder.builder St Obj) (validated : RoundTripper St) :
    RoundTripper St :=
  let json := if String.eqb (Builder.contentType B) ""
                 || String.eqb (Builder.contentType B) ContentTypeJson
              then JsonTransport validated else validated in
  let logging := LoggingTransport (Builder.loggingReq B) (Builder.loggingResp B) json in
  if Builder.tracing B
  then TracingTransport os_Args0 otelhttp_NewTransport "" logging
  else logging.

End DefaultStack.

(** The default stack as the specification words it: the validation of
    the status code comes after every other layer has had the response
    in hand. Whenever the wire answers with a response, the record that
    the logging layer writes for the call carries the status of that
    response. *)
Definition validation_after_instrumentation : Prop :=
  ∀ (St Obj : Type) (defaultTransport insecureTransport : RoundTripper St)
    (os_Args0 : string) (otelhttp_NewTransport : RoundTripper St → string → RoundTripper St)
    (ctx : Context) (h h' : Builder.Heap St Obj) (b : Builder.loc) (B : Builder.builder St Obj)
    (f : Request → St → RTResult * St) (t : RoundTripper St)
    (req wire_req : Request) (w w' : World St) (out : option RTResult) (r : Response),
    Builder.builders h !! b = Some B →
    Builder.transport B = Some (observe f) →
    Builder.BuildTransport defaultTransport insecureTransport os_Args0
      otelhttp_NewTransport ctx b h = Some (inl t, h') →
    events w = [] →
    t req w = (out, w') →
    calls (events w') = [(wire_req, (Some r, None))] →
    ∃ kvs, EvSlog "got http resp" kvs ∈ events w' ∧
           ("http_status_code", LogInt (StatusCode r)) ∈ kvs.

(** [BuildHTTPReq] as the implicit claim on repeated header values
    words it: for every key that holds more than one value in the header
    map of the builder, the built request holds the last of them and
    only it. *)
Definition last_header_value_wins : Prop :=
  ∀ (St Obj : Type) (url_Parse : string → Builder.url_URL + error)
    (url_ParseQuery : string → gmap string (list string))
    (url_Encode : gmap string (list string) → string)
    (url_String : Builder.url_URL → string)
    (http_NewRequest_err : string → string → option error)
    (ctx : Context) (h h' : Builder.Heap St Obj) (b : Builder.loc)
    (B : Builder.builder St Obj) (hd : gmap string (list string))
    (K : string) (vs : list string) (v : string) (httpReq : Request),
    Builder.builders h !! b = Some B →
    Builder.maps h !! Builder.header B = Some hd →
    Builder.canonical_keys hd →
    hd !! K = Some vs →
    (1 < length vs)%nat →
    last vs = Some v →
    Builder.BuildHTTPReq url_Parse url_ParseQuery url_Encode url_String
      http_NewRequest_err ctx b h = Some (inl httpReq, h') →
    ReqHeader httpReq !! K = Some [v].

(** ** Stubs and requests of the examples *)

(** A stub that answers its [i]-th call with the [i]-th entry of a
    script; its state is the number of calls answered. *)
Definition scripted (script : list RTResult) (_ : Request) (i : nat) : RTResult * nat :=
  (default (None, Some (errorString "script exhausted")) (script !! i), S i).

Definition status_response (code : Z) : Response :=
  {| StatusCode := code; RespHeader := ∅; RespBody := NopCloser [] |}.

Definition background : Context :=
  {| deadline := None; traceID := ""; spanID := "" |}.

Definition post_payload : Request :=
  {| Method := "POST"; URL := "http://example.test/"; ReqHeader := ∅;
     Body := Some (NopCloser (bytes_of "payload")); Ctx := background |}.

Definition world0 : World nat := {| stub := 0%nat; now := 0; events := [] |}.

Definition refused : RTResult := (None, Some (errorString "connection refused")).
Definition answered (code : Z) : RTResult := (Some (status_response code), None).

(** Collaborators of the examples: a codec that encodes every payload
    as the bytes [{}], and a tracing layer that only delegates. *)
Definition example_codec : Builder.Codec unit :=
  {| Builder.Encode := λ _, (bytes_of "{}", None);
     Builder.Decode := λ _ o, (o, None) |}.

Definition no_tracing (next : RoundTripper nat) (_ : string) : RoundTripper nat := next.

Definition empty_heap : Builder.Heap nat unit :=
  {| Builder.builders := ∅; Builder.maps := ∅ |}.

(** [New().WithTransport(stub).Tracing(false)] with a stub that answers
    404: the builder and the heap it lives in. *)
Definition builder_404 : option (Builder.loc * Builder.Heap nat unit) :=
  Builder.hbind (Builder.New example_codec) (λ b0,
  Builder.hbind (Builder.WithTransport (Some (observe (scripted [answered 404]))) b0)
    (Builder.Tracing false)) empty_heap.

(** A JSON decoder that finds the envelope [code 5, msg bad] in every
    body and leaves the target as it is. *)
Definition decodes_5_bad (_ : ReadCloser) (resp : statusResp unit) :
    statusResp unit * option error :=
  ({| Code := 5; Msg := "bad"; Data := Data resp |}, None).

Definition b_404 : Builder.loc := default 1%positive (fst <$> builder_404).
Definition heap_404 : Builder.Heap nat unit := default empty_heap (snd <$> builder_404).

(** The struct of that builder and the transport [BuildTransport] makes
    of it (the defaults of the two [match] are never taken). *)
Definition struct_404 : Builder.builder nat unit :=
  default (Builder.mkBuilder "" "" "" example_codec None None 1%positive 1%positive
             [] false false 0 false "" false None None)
          (Builder.builders heap_404 !! b_404).

Definition transport_404 : RoundTripper nat :=
  match Builder.BuildTransport (observe (scripted [])) (observe (scripted []))
          "httpx.test" no_tracing background b_404 heap_404 with
  | Some (inl t, _) => t
  | _ => observe (scripted [])
  end.


(** Stand-ins for [net/url] in the examples: the query is what follows
    the first question mark, its pairs are separated by [&] and split at
    [=], nothing is escaped, and [Encode] writes the keys in the order of
    the map. *)
Fixpoint split_on (c : ascii) (s : string) : list string :=
  match s with
  | EmptyString => [EmptyString]
  | String a rest =>
      if Ascii.eqb a c then EmptyString :: split_on c rest
      else match split_on c rest with
           | x :: xs => String a x :: xs
           | [] => [String a EmptyString]
           end
  end.

Definition example_Parse (s : string) : Builder.url_URL + error :=
  match split_on "?" s with
  | p :: q :: _ => inl {| Builder.RawQuery := q; Builder.Rest := p |}
  | _ => inl {| Builder.RawQuery := ""; Builder.Rest := s |}
  end.

Definition example_ParseQuery (raw : string) : gmap string (list string) :=
  foldl (λ m pair, match split_on "=" pair with
                   | k :: v :: _ => Values_Add k v m
                   | _ => m
                   end) ∅ (split_on "&" raw).

Fixpoint join_with (sep : string) (l : list string) : string :=
  match l with
  | [] => ""
  | [x] => x
  | x :: rest => x +:+ sep +:+ join_with sep rest
  end.

Definition example_Encode (m : gmap string (list string)) : string :=
  join_with "&" (flat_map (λ kv, (λ v, kv.1 +:+ "=" +:+ v) <$> kv.2) (map_to_list m)).

Definition example_String (u : Builder.url_URL) : string :=
  if String.eqb (Builder.RawQuery u) "" then Builder.Rest u
  else Builder.Rest u +:+ "?" +:+ Builder.RawQuery u.

Definition example_NewRequest_err (_ _ : string) : option error := None.

Definition example_BuildHTTPReq :
    Context → Builder.loc → Builder.H nat unit (Request + error) :=
  Builder.BuildHTTPReq example_Parse example_ParseQuery example_Encode example_String
    example_NewRequest_err.

(** A chain of calls run on the empty heap: the last builder and the
    heap (the default is never taken). *)
Definition run_chain (m : Builder.H nat unit Builder.loc) :
    Builder.loc * Builder.Heap nat unit :=
  default (1%positive, empty_heap) (m empty_heap).

Definition struct_of (bh : Builder.loc * Builder.Heap nat unit) : Builder.builder nat unit :=
  default (Builder.mkBuilder "" "" "" example_codec None None 1%positive 1%positive
             [] false false 0 false "" false None None)
          (Builder.builders bh.2 !! bh.1).

Definition request_of (bh : Builder.loc * Builder.Heap nat unit) : Request :=
  match example_BuildHTTPReq background bh.1 bh.2 with
  | Some (inl httpReq, _) => httpReq
  | _ => post_payload
  end.

(** [New()]. *)
Definition chain_new : Builder.loc * Builder.Heap nat unit :=
  run_chain (Builder.New example_codec).

(** [Get("http://example.test/login?q1=a&q2=b").WithQueryString("q1", "c")]. *)
Definition chain_query : Builder.loc * Builder.Heap nat unit :=
  run_chain
    (Builder.hbind (Builder.New example_codec) (λ b0,
     Builder.hbind (Builder.Get "http://example.test/login?q1=a&q2=b" b0)
       (Builder.WithQueryString "q1" "c"))).

(** [New().WithHeader("X-Token", "a").WithHeader("X-Token", "b")]. *)
Definition chain_token : Builder.loc * Builder.Heap nat unit :=
  run_chain
    (Builder.hbind (Builder.New example_codec) (λ b0,
     Builder.hbind (Builder.WithHeader "X-Token" "a" b0)
       (Builder.WithHeader "X-Token" "b"))).

(** [New().WithHeader("Content-Type", "text/plain").WithHeader("Content-Type", "")]. *)
Definition chain_content_type : Builder.loc * Builder.Heap nat unit :=
  run_chain
    (Builder.hbind (Builder.New example_codec) (λ b0,
     Builder.hbind (Builder.WithHeader "Content-Type" "text/plain" b0)
       (Builder.WithHeader "Content-Type" ""))).


(** ** Vocabulary for the further properties *)

(** An answer that makes the retry transport wait and try again: a
    response with a nil error and a status of 500 or more. *)
Definition is_server_error (res : RTResult) : bool :=
  match res with
  | (Some r, None) => 500 <=? StatusCode r
  | _ => false
  end.

Definition server_errors (cs : list (Request * RTResult)) : nat :=
  length (filter (λ c, is_server_error c.2) cs).

(** The pauses of a trace, oldest first. *)
Definition sleeps (evs : list Event) : list Z :=
  omap (λ e, match e with EvSleep d => Some d | _ => None end) evs.

(** Requests of the further examples: one whose body breaks off after
    three bytes, and one without a body. *)
Definition broken_body : ReadCloser :=
  {| pending := bytes_of "pay"; fault := Some (errorString "unexpected EOF") |}.

Definition post_broken : Request :=
  {| Method := "POST"; URL := "http://example.test/"; ReqHeader := ∅;
     Body := Some broken_body; Ctx := background |}.

Definition get_plain : Request :=
  {| Method := "GET"; URL := "http://example.test/"; ReqHeader := ∅;
     Body := None; Ctx := background |}.

(** The pairs every record of [LoggingTransport] starts with. *)
Definition request_kvs (req : Request) : list (string * LogValue) :=
  [("http_method", LogString (Method req));
   ("http_url", LogString (URL req));
   ("traceID", LogString (traceID (Ctx req)));
   ("spanID", LogString (spanID (Ctx req)))].

(** Whether [LoggingTransport] reads the body of the response: not on
    an upgrade request, and only when the flag is set. *)
Definition reads_response (loggingRespBody : bool) (req : Request) : bool :=
  negb (String.eqb (Header_Get "Connection" (ReqHeader req)) "Upgrade") && loggingRespBody.

(** A websocket handshake with a body, and an answer with a body. *)
Definition upgrade_request : Request :=
  {| Method := "GET"; URL := "http://example.test/ws";
     ReqHeader := {["Connection" := ["Upgrade"]]};
     Body := Some (NopCloser (bytes_of "hello")); Ctx := background |}.

Definition answered_ok : RTResult :=
  (Some {| StatusCode := 200; RespHeader := ∅; RespBody := NopCloser (bytes_of "ok") |},
   None).

(** The struct that [clone] builds from [B]: the fields of [B], with
    the two new maps in place of those of [B]. *)
Definition copied {St Obj : Type} (B : Builder.builder St Obj) (l1 l2 : Builder.loc) :
    Builder.builder St Obj :=
  Builder.mkBuilder (Builder.path B) (Builder.method B) (Builder.baseURL B)
    (Builder.codec B) (Builder.resp B) (Builder.req B) l1 l2
    (Builder.expectedStatusCodes B) (Builder.loggingReq B) (Builder.loggingResp B)
    (Builder.timeout B) (Builder.tracing B) (Builder.contentType B)
    (Builder.insecure B) (Builder.transport B) (Builder.err B).

(** The heap after [clone]: the new struct at [b'], the copies of the
    two maps at [l1] and [l2]. *)
Definition cloned {St Obj : Type} (h : Builder.Heap St Obj) (B : Builder.builder St Obj)
    (b' l1 l2 : Builder.loc) (uv hd : gmap string (list string)) : Builder.Heap St Obj :=
  {| Builder.builders := <[b' := copied B l1 l2]> (Builder.builders h);
     Builder.maps :=
       <[l2 := range_into Header_Add (map_to_list hd) ∅]>
         (<[l1 := range_into Values_Add (map_to_list uv) ∅]> (Builder.maps h)) |}.

(** A heap in which the builder at [b] is as the methods of the
    package leave it: its two maps exist, are two different maps, hold
    no key without a value, and the keys of the header are canonical. *)
Definition well_formed {St Obj : Type} (h : Builder.Heap St Obj) (b : Builder.loc)
    (B : Builder.builder St Obj) (uv hd : gmap string (list string)) : Prop :=
  Builder.builders h !! b = Some B ∧
  Builder.maps h !! Builder.urlValues B = Some uv ∧
  Builder.maps h !! Builder.header B = Some hd ∧
  Builder.urlValues B ≠ Builder.header B ∧
  Builder.no_empty_values uv ∧
  Builder.no_empty_values hd ∧
  Builder.canonical_keys hd.

(** The chaining methods as functions on the content of a builder: what
    a method does to the fields of the struct, to the query parameters
    and to the header. *)
Section FunctionalBuilder.

Context {St Obj : Type}.
Variable query_Values : Obj → gmap string (list string) * option error.
Variable base64_EncodeToString : string → string.

Definition op_fields (op : Builder.chain_op St Obj) (B : Builder.builder St Obj) :
    Builder.builder St Obj :=
  match op with
  | Builder.OpGet p => Builder.with_path p (Builder.with_method "GET" B)
  | Builder.OpMethod m p => Builder.with_path p (Builder.with_method m B)
  | Builder.OpBaseURL u => Builder.with_baseURL u B
  | Builder.OpHead p => Builder.with_path p (Builder.with_method "HEAD" B)
  | Builder.OpPost p => Builder.with_path p (Builder.with_method "POST" B)
  | Builder.OpPut p => Builder.with_path p (Builder.with_method "PUT" B)
  | Builder.OpPatch p => Builder.with_path p (Builder.with_method "PATCH" B)
  | Builder.OpDelete p => Builder.with_path p (Builder.with_method "DELETE" B)
  | Builder.OpConnect p => Builder.with_path p (Builder.with_method "CONNECT" B)
  | Builder.OpOptions p => Builder.with_path p (Builder.with_method "OPTIONS" B)
  | Builder.OpTrace p => Builder.with_path p (Builder.with_method "TRACE" B)
  | Builder.OpWithQueryStringObj obj => Builder.with_err (query_Values obj).2 B
  | Builder.OpWithCodec c => Builder.with_codec c B
  | Builder.OpWithReq o => Builder.with_req o B
  | Builder.OpWithResp o => Builder.with_resp o B
  | Builder.OpExpectedStatusCodes codes => Builder.with_expectedStatusCodes codes B
  | Builder.OpLogging lreq lresp =>
      Builder.with_loggingResp lresp (Builder.with_loggingReq lreq B)
  | Builder.OpTimeout d => Builder.with_timeout d B
  | Builder.OpTracing on => Builder.with_tracing on B
  | Builder.OpContentType ct => Builder.with_contentType ct B
  | Builder.OpInsecure on => Builder.with_insecure on B
  | Builder.OpWithTransport t => Builder.with_transport t B
  | Builder.OpWithQueryString _ _ | Builder.OpWithURLValues _
  | Builder.OpWithHeader _ _ | Builder.OpWithBasicAuth _ _
  | Builder.OpWithHeaders _ => B
  end.

Definition op_query (op : Builder.chain_op St Obj) (uv : gmap string (list string)) :
    gmap string (list string) :=
  match op with
  | Builder.OpWithQueryString key value => Values_Add key value uv
  | Builder.OpWithURLValues values => range_into Values_Add (map_to_list values) uv
  | Builder.OpWithQueryStringObj obj =>
      range_into Values_Add (map_to_list (query_Values obj).1) uv
  | _ => uv
  end.

Definition op_header (op : Builder.chain_op St Obj) (hd : gmap string (list string)) :
    gmap string (list string) :=
  match op with
  | Builder.OpWithHeader key value => Header_Add key value hd
  | Builder.OpWithBasicAuth username password =>
      Header_Set "Authorization"
        ("Basic " +:+ Builder.BasicAuth base64_EncodeToString username password) hd
  | Builder.OpWithHeaders headers => range_into Header_Add (map_to_list headers) hd
  | _ => hd
  end.

(** A heap that holds, on top of [h], the struct [X] at [b'] and the
    maps [uv] and [hd] at [l1] and [l2]. *)
Definition with_builder (h : Builder.Heap St Obj) (b' : Builder.loc)
    (X : Builder.builder St Obj) (l1 l2 : Builder.loc)
    (uv hd : gmap string (list string)) : Builder.Heap St Obj :=
  {| Builder.builders := <[b' := X]> (Builder.builders h);
     Builder.maps := <[l2 := hd]> (<[l1 := uv]> (Builder.maps h)) |}.

End FunctionalBuilder.

(** The addresses [clone] allocates in a heap: the new struct, the new
    query map and the new header map. *)
Definition new_struct {St Obj : Type} (h : Builder.Heap St Obj) : Builder.loc :=
  fresh (dom (Builder.builders h)).

Definition new_query {St Obj : Type} (h : Builder.Heap St Obj) : Builder.loc :=
  fresh (dom (Builder.maps h)).

Definition new_header {St Obj : Type} (h : Builder.Heap St Obj) : Builder.loc :=
  fresh ({[new_query h]} ∪ dom (Builder.maps h)).


(** A conversion of [go-querystring] that fails on every object, and
    [New().WithQueryStringObj(obj)] under it. *)
Definition failing_Values (_ : unit) : gmap string (list string) * option error :=
  (∅, Some (errorString "query: Values() expects struct input")).

Definition chain_failed : Builder.loc * Builder.Heap nat unit :=
  run_chain
    (Builder.hbind (Builder.New example_codec) (Builder.WithQueryStringObj failing_Values tt)).


(** ** Further wrappers ([unnamed/part_000]) *)

Section MoreWrappers.

Context {St : Type}.
Variable os_Args0 : string.
Variable otelhttp_NewTransport : RoundTripper St → string → RoundTripper St.

Definition HeadersTransport (header : Header) : TransportWrapper St :=
  λ next httpReq,
    next (set_ReqHeader
            (range_into Header_Add (map_to_list header) (ReqHeader httpReq)) httpReq).

(** [defaultHandlerTimeout] of [handler_wrapper.go]. *)
Definition defaultHandlerTimeout : Z := Second * 10.

Definition DefaultTransportWrapper (next : RoundTripper St) : RoundTripper St :=
  let next := foldl (λ next wrapper, wrapper next) next
                [StatusCodeTransport 200;
                 JsonTransport;
                 LoggingTransport true true;
                 TracingTransport os_Args0 otelhttp_NewTransport "";
                 TimeoutTransport defaultHandlerTimeout] in
  λ httpReq,
    let* '(resp, err) := next httpReq in
    match err with
    | Some e => ret (None, Some e)
    | None => ret (resp, None)
    end.

(** The layers of [DefaultTransportWrapper] below the timeout. *)
Definition default_layers (next : RoundTripper St) : RoundTripper St :=
  TracingTransport os_Args0 otelhttp_NewTransport ""
    (LoggingTransport true true (JsonTransport (StatusCodeTransport 200 next))).

End MoreWrappers.

(** ** The shared transports and clients ([transport.go], [unnamed/part_002]) *)

Module Shared.

Section Defs.

Context {St : Type}.

(** The [&http.Transport{...}] literals of [BuildTransport] and of
    [BuildInsecureTransport] (the second does not verify certificates):
    transports of [net/http]. *)
Variable http_Transport http_Transport_insecure : RoundTripper St.

(** [&http.Client{Transport: t}]. *)
Record http_Client : Type := mkClient {
  ClientTransport : RoundTripper St
}.

Definition BuildTransport (tws : list (TransportWrapper St)) : RoundTripper St :=
  WrapTransport http_Transport tws.

Definition BuildInsecureTransport (tws : list (TransportWrapper St)) : RoundTripper St :=
  WrapTransport http_Transport_insecure tws.

Definition BuildClient (tws : list (TransportWrapper St)) : http_Client :=
  {| ClientTransport := BuildTransport tws |}.

Definition BuildInsecureClient (tws : list (TransportWrapper St)) : http_Client :=
  {| ClientTransport := BuildInsecureTransport tws |}.

(** The package-level variables of the plain and insecure transports and
    clients. A [sync.Once] is the flag that says whether a [Do] of it
    has run; a variable that was never assigned is [nil]. *)
Record Globals : Type := mkGlobals {
  transportOnce : bool;
  transport : option (RoundTripper St);
  insecureTransportOnce : bool;
  insecureTransport : option (RoundTripper St);
  clientOnce : bool;
  client : option http_Client;
  insecureClientOnce : bool;
  insecureClient : option http_Client
}.

(** The variables when the program starts. *)
Definition zero : Globals :=
  mkGlobals false None false None false None false None.

(** [once.Do(f)] for the [Once] whose flag is [flag]: [f] runs, and the
    flag is raised ([done]), if no [Do] of it has run before. *)
Definition Once_Do (flag : Globals → bool) (done f : Globals → Globals)
    (g : Globals) : Globals :=
  if flag g then g else done (f g).

Definition Transport (tws : list (TransportWrapper St)) (g : Globals) :
    option (RoundTripper St) * Globals :=
  let g :=
    Once_Do transportOnce
      (λ g, mkGlobals true (transport g) (insecureTransportOnce g) (insecureTransport g)
              (clientOnce g) (client g) (insecureClientOnce g) (insecureClient g))
      (λ g, mkGlobals (transportOnce g) (Some (BuildTransport tws))
              (insecureTransportOnce g) (insecureTransport g)
              (clientOnce g) (client g) (insecureClientOnce g) (insecureClient g)) g in
  (transport g, g).

Definition InsecureTransport (tws : list (TransportWrapper St)) (g : Globals) :
    option (RoundTripper St) * Globals :=
  let g :=
    Once_Do insecureTransportOnce
      (λ g, mkGlobals (transportOnce g) (transport g) true (insecureTransport g)
              (clientOnce g) (client g) (insecureClientOnce g) (insecureClient g))
      (λ g, mkGlobals (transportOnce g) (transport g)
              (insecureTransportOnce g) (Some (BuildInsecureTransport tws))
              (clientOnce g) (client g) (insecureClientOnce g) (insecureClient g)) g in
  (insecureTransport g, g).

(** [Client(tws...)] and [InsecureClient(tws...)] build with
    [BuildClient()] and [BuildInsecureClient()]: without [tws]. *)
Definition Client (tws : list (TransportWrapper St)) (g : Globals) :
    option http_Client * Globals :=
  let g :=
    Once_Do clientOnce
      (λ g, mkGlobals (transportOnce g) (transport g)
              (insecureTransportOnce g) (insecureTransport g)
              true (client g) (insecureClientOnce g) (insecureClient g))
      (λ g, mkGlobals (transportOnce g) (transport g)
              (insecureTransportOnce g) (insecureTransport g)
              (clientOnce g) (Some (BuildClient [])) (insecureClientOnce g) (insecureClient g))
      g in
  (client g, g).

Definition InsecureClient (tws : list (TransportWrapper St)) (g : Globals) :
    option http_Client * Globals :=
  let g :=
    Once_Do insecureClientOnce
      (λ g, mkGlobals (transportOnce g) (transport g)
              (insecureTransportOnce g) (insecureTransport g)
              (clientOnce g) (client g) true (insecureClient g))
      (λ g, mkGlobals (transportOnce g) (transport g)
              (insecureTransportOnce g) (insecureTransport g)
              (clientOnce g) (client g) (insecureClientOnce g)
              (Some (BuildInsecureClient [])))
      g in
  (insecureClient g, g).

(** A call of one of the four functions, and the variables after it. *)
Inductive shared_call : Type :=
| CallTransport (tws : list (TransportWrapper St))
| CallInsecureTransport (tws : list (TransportWrapper St))
| CallClient (tws : list (TransportWrapper St))
| CallInsecureClient (tws : list (TransportWrapper St)).

Definition after (g : Globals) (c : shared_call) : Globals :=
  match c with
  | CallTransport tws => (Transport tws g).2
  | CallInsecureTransport tws => (InsecureTransport tws g).2
  | CallClient tws => (Client tws g).2
  | CallInsecureClient tws => (InsecureClient tws g).2
  end.

End Defs.

Arguments http_Client : clear implicits.
Arguments Globals : clear implicits.
Arguments shared_call : clear implicits.

End Shared.

(** ** Interceptors ([interceptor.go]) *)

Section Interceptors.

Context {St : Type}.

(** A function from a response pointer to an error: the response as
    the call leaves it, and the error. *)
Definition RespInterceptor : Type := Response → M St (Response * option error).

Definition StatusCodeRespInterceptor (expected : Z) : RespInterceptor :=
  λ httpResp,
    let got := StatusCode httpResp in
    if got =? expected then ret (httpResp, None)
    else ret (httpResp,
              Some (errorString ("expected statuscode:" +:+ fmt_d expected
                                 +:+ ", got:" +:+ fmt_d got))).

Definition StatusCodeRangeRespInterceptor (codeStart codeEnd : Z) : RespInterceptor :=
  λ httpResp,
    let got := StatusCode httpResp in
    if (got <? codeStart) || (codeEnd <? got)
    then ret (httpResp,
              Some (errorString ("expected code in (" +:+ fmt_d codeStart +:+ ","
                                 +:+ fmt_d codeEnd +:+ "), got:" +:+ fmt_d got)))
    else ret (httpResp, None).

Fixpoint ChainedRespInterceptor (respInterceptors : list RespInterceptor)
    (httpResp : Response) : M St (Response * option error) :=
  match respInterceptors with
  | [] => ret (httpResp, None)
  | respInterceptor :: rest =>
      let* '(httpResp, err) := respInterceptor httpResp in
      match err with
      | Some e => ret (httpResp, errors_WithStack (Some e))
      | None => ChainedRespInterceptor rest httpResp
      end
  end.

End Interceptors.

Arguments RespInterceptor : clear implicits.

(** Fixtures of the further examples: a wrapper that marks the request,
    and an interceptor that marks the response. *)
Definition mark_request : TransportWrapper nat := HeaderTransport "X-Mark" "1".

Definition tag_response (v : string) : RespInterceptor nat :=
  λ httpResp,
    ret ({| StatusCode := StatusCode httpResp;
            RespHeader := Header_Add "X-Seen" v (RespHeader httpResp);
            RespBody := RespBody httpResp |}, None).


(** ** Handlers and the recording response writer ([handler_wrapper.go]) *)

Module Server.

Section Defs.

(** [RW] is the state of the [http.ResponseWriter] of [net/http] (the
    connection), [Req] and [Resp] the types a handler is instantiated
    with. *)
Context {RW Req Resp : Type}.

(** The fields of [responseWriterWrapper] beside the embedded writer. A
    wrapper is only ever built around a writer that is not one itself
    ([wrapResponseWriter]): the embedded writer is that of [net/http]. *)
Record responseWriterWrapper : Type := mkWrapper {
  statusCode : Z;
  buf : bytes
}.

(** The state of the server side: the connection, and the wrappers that
    were allocated, by address. *)
Record Srv : Type := mkSrv {
  conn : RW;
  wrappers : gmap positive responseWriterWrapper
}.

(** An [http.ResponseWriter] value: the writer of [net/http], or a
    pointer to a [responseWriterWrapper]. *)
Inductive ResponseWriter : Type :=
| net_writer
| wrapper_at (rw : positive).

Definition http_Handler : Type := ResponseWriter → Request → M Srv unit.

(** Collaborators: [WriteHeader] and [Write] of the writer of
    [net/http] ([Write] returns the number of bytes it took, at most the
    length of the data, and an error), the codec ([Decode] is handed the
    body of the request and the target, and returns the target as it
    leaves it) and the zero value of [Req]. *)
Variable conn_WriteHeader : Z → RW → RW.
Variable conn_Write : bytes → RW → (Z * option error) * RW.
Variable codec_Decode : option ReadCloser → Req → Req * option error.
Variable codec_Encode : Resp → bytes * option error.
Variable new_Req : Req.

Definition get_srv : M Srv Srv := λ w, (Some (stub w), w).

Definition put_srv (s : Srv) : M Srv unit :=
  λ w, (Some tt, {| stub := s; now := now w; events := events w |}).

Definition net_WriteHeader (code : Z) : M Srv unit :=
  let* s := get_srv in
  put_srv {| conn := conn_WriteHeader code (conn s); wrappers := wrappers s |}.

Definition net_Write (data : bytes) : M Srv (Z * option error) :=
  let* s := get_srv in
  let '(res, c) := conn_Write data (conn s) in
  put_srv {| conn := c; wrappers := wrappers s |};;
  ret res.

(** Reading and writing the struct a wrapper pointer points to; a
    dangling pointer panics. *)
Definition load (rw : positive) : M Srv responseWriterWrapper :=
  let* s := get_srv in
  match wrappers s !! rw with
  | Some x => ret x
  | None => panic
  end.

Definition store (rw : positive) (x : responseWriterWrapper) : M Srv unit :=
  let* s := get_srv in
  put_srv {| conn := conn s; wrappers := <[rw := x]> (wrappers s) |}.

(** The methods of [responseWriterWrapper]. *)
Definition rw_WriteHeader (rw : positive) (code : Z) : M Srv unit :=
  load rw;;
  net_WriteHeader code;;
  let* x := load rw in
  store rw {| statusCode := code; buf := buf x |}.

Definition rw_Write (rw : positive) (data : bytes) : M Srv (Z * option error) :=
  load rw;;
  let* '(n, err) := net_Write data in
  match err with
  | Some e => ret (0, Some e)
  | None =>
      let* x := load rw in
      store rw {| statusCode := statusCode x; buf := buf x ++ take (Z.to_nat n) data |};;
      ret (n, None)
  end.

Definition rw_Body (rw : positive) : M Srv string :=
  let* x := load rw in
  let body := string_of_list_byte (buf x) in
  store rw {| statusCode := statusCode x; buf := [] |};;
  ret body.

Definition rw_StatusCode (rw : positive) : M Srv Z :=
  let* x := load rw in
  if statusCode x =? 0 then ret 200 else ret (statusCode x).

(** The calls [w.WriteHeader] and [w.Write] on a writer value. *)
Definition WriteHeader (w : ResponseWriter) (code : Z) : M Srv unit :=
  match w with
  | net_writer => net_WriteHeader code
  | wrapper_at rw => rw_WriteHeader rw code
  end.

Definition Write (w : ResponseWriter) (data : bytes) : M Srv (Z * option error) :=
  match w with
  | net_writer => net_Write data
  | wrapper_at rw => rw_Write rw data
  end.

Definition wrapResponseWriter (w : ResponseWriter) : M Srv positive :=
  match w with
  | wrapper_at raw => ret raw
  | net_writer =>
      let* s := get_srv in
      let rw := fresh (dom (wrappers s)) in
      put_srv {| conn := conn s;
                 wrappers := <[rw := {| statusCode := 200; buf := [] |}]> (wrappers s) |};;
      ret rw
  end.

Definition Handler (handler : Context → Req → M Srv (Resp * option error)) : http_Handler :=
  λ w r,
    let ctx := Ctx r in
    let '(reqObj, err) := codec_Decode (Body r) new_Req in
    match err with
    | Some _ => WriteHeader w 400
    | None =>
        let* '(respObj, err) := handler ctx reqObj in
        match err with
        | Some _ => WriteHeader w 500
        | None =>
            let '(respData, err) := codec_Encode respObj in
            match err with
            | Some _ => WriteHeader w 500
            | None =>
                let* '(_, err) := Write w respData in
                match err with
                | Some _ => WriteHeader w 500
                | None => ret tt
                end
            end
        end
    end.

(** [LoggingHandler]. The deferred functions run when the handler
    returns and when it panics; they read [kvs] as it is then. *)
Definition LoggingHandler (loggingReqBody loggingRespBody : bool) (next : http_Handler) :
    http_Handler :=
  λ w httpReq,
    let kvs := [("http_method", LogString (Method httpReq));
                ("http_url", LogString (URL httpReq));
                ("traceID", LogString (traceID (Ctx httpReq)));
                ("spanID", LogString (spanID (Ctx httpReq)))] in
    let isUpgrade := String.eqb (Header_Get "Connection" (ReqHeader httpReq)) "Upgrade" in
    if negb isUpgrade
    then
      let* wWrapped := wrapResponseWriter w in
      let serve kvs httpReq :=
        defer (next (wrapper_at wWrapped) httpReq)
              (if loggingRespBody
               then let* respData := rw_Body wWrapped in
                    let* statusCode := rw_StatusCode wWrapped in
                    emit (EvSlog "serve http req"
                            (kvs ++ [("resp_data", LogString respData);
                                     ("statusCode", LogInt statusCode)]))
               else emit (EvSlog "serve http req" kvs)) in
      match (if loggingReqBody then Body httpReq else None) with
      | Some body =>
          let* drained := DrainBody body in
          match drained with
          | inr _ => ret tt
          | inl (reqData, reqBody) =>
              serve (kvs ++ [("req_data", LogString (string_of_list_byte reqData))])
                    (set_Body (Some reqBody) httpReq)
          end
      | None => serve kvs httpReq
      end
    else
      defer (next w httpReq) (emit (EvSlog "serve http req" kvs)).

(** A handler that makes the given calls on its writer, one after the
    other, and nothing else. *)
Inductive writer_call : Type :=
| CallWriteHeader (code : Z)
| CallWrite (data : bytes).

Fixpoint calls_writer (cs : list writer_call) (w : ResponseWriter) (r : Request) :
    M Srv unit :=
  match cs with
  | [] => ret tt
  | CallWriteHeader code :: rest => WriteHeader w code;; calls_writer rest w r
  | CallWrite data :: rest => Write w data;; calls_writer rest w r
  end.

(** What the calls [cs] do to the connection, and what of them a
    wrapper records: the bytes the connection took without an error,
    and the last status. *)
Fixpoint conn_after (cs : list writer_call) (c : RW) : RW :=
  match cs with
  | [] => c
  | CallWriteHeader code :: rest => conn_after rest (conn_WriteHeader code c)
  | CallWrite data :: rest => conn_after rest (conn_Write data c).2
  end.

Fixpoint recorded (cs : list writer_call) (c : RW) : bytes :=
  match cs with
  | [] => []
  | CallWriteHeader code :: rest => recorded rest (conn_WriteHeader code c)
  | CallWrite data :: rest =>
      match conn_Write data c with
      | ((n, None), c') => take (Z.to_nat n) data ++ recorded rest c'
      | ((_, Some _), c') => recorded rest c'
      end
  end.

Fixpoint last_status (cs : list writer_call) (code : Z) : Z :=
  match cs with
  | [] => code
  | CallWriteHeader code' :: rest => last_status rest code'
  | CallWrite _ :: rest => last_status rest code
  end.

(** The data of the [Write] calls of [cs], one after the other. *)
Definition written (cs : list writer_call) : bytes :=
  flat_map (λ c, match c with CallWrite data => data | CallWriteHeader _ => [] end) cs.

(** What [StatusCode()] makes of the field [statusCode]. *)
Definition reported (code : Z) : Z := if code =? 0 then 200 else code.

(** The world with another connection and other wrappers. *)
Definition with_srv (w : World Srv) (c : RW) (ws : gmap positive responseWriterWrapper) :
    World Srv :=
  {| stub := {| conn := c; wrappers := ws |}; now := now w; events := events w |}.

End Defs.

Arguments responseWriterWrapper : clear implicits.
Arguments Srv : clear implicits.
Arguments http_Handler : clear implicits.

End Server.


(** Fixtures of the server side: a connection that records the calls
    made on it and takes all the data it is given, a world with no
    wrapper and one with a wrapper at address 1, a codec over [unit]
    that fails to decode an empty body and encodes to [{}], and a
    handler function without an effect. *)
Inductive conn_event : Type :=
| SentHeader (code : Z)
| SentData (data : bytes).

Definition recording_WriteHeader (code : Z) (c : list conn_event) : list conn_event :=
  c ++ [SentHeader code].

Definition recording_Write (data : bytes) (c : list conn_event) :
    (Z * option error) * list conn_event :=
  ((Z.of_nat (length data), None), c ++ [SentData data]).

Definition server0 : World (Server.Srv (list conn_event)) :=
  {| stub := {| Server.conn := []; Server.wrappers := ∅ |}; now := 0; events := [] |}.

Definition server1 : World (Server.Srv (list conn_event)) :=
  {| stub := {| Server.conn := [];
                Server.wrappers := {[1%positive := {| Server.statusCode := 200;
                                                      Server.buf := [] |}]} |};
     now := 0; events := [] |}.

Definition unit_Decode (body : option ReadCloser) (o : unit) : unit * option error :=
  match body with
  | Some {| pending := _ :: _; fault := None |} => (o, None)
  | _ => (o, Some (errorString "EOF"))
  end.

Definition unit_Encode (_ : unit) : bytes * option error := (bytes_of "{}", None).

Definition handler_ok (_ : Context) (_ : unit) :
    M (Server.Srv (list conn_event)) (unit * option error) :=
  ret (tt, None).

Definition not_found_page : list Server.writer_call :=
  [Server.CallWriteHeader 404; Server.CallWrite (bytes_of "not "); Server.CallWrite (bytes_of "found")].

(** * Properties *)

(** ** The retry transport *)

Section RetryProperties.

Context {St : Type}.
Implicit Types (f : Request → St → RTResult * St) (w : World St).

Lemma retry_loop_trace f saved n req resp err w out w' :
  retry_loop n (observe f) saved req resp err w = (out, w') →
  ∃ evs, events w' = events w ++ evs ∧ retry_trace saved n resp err evs out.
Proof.
  revert req resp err w.
  induction n as [|n IH]; intros req resp err w Hrun; simpl in Hrun.
  - injection Hrun as <- <-. exists []. rewrite app_nil_r. split; [done | constructor].
  - unfold call_RoundTrip, bind, observe in Hrun.
    destruct (f _ (stub w)) as [[resp1 err1] s1] eqn:Hf.
    unfold ret at 1 in Hrun.
    destruct err1 as [e|].
    + apply IH in Hrun as (evs & Hev & Htr). simpl in Hev.
      exists (EvRoundTrip (set_Body (Some (NopCloser saved)) req) (resp1, Some e) :: evs).
      split; [by rewrite Hev, <- app_assoc | by constructor].
    + destruct resp1 as [r|].
      * destruct (500 <=? StatusCode r) eqn:Hcode.
        -- unfold bind, time_Sleep in Hrun.
           apply IH in Hrun as (evs & Hev & Htr). simpl in Hev.
           eexists (_ :: _ :: evs).
           split; [by rewrite Hev, <- !app_assoc |].
           apply retry_after_5xx; [done | lia | done].
        -- injection Hrun as <- <-. simpl. eexists [_]. split; [done |].
           apply retry_done; [done | lia].
      * injection Hrun as <- <-. simpl. eexists [_]. split; [done |].
        by apply retry_nil_deref.
Qed.

Lemma retry_trace_calls_bound saved n resp err evs out :
  retry_trace saved n resp err evs out → (length (calls evs) ≤ n)%nat.
Proof. induction 1; simpl; lia. Qed.

Lemma retry_trace_bodies saved n resp err evs out :
  retry_trace saved n resp err evs out →
  Forall (λ c, Body c.1 = Some (NopCloser saved)) (calls evs).
Proof. induction 1; simpl; auto. Qed.

Lemma retry_trace_no_read saved n resp err evs out :
  retry_trace saved n resp err evs out →
  ∀ data e, EvRead data e ∉ evs.
Proof.
  induction 1; intros data e'; rewrite ?not_elem_of_cons; repeat split;
    try done; try apply IHretry_trace; apply not_elem_of_nil.
Qed.

Lemma retry_trace_starts saved n resp err evs out :
  retry_trace saved (S n) resp err evs out →
  ∃ r res rest, evs = EvRoundTrip r res :: rest.
Proof. inversion 1; eauto. Qed.

(** An attempt that ends in an error, while the budget is not used up, is
    followed in the trace by the next attempt, with no event in between. *)
Lemma retry_trace_error_next saved n resp err evs out :
  retry_trace saved n resp err evs out →
  ∀ i r res e,
    evs !! i = Some (EvRoundTrip r (res, Some e)) →
    (length (calls (take (S i) evs)) < n)%nat →
    ∃ r' res', evs !! S i = Some (EvRoundTrip r' res').
Proof.
  induction 1 as [resp err|n resp err req r e evs out Hb Htr IH
                 |n resp err req r evs out Hb Hc Htr IH
                 |n resp err req r Hb Hc|n resp err req Hb];
    intros i r0 res0 e0 Hi Hlt.
  - by rewrite lookup_nil in Hi.
  - destruct i as [|i]; simpl in *.
    + rewrite ?take_0 in Hlt. simpl in Hlt.
      destruct n as [|n]; [lia |].
      destruct (retry_trace_starts _ _ _ _ _ _ Htr) as (r' & res' & rest & ->).
      by exists r', res'.
    + apply (IH i r0 res0 e0 Hi). lia.
  - destruct i as [|[|i]]; simpl in *; [done | done |].
    apply (IH i r0 res0 e0 Hi). lia.
  - destruct i as [|i]; simpl in *; [done | by rewrite lookup_nil in Hi].
  - destruct i as [|i]; simpl in *; [done | by rewrite lookup_nil in Hi].
Qed.

(** When all [n] attempts were made, the outcome is decided by the answer
    to the last one. *)
Lemma retry_trace_exhausted saved n resp err evs out :
  retry_trace saved n resp err evs out →
  length (calls evs) = n →
  out = match last (calls evs) with
        | Some (_, (Some r, _)) => Some (Some r, None)
        | Some (_, (None, Some e)) => Some (None, Some (withStack e))
        | Some (_, (None, None)) => None
        | None => Some (retry_finish resp err)
        end.
Proof.
  induction 1 as [resp err|n resp err req r e evs out Hb Htr IH
                 |n resp err req r evs out Hb Hc Htr IH
                 |n resp err req r Hb Hc|n resp err req Hb];
    simpl; intros Hlen; try done.
  - injection Hlen as Hlen. rewrite (IH Hlen).
    destruct (calls evs) as [|c cs] eqn:Hcs; [by destruct r |].
    rewrite last_cons_cons.
    destruct (last (c :: cs)) as [[? [[?|] [?|]]]|] eqn:Hl; try done.
    by apply last_None in Hl.
  - injection Hlen as Hlen. rewrite (IH Hlen).
    destruct (calls evs) as [|c cs] eqn:Hcs; [done |].
    rewrite last_cons_cons.
    destruct (last (c :: cs)) as [[? [[?|] [?|]]]|] eqn:Hl; try done.
    by apply last_None in Hl.
Qed.

(** What a call of [RoundTrip] adds to the trace. *)
Lemma RoundTrip_trace f n req w out w' :
  RoundTrip (RetriableTransport n (observe f)) req w = (out, w') →
  match (if 0 <? n then Body req else None) with
  | Some body =>
      match fault body with
      | Some e =>
          events w' = events w ++ [EvRead (pending body) (Some e)] ∧
          out = Some (None, Some (withStack e))
      | None =>
          ∃ evs, events w' = events w ++ EvRead (pending body) None :: evs ∧
                 retry_trace (pending body) (Z.to_nat n) None None evs out
      end
  | None =>
      ∃ evs, events w' = events w ++ evs ∧
             retry_trace [] (Z.to_nat n) None None evs out
  end.
Proof.
  unfold RoundTrip, RetriableTransport; simpl. intros Hrun.
  destruct (0 <? n) eqn:Hn; [destruct (Body req) as [body|] |].
  - unfold bind, ioutil_ReadAll, bind, emit in Hrun. unfold ret at 1 in Hrun.
    simpl in Hrun.
    destruct (fault body) as [e|].
    + by injection Hrun as <- <-.
    + apply retry_loop_trace in Hrun as (evs & Hev & Htr). simpl in Hev.
      exists evs. split; [by rewrite Hev, <- app_assoc | done].
  - by apply retry_loop_trace in Hrun.
  - destruct (Body req); by apply retry_loop_trace in Hrun.
Qed.

(** C10. A retry transport built with [maxRetry <= 0] makes no attempt
    (the world, and so the trace, is left as it was: nothing is read,
    nothing is sent) and [RoundTrip] returns a nil response together with
    a nil error, whatever the wrapped transport and the request. *)
Theorem RoundTrip_nonpositive_maxRetry (inner : RoundTripper St) n req w :
  n ≤ 0 →
  RoundTrip (RetriableTransport n inner) req w = (Some (None, None), w).
Proof.
  intros Hn. unfold RoundTrip, RetriableTransport; simpl.
  replace (0 <? n) with false by (symmetry; apply Z.ltb_ge; lia).
  replace (Z.to_nat n) with 0%nat by lia.
  by destruct (Body req).
Qed.

(** C1 (amended). A transport-level error does not end the call while
    attempts remain: the attempt that failed is followed at once, with no
    delay, by the next one. A completed response with status >= 500 is
    followed by a delay of 100ms and then, while attempts remain, by the
    next attempt; a response with a status below 500 ends the call. At
    most [maxRetry] attempts are made. All of this is the grammar
    [retry_trace] of the events that follow the read of the body. *)
Theorem RoundTrip_retry_policy f n req w out w' :
  RoundTrip (RetriableTransport n (observe f)) req w = (out, w') →
  ∃ pre evs saved,
    events w' = events w ++ pre ++ evs ∧ calls pre = [] ∧
    (length (calls evs) ≤ Z.to_nat n)%nat ∧
    (retry_trace saved (Z.to_nat n) None None evs out ∨
     evs = [] ∧ ∃ data e, pre = [EvRead data (Some e)] ∧
                          out = Some (None, Some (withStack e))) ∧
    (∀ i r res e,
       evs !! i = Some (EvRoundTrip r (res, Some e)) →
       (length (calls (take (S i) evs)) < Z.to_nat n)%nat →
       ∃ r' res', evs !! S i = Some (EvRoundTrip r' res')).
Proof.
  intros Hrun. apply RoundTrip_trace in Hrun.
  destruct (if 0 <? n then Body req else None) as [body|].
  - destruct (fault body) as [e|].
    + destruct Hrun as [Hev ->].
      exists [EvRead (pending body) (Some e)], [], [].
      rewrite app_nil_r. split_and!; simpl; [done | done | lia | | ].
      { right. split; [done |]. by exists (pending body), e. }
      intros i r res e' Hi. by rewrite lookup_nil in Hi.
    + destruct Hrun as (evs & Hev & Htr).
      exists [EvRead (pending body) None], evs, (pending body).
      split_and!; eauto using retry_trace_calls_bound, retry_trace_error_next.
  - destruct Hrun as (evs & Hev & Htr).
    exists [], evs, [].
    split_and!; eauto using retry_trace_calls_bound, retry_trace_error_next.
Qed.

(** C6. When the retry transport has used up its [maxRetry] attempts, the
    answer to the last attempt decides: if it carried a response, also
    one with status >= 500, [RoundTrip] returns that response with a nil
    error; if it carried only an error, that error is returned (annotated
    by [errors.WithStack]). *)
Theorem RoundTrip_exhausted f n req w out w' evs r_last resp_last err_last :
  RoundTrip (RetriableTransport n (observe f)) req w = (out, w') →
  events w' = events w ++ evs →
  length (calls evs) = Z.to_nat n →
  last (calls evs) = Some (r_last, (resp_last, err_last)) →
  (∀ r, resp_last = Some r → out = Some (Some r, None)) ∧
  (∀ e, resp_last = None → err_last = Some e →
        out = Some (None, Some (withStack e)) ∧ Cause (withStack e) = Cause e).
Proof.
  intros Hrun Hev Hlen Hlast. apply RoundTrip_trace in Hrun.
  assert (∀ saved evs0, retry_trace saved (Z.to_nat n) None None evs0 out →
            calls evs = calls evs0 →
            (∀ r, resp_last = Some r → out = Some (Some r, None)) ∧
            (∀ e, resp_last = None → err_last = Some e →
                  out = Some (None, Some (withStack e)) ∧
                  Cause (withStack e) = Cause e)) as Hmain.
  { intros saved evs0 Htr Hcalls. rewrite Hcalls in Hlen, Hlast.
    rewrite (retry_trace_exhausted _ _ _ _ _ _ Htr Hlen), Hlast.
    split; [by intros r -> | by intros e -> ->]. }
  destruct (if 0 <? n then Body req else None) as [body|] eqn:Hbody.
  - destruct (fault body) as [e|].
    + destruct Hrun as [Hev' ->]. rewrite Hev' in Hev.
      apply app_inv_head in Hev as <-. done.
    + destruct Hrun as (evs0 & Hev' & Htr). rewrite Hev' in Hev.
      apply app_inv_head in Hev as <-. by apply (Hmain _ _ Htr).
  - destruct Hrun as (evs0 & Hev' & Htr). rewrite Hev' in Hev.
    apply app_inv_head in Hev as <-. by apply (Hmain _ _ Htr).
Qed.

(** C7. With [maxRetry > 0] and a request that has a body, the body is
    read to its end exactly once, before any attempt, and that read
    drains the stream of the request. When the read succeeds, attempts
    are made: at least one and at most [maxRetry], one following the
    other as the retry policy [retry_trace] says. Every attempt hands
    the wrapped transport a fresh stream over the bytes saved by that
    read, with all of them still to be read, although the stream of the
    request is drained by then and the stream of an earlier attempt was
    consumed by the transport: the wrapped transport sees the same body
    bytes on every attempt. When the read fails, no attempt is made and
    the error of the read is returned. *)
Theorem RoundTrip_replays_saved_body f n req body w out w' :
  0 < n →
  Body req = Some body →
  RoundTrip (RetriableTransport n (observe f)) req w = (out, w') →
  ∃ evs,
    events w' = events w ++ EvRead (pending body) (fault body) :: evs ∧
    (∀ data e, EvRead data e ∉ evs) ∧
    Forall (λ c, Body c.1 = Some (NopCloser (pending body))) (calls evs) ∧
    match fault body with
    | Some e => evs = [] ∧ out = Some (None, Some (withStack e))
    | None =>
        retry_trace (pending body) (Z.to_nat n) None None evs out ∧
        (1 ≤ length (calls evs) ≤ Z.to_nat n)%nat
    end.
Proof.
  intros Hn Hbody Hrun. apply RoundTrip_trace in Hrun.
  replace (0 <? n) with true in Hrun by (symmetry; apply Z.ltb_lt; lia).
  rewrite Hbody in Hrun.
  destruct (fault body) as [e|].
  - destruct Hrun as [Hev ->]. exists []. split_and!; try done.
    intros ??. apply not_elem_of_nil.
  - destruct Hrun as (evs & Hev & Htr). exists evs.
    split_and!; eauto using retry_trace_no_read, retry_trace_bodies,
      retry_trace_calls_bound.
    destruct (Z.to_nat n) as [|m] eqn:Hm; [lia |].
    destruct (retry_trace_starts _ _ _ _ _ _ Htr) as (r & res & rest & ->).
    simpl. lia.
Qed.

End RetryProperties.

(** *** The retry transport on concrete stubs *)

Lemma RoundTrip_nonpositive_maxRetry_witness :
  -1 ≤ 0 ∧
  RoundTrip (RetriableTransport (-1) (observe (scripted [answered 200])))
    post_payload world0 = (Some (None, None), world0).
Proof.
  split; [lia |].
  apply (RoundTrip_nonpositive_maxRetry (observe (scripted [answered 200])) (-1)).
  lia.
Defined.

(** C1 as stated fails: with two attempts allowed and a wrapped transport
    that fails once and then answers 200, the error of the first attempt
    is followed by a second attempt, and the call returns the 200. *)
Lemma RoundTrip_error_is_retried : ¬ error_ends_the_call.
Proof.
  intros H.
  destruct (H nat (scripted [refused; answered 200]) 2 post_payload world0
              _ _ _ [] _ _ _ eq_refl eq_refl eq_refl) as [Hpost _].
  discriminate Hpost.
Qed.

Example RoundTrip_error_then_200 :
  let run := RoundTrip (RetriableTransport 2 (observe (scripted [refused; answered 200])))
               post_payload world0 in
  run.1 = Some (answered 200) ∧
  (calls (events run.2)).*2 = [refused; answered 200] ∧
  (∀ d, EvSleep d ∉ events run.2).
Proof.
  vm_compute. split_and!; [done | done |].
  intros d Hd. repeat (apply elem_of_cons in Hd as [Hd|Hd]; [discriminate Hd |]).
  by apply elem_of_nil in Hd.
Qed.

Lemma RoundTrip_retry_policy_witness :
  ∃ out w',
    RoundTrip (RetriableTransport 3 (observe (scripted [refused; answered 503; answered 200])))
      post_payload world0 = (out, w') ∧
    ∃ pre evs saved,
      events w' = events world0 ++ pre ++ evs ∧ calls pre = [] ∧
      (length (calls evs) ≤ Z.to_nat 3)%nat ∧
      (retry_trace saved (Z.to_nat 3) None None evs out ∨
       evs = [] ∧ ∃ data e, pre = [EvRead data (Some e)] ∧
                            out = Some (None, Some (withStack e))) ∧
      (∀ i r res e,
         evs !! i = Some (EvRoundTrip r (res, Some e)) →
         (length (calls (take (S i) evs)) < Z.to_nat 3)%nat →
         ∃ r' res', evs !! S i = Some (EvRoundTrip r' res')).
Proof.
  eexists _, _. split; [cbv; reflexivity |].
  apply (RoundTrip_retry_policy (scripted [refused; answered 503; answered 200])
           3 post_payload world0).
  cbv; reflexivity.
Defined.

Lemma RoundTrip_exhausted_witness :
  ∃ out w' evs r_last,
    RoundTrip (RetriableTransport 2 (observe (scripted [refused; answered 503])))
      post_payload world0 = (out, w') ∧
    events w' = events world0 ++ evs ∧
    length (calls evs) = Z.to_nat 2 ∧
    last (calls evs) = Some (r_last, answered 503) ∧
    (∀ r, Some (status_response 503) = Some r → out = Some (Some r, None)) ∧
    (∀ e, Some (status_response 503) = None → @None error = Some e →
          out = Some (None, Some (withStack e)) ∧ Cause (withStack e) = Cause e).
Proof.
  eexists _, _, _, _.
  split; [cbv; reflexivity |]. split; [cbv; reflexivity |].
  split; [reflexivity |]. split; [reflexivity |].
  eapply (RoundTrip_exhausted (scripted [refused; answered 503]) 2 post_payload world0);
    cbv; reflexivity.
Defined.

Example RoundTrip_exhausted_on_503 :
  (RoundTrip (RetriableTransport 2 (observe (scripted [answered 503; answered 503])))
     post_payload world0).1 = Some (answered 503).
Proof. reflexivity. Qed.

Example RoundTrip_exhausted_on_error :
  (RoundTrip (RetriableTransport 2 (observe (scripted [answered 503; refused])))
     post_payload world0).1
  = Some (None, Some (withStack (errorString "connection refused"))).
Proof. reflexivity. Qed.

Lemma RoundTrip_replays_saved_body_witness :
  let run := RoundTrip (RetriableTransport 3
                          (observe (scripted [answered 503; answered 503; answered 200])))
               post_payload world0 in
  0 < 3 ∧
  Body post_payload = Some (NopCloser (bytes_of "payload")) ∧
  run.1 = Some (answered 200) ∧
  length (calls (events run.2)) = 3%nat ∧
  ∃ evs,
    events run.2 = events world0 ++ EvRead (bytes_of "payload") None :: evs ∧
    (∀ data e, EvRead data e ∉ evs) ∧
    Forall (λ c, Body c.1 = Some (NopCloser (bytes_of "payload"))) (calls evs) ∧
    retry_trace (bytes_of "payload") (Z.to_nat 3) None None evs run.1 ∧
    (1 ≤ length (calls evs) ≤ Z.to_nat 3)%nat.
Proof.
  intros run.
  split; [lia |]. split; [reflexivity |]. split; [vm_compute; reflexivity |].
  split; [vm_compute; reflexivity |].
  apply (RoundTrip_replays_saved_body
           (scripted [answered 503; answered 503; answered 200]) 3
           post_payload (NopCloser (bytes_of "payload")) world0 run.1 run.2);
    [lia | reflexivity | apply surjective_pairing].
Defined.

(** The scenario of the specification: 503, 503, then 200 with
    [maxRetry = 3] and the body ["payload"]. *)
Example RoundTrip_503_503_200 :
  let run := RoundTrip (RetriableTransport 3
                          (observe (scripted [answered 503; answered 503; answered 200])))
               post_payload world0 in
  run.1 = Some (answered 200) ∧
  map (λ c, pending <$> Body c.1) (calls (events run.2))
  = [Some (bytes_of "payload"); Some (bytes_of "payload"); Some (bytes_of "payload")] ∧
  reads (events run.2) = [(bytes_of "payload", None)].
Proof. vm_compute. done. Qed.

(** ** The middleware stack *)

Section StackProperties.

Context {St : Type}.
Implicit Types (base next : RoundTripper St) (w : World St).

Lemma WrapTransport_final_step next req w :
  WrapTransport next [] req w = (final_step (next req w).1, (next req w).2).
Proof.
  unfold WrapTransport, bind; simpl.
  destruct (next req w) as [[[resp [e|]]|] w']; reflexivity.
Qed.

(** [WrapTransport] applies the wrappers in the order of the list: the
    last of the list ends up outermost. *)
Lemma WrapTransport_nest base (wrappers : list (TransportWrapper St)) req w :
  WrapTransport base wrappers req w
  = WrapTransport (nest (reverse wrappers) base) [] req w.
Proof.
  assert (∀ ws b, nest (reverse ws) b = foldl (λ next wrapper, wrapper next) b ws) as Hfold.
  { induction ws as [|x ws IH]; intros b; [done |].
    unfold nest in *. rewrite reverse_cons, foldr_app. simpl. apply IH. }
  unfold WrapTransport; simpl. by rewrite Hfold.
Qed.

(** C2 (amended). [WrapTransport] applied to a base and the sequence
    [A, B, C] makes C, the last applied, the outermost: the composed
    transport runs C(B(A(base))) and then its own final step, which drops
    the response when the error is not nil. When C(B(A(base))) returns a
    response or an error but not both, the composed transport returns
    exactly what C(B(A(base))) returns. *)
Theorem WrapTransport_last_applied_outermost base (A B C : TransportWrapper St)
    req w out w' :
  C (B (A base)) req w = (out, w') →
  WrapTransport base [A; B; C] req w = (final_step out, w') ∧
  (response_or_error out → WrapTransport base [A; B; C] req w = (out, w')).
Proof.
  intros Hrun.
  assert (WrapTransport base [A; B; C] req w = (final_step out, w')) as Heq.
  { rewrite WrapTransport_nest, WrapTransport_final_step. simpl. by rewrite Hrun. }
  split; [done |].
  intros Hok. rewrite Heq. f_equal.
  by destruct out as [[[r|] [e|]]|].
Qed.

End StackProperties.

(** C2 as stated fails: with A and C adding a value each to the same
    header, the wire sees C's value first under [WrapTransport] and A's
    value first under A(B(C(base))). *)
Lemma WrapTransport_first_is_innermost : ¬ first_wrapper_outermost.
Proof.
  intros H.
  specialize (H nat (observe (scripted [answered 200]))
                (HeaderTransport "X-Order" "A") JsonTransport
                (HeaderTransport "X-Order" "C") post_payload world0).
  vm_compute in H. discriminate H.
Qed.

Example WrapTransport_header_order :
  let seen t := (λ c, ReqHeader c.1 !! "X-Order") <$> calls (events (t post_payload world0).2) in
  let base := observe (scripted [answered 200]) in
  let A := HeaderTransport "X-Order" "A" in
  let C := HeaderTransport "X-Order" "C" in
  seen (WrapTransport base [A; JsonTransport; C]) = [Some ["C"; "A"]] ∧
  seen (C (JsonTransport (A base))) = [Some ["C"; "A"]] ∧
  seen (A (JsonTransport (C base))) = [Some ["A"; "C"]].
Proof. vm_compute. done. Qed.

Lemma WrapTransport_last_applied_outermost_witness :
  let base := observe (scripted [answered 200]) in
  let A := StatusCodesTransport [200] in
  let B := @JsonTransport nat in
  let C := LoggingTransport true true in
  let run := C (B (A base)) post_payload world0 in
  C (B (A base)) post_payload world0 = (run.1, run.2) ∧
  response_or_error run.1 ∧
  WrapTransport base [A; B; C] post_payload world0 = (final_step run.1, run.2) ∧
  (response_or_error run.1 →
   WrapTransport base [A; B; C] post_payload world0 = (run.1, run.2)).
Proof.
  intros base A B C run.
  split; [apply surjective_pairing |]. split; [vm_compute; exact I |].
  apply (WrapTransport_last_applied_outermost base A B C post_payload world0).
  apply surjective_pairing.
Defined.

(** ** The default stack of the builder *)

Section DefaultStackProperties.

Context {St Obj : Type}.
Variable defaultTransport insecureTransport : RoundTripper St.
Variable os_Args0 : string.
Variable otelhttp_NewTransport : RoundTripper St → string → RoundTripper St.

Local Abbreviation BuildTransport :=
  (Builder.BuildTransport defaultTransport insecureTransport os_Args0 otelhttp_NewTransport).
Local Abbreviation layers := (instrumentation os_Args0 otelhttp_NewTransport).
Local Abbreviation bottom := (base_of defaultTransport insecureTransport).

(** What a call through the timeout wrapper is: the context is derived,
    the wrapped transport runs with it, the context is cancelled. *)
Lemma TimeoutTransport_bracket (d : Z) (next : RoundTripper St) req w :
  let d' := if d <=? 0 then defaultTransprtTimeout else d in
  ∃ ctx' w0,
    context_WithTimeout (Ctx req) d' w = (Some ctx', w0) ∧
    events w0 = events w ++ [EvWithTimeout d'] ∧
    TimeoutTransport d next req w
    = ((next (set_Ctx ctx' req) w0).1, (emit EvCancel (next (set_Ctx ctx' req) w0).2).2).
Proof.
  intros d'. eexists _, _. split; [reflexivity |]. split; [reflexivity |].
  unfold TimeoutTransport, defer, bind. fold d'. simpl.
  by destruct (next _ _) as [out w1].
Qed.

Lemma BuildTransport_returns ctx (h : Builder.Heap St Obj) b B :
  Builder.builders h !! b = Some B →
  Builder.err B = None →
  ∃ t, BuildTransport ctx b h = Some (inl t, h).
Proof.
  intros HB Herr.
  unfold Builder.BuildTransport, Builder.hbind, Builder.deref, Builder.hret.
  rewrite HB, Herr. by eexists.
Qed.

(** C3 (amended). In the stack that [BuildTransport] assembles, the
    timeout wrapper is outermost: a call derives the context with the
    deadline, runs every other layer and the transport with it, and
    cancels it. The validation of the status code is innermost: it wraps
    the base transport itself, so it checks the response as the wire
    returned it, before the logging and tracing layers have it in hand;
    these layers get what the validation returns. *)
Theorem BuildTransport_stack ctx (h : Builder.Heap St Obj) b B :
  Builder.builders h !! b = Some B →
  Builder.err B = None →
  ∃ t,
    BuildTransport ctx b h = Some (inl t, h) ∧
    ∀ req w,
      let validated := StatusCodesTransport (expected_of B) (bottom B) in
      let rest := layers B validated in
      let d := if Builder.timeout B <=? 0 then defaultTransprtTimeout else Builder.timeout B in
      t req w = WrapTransport (TimeoutTransport (Builder.timeout B) rest) [] req w ∧
      ∃ ctx' w0,
        context_WithTimeout (Ctx req) d w = (Some ctx', w0) ∧
        events w0 = events w ++ [EvWithTimeout d] ∧
        t req w = (final_step (rest (set_Ctx ctx' req) w0).1,
                   (emit EvCancel (rest (set_Ctx ctx' req) w0).2).2).
Proof.
  intros HB Herr.
  unfold Builder.BuildTransport, Builder.hbind, Builder.deref, Builder.hret.
  rewrite HB, Herr. eexists. split; [reflexivity |].
  intros req w.
  set (rest := layers B (StatusCodesTransport (expected_of B) (bottom B))).
  set (lhs := WrapTransport _ _ req w).
  assert (lhs = WrapTransport (TimeoutTransport (Builder.timeout B) rest) [] req w) as Heq.
  { subst lhs rest. rewrite WrapTransport_nest.
    unfold instrumentation, expected_of, base_of.
    destruct (Builder.tracing B),
      (String.eqb (Builder.contentType B) "" || String.eqb (Builder.contentType B) ContentTypeJson),
      (Builder.expectedStatusCodes B); reflexivity. }
  split; [done |].
  rewrite Heq, WrapTransport_final_step.
  destruct (TimeoutTransport_bracket (Builder.timeout B) rest req w) as (ctx' & w0 & H1 & H2 & H3).
  exists ctx', w0. split; [done |]. split; [done |].
  by rewrite H3.
Qed.

End DefaultStackProperties.

(** *** The default stack on a stub that answers 404 *)

Ltac elem_cases H :=
  repeat (apply elem_of_cons in H as [H|H]; [try discriminate H |]);
  try (by apply elem_of_nil in H).

Example builder_404_stack :
  match builder_404 with
  | Some (b, h) =>
      match Builder.BuildTransport (observe (scripted [])) (observe (scripted []))
              "httpx.test" no_tracing background b h with
      | Some (inl t, _) =>
          let run := t post_payload world0 in
          run.1 = Some (None, Some (errorString "expected statuscodes:[200],got:404")) ∧
          omap (λ e, match e with EvSlog msg kvs => Some (msg, kvs.*1) | _ => None end)
               (events run.2)
          = [("send http req", ["http_method"; "http_url"; "traceID"; "spanID"; "req_data"]);
             ("got http resp", ["http_method"; "http_url"; "traceID"; "spanID"; "req_data"])] ∧
          head (events run.2) = Some (EvWithTimeout (Second * 10)) ∧
          last (events run.2) = Some EvCancel
      | _ => False
      end
  | None => False
  end.
Proof. vm_compute. done. Qed.

(** C3 as stated fails: the validation of the status code is the first
    layer to see the response of the wire, not the last. When the wire
    answers 404 and 200 is expected, the validation turns the response
    into an error, and the record of the logging layer has no status
    code: the logging layer never had the response in hand. *)
Lemma validation_precedes_instrumentation : ¬ validation_after_instrumentation.
Proof.
  intros H.
  pose (run := transport_404 post_payload world0).
  pose (wire_req := (default (post_payload, (None, None)) (head (calls (events run.2)))).1).
  destruct (H nat unit (observe (scripted [])) (observe (scripted [])) "httpx.test"
              no_tracing background heap_404 heap_404 b_404 struct_404
              (scripted [answered 404]) transport_404
              post_payload wire_req world0 run.2 run.1 (status_response 404))
    as (kvs & Hin & Hkv).
  - vm_compute; reflexivity.
  - vm_compute; reflexivity.
  - destruct (BuildTransport_returns (observe (scripted [])) (observe (scripted []))
                "httpx.test" no_tracing background heap_404 b_404 struct_404) as [t Ht];
      [vm_compute; reflexivity | vm_compute; reflexivity |].
    unfold transport_404. by rewrite Ht.
  - reflexivity.
  - apply surjective_pairing.
  - vm_compute; reflexivity.
  - vm_compute in Hin. elem_cases Hin.
    injection Hin as ->. clear -Hkv. elem_cases Hkv.
Qed.

Lemma BuildTransport_stack_witness :
  Builder.builders heap_404 !! b_404 = Some struct_404 ∧
  Builder.err struct_404 = None ∧
  ∃ t,
    Builder.BuildTransport (observe (scripted [])) (observe (scripted []))
      "httpx.test" no_tracing background b_404 heap_404 = Some (inl t, heap_404) ∧
    ∀ req w,
      let validated := StatusCodesTransport (expected_of struct_404)
                         (base_of (observe (scripted [])) (observe (scripted [])) struct_404) in
      let rest := instrumentation "httpx.test" no_tracing struct_404 validated in
      let d := if Builder.timeout struct_404 <=? 0
               then defaultTransprtTimeout else Builder.timeout struct_404 in
      t req w = WrapTransport (TimeoutTransport (Builder.timeout struct_404) rest) [] req w ∧
      ∃ ctx' w0,
        context_WithTimeout (Ctx req) d w = (Some ctx', w0) ∧
        events w0 = events w ++ [EvWithTimeout d] ∧
        t req w = (final_step (rest (set_Ctx ctx' req) w0).1,
                   (emit EvCancel (rest (set_Ctx ctx' req) w0).2).2).
Proof.
  split; [vm_compute; reflexivity |]. split; [vm_compute; reflexivity |].
  apply (BuildTransport_stack (observe (scripted [])) (observe (scripted []))
           "httpx.test" no_tracing background heap_404 b_404 struct_404);
    vm_compute; reflexivity.
Defined.

(** ** The status-envelope codec *)

Section StatusCodecProperties.

Context {Obj : Type}.
Variable json_Decode : ReadCloser → statusResp Obj → statusResp Obj * option error.

(** A failure of the JSON decoder is the result of [Decode]. *)
Lemma StatusJsonCodec_Decode_json_error r obj resp e :
  json_Decode r {| Code := 0; Msg := ""; Data := obj |} = (resp, Some e) →
  StatusJsonCodec_Decode json_Decode r obj = (Data resp, Some e).
Proof. intros Hjson. unfold StatusJsonCodec_Decode. by rewrite Hjson. Qed.


End StatusCodecProperties.


(** ** Ranging over a map into another *)

Section RangeProperties.

Implicit Types (m dst src : gmap string (list string)) (kvs : list (string * list string)).

Lemma range_into_cons add k0 (vs0 : list string) kvs dst :
  range_into add ((k0, vs0) :: kvs) dst
  = range_into add kvs (foldl (λ d value, add k0 value d) dst vs0).
Proof. reflexivity. Qed.

Lemma Values_Add_lookup k0 v dst k :
  Values_Add k0 v dst !! k
  = if decide (k = k0) then Some (default [] (dst !! k0) ++ [v]) else dst !! k.
Proof.
  unfold Values_Add. destruct (decide (k = k0)) as [->|Hne].
  - by rewrite lookup_insert_eq.
  - by rewrite lookup_insert_ne.
Qed.

Lemma foldl_Values_Add_lookup k0 (vs : list string) dst k :
  default [] (foldl (λ d v, Values_Add k0 v d) dst vs !! k)
  = default [] (dst !! k) ++ (if decide (k = k0) then vs else []).
Proof.
  revert dst. induction vs as [|v vs IH]; intros dst; simpl.
  - destruct (decide (k = k0)); by rewrite app_nil_r.
  - rewrite IH, Values_Add_lookup.
    destruct (decide (k = k0)) as [->|Hne]; simpl; [by rewrite <- app_assoc | done].
Qed.

Lemma foldl_Values_Add_no_empty k0 (vs : list string) dst :
  Builder.no_empty_values dst →
  Builder.no_empty_values (foldl (λ d v, Values_Add k0 v d) dst vs).
Proof.
  revert dst. induction vs as [|v vs IH]; intros dst Hdst; simpl; [done |].
  apply IH. intros k. rewrite Values_Add_lookup.
  destruct (decide (k = k0)); [| apply Hdst].
  intros [=Heq]. by destruct (default [] (dst !! k0)).
Qed.

Lemma range_into_Values_Add_no_empty kvs dst :
  Builder.no_empty_values dst →
  Builder.no_empty_values (range_into Values_Add kvs dst).
Proof.
  revert dst. induction kvs as [|[k0 vs0] kvs IH]; intros dst Hdst; [done |].
  rewrite range_into_cons. apply IH. by apply foldl_Values_Add_no_empty.
Qed.

(** Whatever the order in which the keys are visited, the values of the
    source come, key by key, after those the destination holds. *)
Lemma range_into_Values_Add_lookup kvs dst k :
  NoDup kvs.*1 →
  default [] (range_into Values_Add kvs dst !! k)
  = default [] (dst !! k) ++ default [] ((list_to_map kvs : gmap string (list string)) !! k).
Proof.
  revert dst. induction kvs as [|[k0 vs0] kvs IH]; intros dst Hnd.
  - simpl. by rewrite lookup_empty, app_nil_r.
  - apply NoDup_cons in Hnd as [Hk0 Hnd].
    rewrite range_into_cons, (IH _ Hnd), foldl_Values_Add_lookup. simpl.
    destruct (decide (k = k0)) as [->|Hne].
    + rewrite lookup_insert_eq.
      rewrite (not_elem_of_list_to_map_1 (M := gmap string) kvs k0 Hk0). simpl.
      by rewrite app_nil_r.
    + rewrite lookup_insert_ne by done. by rewrite app_nil_r.
Qed.

Lemma range_into_Values_Add_map src dst k :
  default [] (range_into Values_Add (map_to_list src) dst !! k)
  = default [] (dst !! k) ++ default [] (src !! k).
Proof.
  rewrite range_into_Values_Add_lookup by apply NoDup_fst_map_to_list.
  by rewrite list_to_map_to_list.
Qed.

(** The order of the visit does not matter. *)
Lemma range_into_Values_Add_order kvs kvs' dst :
  kvs ≡ₚ kvs' → NoDup kvs.*1 → Builder.no_empty_values dst →
  range_into Values_Add kvs dst = range_into Values_Add kvs' dst.
Proof.
  intros Hperm Hnd Hdst.
  assert (NoDup kvs'.*1) as Hnd' by (by rewrite <- Hperm).
  assert (∀ k, default [] (range_into Values_Add kvs dst !! k)
               = default [] (range_into Values_Add kvs' dst !! k)) as Hdef.
  { intros k. rewrite !range_into_Values_Add_lookup by done.
    by rewrite (list_to_map_proper (M := gmap string) kvs kvs' Hnd Hperm). }
  apply map_eq. intros k. specialize (Hdef k).
  pose proof (range_into_Values_Add_no_empty kvs dst Hdst k) as H1.
  pose proof (range_into_Values_Add_no_empty kvs' dst Hdst k) as H2.
  destruct (range_into Values_Add kvs dst !! k) as [[|x xs]|],
           (range_into Values_Add kvs' dst !! k) as [[|y ys]|];
    simpl in *; congruence.
Qed.

End RangeProperties.

Section HeaderSetProperties.

Implicit Types (dst : gmap string (list string)) (kvs : list (string * list string)).

Lemma Header_Set_lookup k0 v dst k :
  Header_Set k0 v dst !! k
  = if decide (k = CanonicalMIMEHeaderKey k0) then Some [v] else dst !! k.
Proof.
  unfold Header_Set. destruct (decide (k = CanonicalMIMEHeaderKey k0)) as [->|Hne].
  - by rewrite lookup_insert_eq.
  - by rewrite lookup_insert_ne.
Qed.

(** Setting the values of a key one after the other leaves the last. *)
Lemma foldl_Header_Set_lookup k0 (vs : list string) dst k :
  foldl (λ d v, Header_Set k0 v d) dst vs !! k
  = if decide (k = CanonicalMIMEHeaderKey k0)
    then match last vs with
         | Some v => Some [v]
         | None => dst !! k
         end
    else dst !! k.
Proof.
  revert dst. induction vs as [|v vs IH]; intros dst.
  - simpl. by destruct (decide _).
  - change (foldl (λ d v, Header_Set k0 v d) dst (v :: vs))
      with (foldl (λ d v, Header_Set k0 v d) (Header_Set k0 v dst) vs).
    rewrite IH, Header_Set_lookup.
    destruct (decide (k = CanonicalMIMEHeaderKey k0)) as [->|Hne]; [| done].
    destruct vs as [|v' vs]; [done |].
    rewrite last_cons_cons.
    destruct (last (v' :: vs)) eqn:Hl; [done |]. by apply last_None in Hl.
Qed.

Lemma range_into_Header_Set_lookup kvs dst k :
  NoDup kvs.*1 →
  (∀ k0, k0 ∈ kvs.*1 → CanonicalMIMEHeaderKey k0 = k0) →
  range_into Header_Set kvs dst !! k
  = match (list_to_map kvs : gmap string (list string)) !! k with
    | Some vs => match last vs with
                 | Some v => Some [v]
                 | None => dst !! k
                 end
    | None => dst !! k
    end.
Proof.
  revert dst. induction kvs as [|[k0 vs0] kvs IH]; intros dst Hnd Hcanon.
  - simpl. by rewrite lookup_empty.
  - apply NoDup_cons in Hnd as [Hk0 Hnd].
    rewrite range_into_cons, (IH _ Hnd), !foldl_Header_Set_lookup; simpl.
    2: { intros k1 Hk1. apply Hcanon. simpl. by right. }
    rewrite (Hcanon k0) by (simpl; left).
    destruct (decide (k = k0)) as [->|Hne].
    + rewrite lookup_insert_eq.
      by rewrite (not_elem_of_list_to_map_1 (M := gmap string) kvs k0 Hk0).
    + rewrite lookup_insert_ne by done.
      by destruct (list_to_map kvs !! k) as [vs|]; [destruct (last vs) |].
Qed.

Lemma range_into_Header_Set_map (hd : gmap string (list string)) dst k :
  Builder.canonical_keys hd →
  range_into Header_Set (map_to_list hd) dst !! k
  = match hd !! k with
    | Some vs => match last vs with
                 | Some v => Some [v]
                 | None => dst !! k
                 end
    | None => dst !! k
    end.
Proof.
  intros Hcanon.
  rewrite range_into_Header_Set_lookup.
  - by rewrite list_to_map_to_list.
  - apply NoDup_fst_map_to_list.
  - intros k0 Hk0. apply Hcanon.
    apply list_elem_of_fmap in Hk0 as [[k1 vs] [-> Hin]].
    apply elem_of_map_to_list in Hin. by eexists.
Qed.

End HeaderSetProperties.

(** ** Canonical header keys *)

Section CanonicalKeys.

Lemma canonical_byte_valid (u : bool) (c : ascii) :
  validHeaderFieldByte c = true → validHeaderFieldByte (canonical_byte u c) = true.
Proof. destruct u, c as [[] [] [] [] [] [] [] []]; vm_compute; done. Qed.

Lemma canonical_byte_idem (u : bool) (c : ascii) :
  canonical_byte u (canonical_byte u c) = canonical_byte u c.
Proof. destruct u, c as [[] [] [] [] [] [] [] []]; vm_compute; done. Qed.

Lemma canonical_case_idem (u : bool) (s : string) :
  canonical_case u (canonical_case u s) = canonical_case u s.
Proof.
  revert u. induction s as [|c s IH]; intros u; simpl; [done |].
  by rewrite canonical_byte_idem, IH.
Qed.

Lemma canonical_case_valid (u : bool) (s : string) :
  forallb validHeaderFieldByte (list_ascii_of_string s) = true →
  forallb validHeaderFieldByte (list_ascii_of_string (canonical_case u s)) = true.
Proof.
  revert u. induction s as [|c s IH]; intros u; simpl; [done |].
  rewrite !andb_true_iff. intros [Hc Hs].
  split; [by apply canonical_byte_valid | by apply IH].
Qed.

(** Canonical form is a fixed point of [CanonicalMIMEHeaderKey]. *)
Lemma CanonicalMIMEHeaderKey_idem (s : string) :
  CanonicalMIMEHeaderKey (CanonicalMIMEHeaderKey s) = CanonicalMIMEHeaderKey s.
Proof.
  unfold CanonicalMIMEHeaderKey.
  destruct (forallb validHeaderFieldByte (list_ascii_of_string s)) eqn:Hvalid.
  - by rewrite canonical_case_valid, canonical_case_idem.
  - by rewrite Hvalid.
Qed.

Lemma canonical_keys_empty : Builder.canonical_keys ∅.
Proof. intros k [x Hk]. by rewrite lookup_empty in Hk. Qed.

Lemma Header_Add_canonical key value (m : gmap string (list string)) :
  Builder.canonical_keys m → Builder.canonical_keys (Header_Add key value m).
Proof.
  intros Hm k. unfold Header_Add. rewrite Values_Add_lookup.
  destruct (decide (k = CanonicalMIMEHeaderKey key)) as [->|Hne]; [| apply Hm].
  intros _. apply CanonicalMIMEHeaderKey_idem.
Qed.

Lemma Header_Set_canonical key value (m : gmap string (list string)) :
  Builder.canonical_keys m → Builder.canonical_keys (Header_Set key value m).
Proof.
  intros Hm k. rewrite Header_Set_lookup.
  destruct (decide (k = CanonicalMIMEHeaderKey key)) as [->|Hne]; [| apply Hm].
  intros _. apply CanonicalMIMEHeaderKey_idem.
Qed.

Lemma range_into_Header_Add_canonical kvs (m : gmap string (list string)) :
  Builder.canonical_keys m → Builder.canonical_keys (range_into Header_Add kvs m).
Proof.
  revert m. induction kvs as [|[k0 vs0] kvs IH]; intros m Hm; [done |].
  rewrite range_into_cons. apply IH. clear IH.
  revert m Hm. induction vs0 as [|v vs0 IH]; intros m Hm; [done |].
  simpl. by apply IH, Header_Add_canonical.
Qed.

End CanonicalKeys.

(** ** The request a builder materialises *)

Section BuildHTTPReqProperties.

Context {St Obj : Type}.
Variable url_Parse : string → Builder.url_URL + error.
Variable url_ParseQuery : string → gmap string (list string).
Variable url_Encode : gmap string (list string) → string.
Variable url_String : Builder.url_URL → string.
Variable http_NewRequest_err : string → string → option error.

Local Abbreviation BuildHTTPReq :=
  (@Builder.BuildHTTPReq St Obj url_Parse url_ParseQuery url_Encode url_String
     http_NewRequest_err).

Implicit Types (h : Builder.Heap St Obj) (B : Builder.builder St Obj).

(** What a successful [BuildHTTPReq] has gone through. *)
Lemma BuildHTTPReq_inv ctx h b B httpReq h' :
  Builder.builders h !! b = Some B →
  BuildHTTPReq ctx b h = Some (inl httpReq, h') →
  ∃ urlObj Q2 hd,
    url_Parse (Builder.baseURL B +:+ Builder.path B) = inl urlObj ∧
    Builder.maps h !! Builder.urlValues B = Some Q2 ∧
    Builder.maps h !! Builder.header B = Some hd ∧
    h' = h ∧
    (let merged :=
       range_into Values_Add
         (map_to_list (url_ParseQuery (Builder.RawQuery urlObj)))
         (range_into Values_Add (map_to_list Q2) ∅) in
     URL httpReq
     = url_String (if bool_decide (size merged ≠ 0%nat)
                   then {| Builder.RawQuery := url_Encode merged;
                           Builder.Rest := Builder.Rest urlObj |}
                   else urlObj)) ∧
    (let headers := range_into Header_Set (map_to_list hd) ∅ in
     ReqHeader httpReq
     = if String.eqb (Header_Get ContentTypeKey headers) ""
       then Header_Set ContentTypeKey
              (if String.eqb (Builder.contentType B) "" then ContentTypeJson
               else Builder.contentType B) headers
       else headers).
Proof.
  intros HB Hrun.
  unfold Builder.BuildHTTPReq, Builder.hbind, Builder.deref, Builder.load_map,
    Builder.hret in Hrun.
  rewrite HB in Hrun.
  destruct (Builder.err B); [by injection Hrun |].
  destruct (url_Parse _) as [urlObj|e] eqn:Hparse; [| by injection Hrun].
  destruct (Builder.maps h !! Builder.urlValues B) as [Q2|] eqn:HQ2; [| done].
  exists urlObj, Q2.
  destruct (match Builder.req B with Some _ => _ | None => _ end) as [body|e];
    [| by injection Hrun].
  destruct (http_NewRequest_err _ _); [by injection Hrun |].
  destruct (Builder.maps h !! Builder.header B) as [hd|] eqn:Hhd; [| done].
  exists hd. injection Hrun as <- <-. by split_and!.
Qed.

(** C5. The request that [BuildHTTPReq] builds has, as its query, the
    encoding of the union of the parameters of the builder (Q2) and of
    those of the query string of the path (Q1): key by key, the values of
    the builder followed by the values of the path, none of them
    dropped. *)
Theorem BuildHTTPReq_merges_query ctx h b B Q2 httpReq h' :
  Builder.builders h !! b = Some B →
  Builder.maps h !! Builder.urlValues B = Some Q2 →
  BuildHTTPReq ctx b h = Some (inl httpReq, h') →
  ∃ urlObj merged,
    url_Parse (Builder.baseURL B +:+ Builder.path B) = inl urlObj ∧
    (∀ k, default [] (merged !! k)
          = default [] (Q2 !! k)
            ++ default [] (url_ParseQuery (Builder.RawQuery urlObj) !! k)) ∧
    Builder.no_empty_values merged ∧
    URL httpReq
    = url_String (if bool_decide (size merged ≠ 0%nat)
                  then {| Builder.RawQuery := url_Encode merged;
                          Builder.Rest := Builder.Rest urlObj |}
                  else urlObj).
Proof.
  intros HB HQ2 Hrun.
  destruct (BuildHTTPReq_inv _ _ _ _ _ _ HB Hrun)
    as (urlObj & Q2' & hd & Hparse & HQ2' & _ & _ & Hurl & _).
  rewrite HQ2 in HQ2'. injection HQ2' as <-.
  eexists urlObj, _. split; [done |]. split; [| split; [| exact Hurl]].
  - intros k. rewrite !range_into_Values_Add_map. by rewrite lookup_empty.
  - apply range_into_Values_Add_no_empty, range_into_Values_Add_no_empty.
    intros k. by rewrite lookup_empty.
Qed.

(** C9 (amended). When the header map of the builder holds one or more
    values for a key K, the request that [BuildHTTPReq] builds has
    exactly one value for K, the last of the builder's list; the earlier
    values are dropped. This holds for every key but [Content-Type] and,
    for [Content-Type], when that last value is not the empty string. *)
Theorem BuildHTTPReq_keeps_last_header ctx h b B hd K vs v httpReq h' :
  Builder.builders h !! b = Some B →
  Builder.maps h !! Builder.header B = Some hd →
  Builder.canonical_keys hd →
  hd !! K = Some vs →
  last vs = Some v →
  K ≠ ContentTypeKey ∨ v ≠ "" →
  BuildHTTPReq ctx b h = Some (inl httpReq, h') →
  ReqHeader httpReq !! K = Some [v].
Proof.
  intros HB Hhd Hcanon HK Hlast Hside Hrun.
  destruct (BuildHTTPReq_inv _ _ _ _ _ _ HB Hrun)
    as (urlObj & Q2 & hd' & _ & _ & Hhd' & _ & _ & Hheaders).
  rewrite Hhd in Hhd'. injection Hhd' as <-.
  simpl in Hheaders. rewrite Hheaders.
  assert (range_into Header_Set (map_to_list hd) ∅ !! K = Some [v]) as Hset.
  { rewrite range_into_Header_Set_map by done. by rewrite HK, Hlast. }
  destruct (String.eqb_spec (Header_Get ContentTypeKey (range_into Header_Set (map_to_list hd) ∅)) "")
    as [Hget|Hget]; [| done].
  rewrite Header_Set_lookup.
  destruct (decide (K = CanonicalMIMEHeaderKey ContentTypeKey)) as [->|Hne]; [| done].
  exfalso. unfold Header_Get in Hget. rewrite Hset in Hget. simpl in Hget.
  destruct Hside as [Hside|Hside]; [by apply Hside | by apply Hside].
Qed.

End BuildHTTPReqProperties.

(** ** The chaining methods never touch their receiver *)

Section ChainingProperties.

Context {St Obj : Type}.
Variable query_Values : Obj → gmap string (list string) * option error.
Variable base64_EncodeToString : string → string.

Local Abbreviation call := (@Builder.call St Obj query_Values base64_EncodeToString).

Implicit Types (h : Builder.Heap St Obj) (B NB : Builder.builder St Obj)
  (set : Builder.loc → Builder.H St Obj unit).

(** [clone]: two new maps and one new struct; nothing else is written. *)
Lemma clone_spec h b B uv hd :
  Builder.builders h !! b = Some B →
  Builder.maps h !! Builder.urlValues B = Some uv →
  Builder.maps h !! Builder.header B = Some hd →
  ∃ b' l1 l2 uv' hd',
    Builder.builders h !! b' = None ∧
    Builder.maps h !! l1 = None ∧ Builder.maps h !! l2 = None ∧ l1 ≠ l2 ∧
    Builder.canonical_keys hd' ∧
    Builder.clone b h
    = Some (b', {| Builder.builders :=
                     <[b' := Builder.mkBuilder (Builder.path B) (Builder.method B)
                               (Builder.baseURL B) (Builder.codec B) (Builder.resp B)
                               (Builder.req B) l1 l2 (Builder.expectedStatusCodes B)
                               (Builder.loggingReq B) (Builder.loggingResp B)
                               (Builder.timeout B) (Builder.tracing B)
                               (Builder.contentType B) (Builder.insecure B)
                               (Builder.transport B) (Builder.err B)]>
                       (Builder.builders h);
                   Builder.maps := <[l2 := hd']> (<[l1 := uv']> (Builder.maps h)) |}).
Proof.
  intros HB Huv Hhd.
  set (l1 := fresh (dom (Builder.maps h))).
  set (maps1 := <[l1 := (∅ : gmap string (list string))]> (Builder.maps h)).
  set (l2 := fresh (dom (<[l1 := range_into Values_Add (map_to_list uv) ∅]> maps1))).
  assert (Builder.maps h !! l1 = None) as Hl1.
  { apply not_elem_of_dom, is_fresh. }
  assert (l2 ∉ dom (<[l1 := range_into Values_Add (map_to_list uv) ∅]> maps1)) as Hl2
    by apply is_fresh.
  rewrite dom_insert, not_elem_of_union, not_elem_of_singleton in Hl2.
  destruct Hl2 as [Hne Hl2]. unfold maps1 in Hl2.
  rewrite dom_insert, not_elem_of_union in Hl2. destruct Hl2 as [_ Hl2].
  apply not_elem_of_dom in Hl2.
  assert (Builder.urlValues B ≠ l1) as Hu1 by congruence.
  assert (Builder.header B ≠ l1) as Hh1 by congruence.
  assert (Builder.header B ≠ l2) as Hh2 by congruence.
  exists (fresh (dom (Builder.builders h))), l1, l2,
    (range_into Values_Add (map_to_list uv) ∅),
    (range_into Header_Add (map_to_list hd) ∅).
  split; [apply not_elem_of_dom, is_fresh |].
  split; [done |]. split; [done |]. split; [done |].
  split; [apply range_into_Header_Add_canonical, canonical_keys_empty |].
  unfold Builder.clone, Builder.hbind, Builder.deref, Builder.make_map,
    Builder.load_map, Builder.update_map, Builder.new_builder.
  rewrite HB. simpl. fold l1. fold maps1.
  unfold maps1 at 1. rewrite lookup_insert_ne by done. rewrite Huv. simpl.
  unfold maps1 at 1. rewrite lookup_insert_eq. simpl.
  fold l2.
  rewrite (lookup_insert_ne _ l2 (Builder.header B)) by done.
  rewrite (lookup_insert_ne _ l1 (Builder.header B)) by done.
  unfold maps1 at 1. rewrite (lookup_insert_ne _ l1 (Builder.header B)) by done.
  rewrite Hhd. simpl. rewrite lookup_insert_eq. simpl.
  unfold maps1. by rewrite !insert_insert_eq.
Qed.

Lemma touches_assign (f : Builder.builder St Obj → Builder.builder St Obj) :
  (∀ B, Builder.urlValues (f B) = Builder.urlValues B) →
  (∀ B, Builder.header (f B) = Builder.header B) →
  Builder.touches_only_new (λ nb, Builder.assign nb f).
Proof.
  intros Hfu Hfh h nb NB Hnb Hu Hh.
  exists {| Builder.builders := <[nb := f NB]> (Builder.builders h);
            Builder.maps := Builder.maps h |}, (f NB).
  unfold Builder.assign. rewrite Hnb. simpl.
  split_and!; try done.
  - by rewrite lookup_insert_eq.
  - intros l Hl. by rewrite lookup_insert_ne.
Qed.

Lemma touches_seq set1 set2 :
  Builder.touches_only_new set1 →
  Builder.touches_only_new set2 →
  Builder.touches_only_new (λ nb, Builder.hbind (set1 nb) (λ _, set2 nb)).
Proof.
  intros H1 H2 h nb NB Hnb Hu Hh.
  destruct (H1 h nb NB Hnb Hu Hh)
    as (h1 & NB1 & Hrun1 & Hnb1 & Hu1 & Hh1 & Hsu1 & Hsh1 & Hfb1 & Hfm1 & Hc1).
  rewrite <- Hu1 in Hsu1. rewrite <- Hh1 in Hsh1.
  destruct (H2 h1 nb NB1 Hnb1 Hsu1 Hsh1)
    as (h2 & NB2 & Hrun2 & Hnb2 & Hu2 & Hh2 & Hsu2 & Hsh2 & Hfb2 & Hfm2 & Hc2).
  exists h2, NB2. unfold Builder.hbind. rewrite Hrun1, Hrun2.
  rewrite Hu1 in *. rewrite Hh1 in *.
  split_and!; try done; try congruence.
  - intros l Hl. by rewrite Hfb2, Hfb1.
  - intros l Hlu Hlh. by rewrite Hfm2, Hfm1.
  - intros Hne Hcan. by apply Hc2, Hc1.
Qed.

Lemma touches_update_urlValues (g : gmap string (list string) → gmap string (list string)) :
  Builder.touches_only_new
    (λ nb, Builder.hbind (Builder.deref nb)
             (λ NB, Builder.update_map (Builder.urlValues NB) g)).
Proof.
  intros h nb NB Hnb [uv Hu] Hh.
  exists {| Builder.builders := Builder.builders h;
            Builder.maps := <[Builder.urlValues NB := g uv]> (Builder.maps h) |}, NB.
  unfold Builder.hbind, Builder.deref, Builder.update_map. rewrite Hnb, Hu. simpl.
  split_and!; try done.
  - by rewrite lookup_insert_eq.
  - rewrite lookup_insert. by case_decide.
  - intros l Hlu Hlh. by rewrite lookup_insert_ne.
  - intros Hne (hd & Hhd & Hcan). exists hd. simpl.
    by rewrite lookup_insert_ne.
Qed.

Lemma touches_update_header (g : gmap string (list string) → gmap string (list string)) :
  (∀ m, Builder.canonical_keys m → Builder.canonical_keys (g m)) →
  Builder.touches_only_new
    (λ nb, Builder.hbind (Builder.deref nb)
             (λ NB, Builder.update_map (Builder.header NB) g)).
Proof.
  intros Hg h nb NB Hnb Hu [hd Hh].
  exists {| Builder.builders := Builder.builders h;
            Builder.maps := <[Builder.header NB := g hd]> (Builder.maps h) |}, NB.
  unfold Builder.hbind, Builder.deref, Builder.update_map. rewrite Hnb, Hh. simpl.
  split_and!; try done.
  - rewrite lookup_insert. by case_decide.
  - by rewrite lookup_insert_eq.
  - intros l Hlu Hlh. by rewrite lookup_insert_ne.
  - intros Hne (hd' & Hhd' & Hcan). exists (g hd). simpl.
    rewrite lookup_insert_eq. split; [done |]. apply Hg.
    rewrite Hh in Hhd'. by injection Hhd' as <-.
Qed.

(** Every chaining method is the shared frame around statements that
    touch only the new struct and its maps. *)
Lemma call_is_chained (op : Builder.chain_op St Obj) :
  ∃ set, Builder.touches_only_new set ∧ ∀ b, call op b = Builder.chained b set.
Proof.
  destruct op; simpl;
    try (eexists; split; [| intros b; reflexivity];
         first [ apply touches_update_urlValues
               | apply touches_update_header;
                 first [ apply Header_Add_canonical
                       | apply Header_Set_canonical
                       | apply range_into_Header_Add_canonical ]
               | apply touches_seq; apply touches_assign; by intros []
               | apply touches_assign; by intros [] ]).
  unfold Builder.WithQueryStringObj.
  destruct (query_Values obj) as [values e].
  eexists; split; [| intros b; reflexivity].
  apply touches_seq; [apply touches_assign; by intros [] |].
  apply touches_update_urlValues.
Qed.

Lemma chained_spec set h b B uv hd :
  Builder.touches_only_new set →
  Builder.builders h !! b = Some B →
  Builder.maps h !! Builder.urlValues B = Some uv →
  Builder.maps h !! Builder.header B = Some hd →
  ∃ b' h' B',
    Builder.chained b set h = Some (b', h') ∧
    Builder.builders h !! b' = None ∧
    Builder.builders h' !! b' = Some B' ∧
    Builder.unchanged h h' ∧
    Builder.maps h !! Builder.urlValues B' = None ∧
    Builder.maps h !! Builder.header B' = None ∧
    Builder.urlValues B' ≠ Builder.header B' ∧
    is_Some (Builder.maps h' !! Builder.urlValues B') ∧
    is_Some (Builder.maps h' !! Builder.header B') ∧
    Builder.header_canonical h' (Builder.header B').
Proof.
  intros Hset HB Huv Hhd.
  destruct (clone_spec h b B uv hd HB Huv Hhd)
    as (b' & l1 & l2 & uv' & hd' & Hb' & Hl1 & Hl2 & Hne & Hcan & Hclone).
  set (NB := Builder.mkBuilder _ _ _ _ _ _ l1 l2 _ _ _ _ _ _ _ _ _) in Hclone.
  set (h1 := Builder.mkHeap _ _) in Hclone.
  assert (Builder.builders h1 !! b' = Some NB) as Hnb by apply lookup_insert_eq.
  assert (Builder.maps h1 !! l1 = Some uv') as Hm1.
  { simpl. rewrite lookup_insert_ne by done. apply lookup_insert_eq. }
  assert (Builder.maps h1 !! l2 = Some hd') as Hm2 by apply lookup_insert_eq.
  assert (Builder.unchanged h h1) as Hframe1.
  { split; intros l x Hl; simpl.
    - rewrite lookup_insert_ne; [done | congruence].
    - rewrite !lookup_insert_ne; [done | congruence | congruence]. }
  unfold Builder.chained, Builder.hbind. rewrite Hclone.
  unfold Builder.deref. rewrite Hnb.
  destruct (Builder.err NB) eqn:Herr.
  - exists b', h1, NB. unfold Builder.hret. split_and!; eauto. by exists hd'.
  - destruct (Hset h1 b' NB Hnb)
      as (h2 & NB' & Hrun & Hnb' & Hu & Hh & Hsu & Hsh & Hfb & Hfm & Hc);
      [by eexists | by eexists |].
    rewrite Hrun. exists b', h2, NB'. unfold Builder.hret.
    rewrite Hu, Hh. simpl.
    split_and!; eauto.
    + destruct Hframe1 as [Hb1 Hmaps1]. split; intros l x Hl.
      * rewrite Hfb; [by apply Hb1 | congruence].
      * rewrite Hfm; [by apply Hmaps1 | simpl; congruence | simpl; congruence].
    + apply Hc; [done |]. by exists hd'.
Qed.

(** Every builder that a chaining method returns has a header map with
    canonical keys, and so has the builder that [New] returns. *)
Lemma call_header_canonical (op : Builder.chain_op St Obj) h b B uv hd b' h' :
  Builder.builders h !! b = Some B →
  Builder.maps h !! Builder.urlValues B = Some uv →
  Builder.maps h !! Builder.header B = Some hd →
  call op b h = Some (b', h') →
  ∃ B', Builder.builders h' !! b' = Some B' ∧
        Builder.header_canonical h' (Builder.header B').
Proof.
  intros HB Huv Hhd Hrun.
  destruct (call_is_chained op) as (set & Hset & Hcall).
  destruct (chained_spec set h b B uv hd Hset HB Huv Hhd)
    as (b1 & h1 & B1 & Hrun1 & _ & Hnew & _ & _ & _ & _ & _ & _ & Hcan).
  rewrite Hcall, Hrun1 in Hrun. injection Hrun as <- <-. by exists B1.
Qed.

Lemma New_header_canonical (defaultCodec : Builder.Codec Obj) h b' h' :
  Builder.New defaultCodec h = Some (b', h') →
  ∃ B', Builder.builders h' !! b' = Some B' ∧
        Builder.header_canonical h' (Builder.header B').
Proof.
  unfold Builder.New, Builder.hbind, Builder.make_map, Builder.new_builder. simpl.
  intros [= <- <-]. eexists. simpl. split; [apply lookup_insert_eq |].
  eexists. simpl. split; [apply lookup_insert_eq | apply canonical_keys_empty].
Qed.


End ChainingProperties.

(** *** The builder on concrete chains *)

Example chain_query_request :
  URL (request_of chain_query) = "http://example.test/login?q1=c&q1=a&q2=b" ∧
  http.Method (request_of chain_query) = "GET" ∧
  ReqHeader (request_of chain_query) !! "Content-Type" = Some ["application/json"].
Proof. vm_compute. done. Qed.

Example chain_token_request :
  ReqHeader (request_of chain_token) !! "X-Token" = Some ["b"] ∧
  Builder.maps chain_token.2 !! Builder.header (struct_of chain_token)
  = Some {["X-Token" := ["a"; "b"]]}.
Proof. vm_compute. done. Qed.

Example chain_content_type_request :
  ReqHeader (request_of chain_content_type) !! "Content-Type" = Some ["application/json"] ∧
  Builder.maps chain_content_type.2 !! Builder.header (struct_of chain_content_type)
  = Some {["Content-Type" := ["text/plain"; ""]]}.
Proof. vm_compute. done. Qed.

Lemma BuildHTTPReq_merges_query_witness :
  Builder.builders chain_query.2 !! chain_query.1 = Some (struct_of chain_query) ∧
  Builder.maps chain_query.2 !! Builder.urlValues (struct_of chain_query)
  = Some {["q1" := ["c"]]} ∧
  example_BuildHTTPReq background chain_query.1 chain_query.2
  = Some (inl (request_of chain_query), chain_query.2) ∧
  ∃ urlObj merged,
    example_Parse (Builder.baseURL (struct_of chain_query)
                   +:+ Builder.path (struct_of chain_query)) = inl urlObj ∧
    (∀ k, default [] (merged !! k)
          = default [] (({["q1" := ["c"]]} : gmap string (list string)) !! k)
            ++ default [] (example_ParseQuery (Builder.RawQuery urlObj) !! k)) ∧
    Builder.no_empty_values merged ∧
    URL (request_of chain_query)
    = example_String (if bool_decide (size merged ≠ 0%nat)
                      then {| Builder.RawQuery := example_Encode merged;
                              Builder.Rest := Builder.Rest urlObj |}
                      else urlObj).
Proof.
  split; [vm_compute; reflexivity |]. split; [vm_compute; reflexivity |].
  split; [vm_compute; reflexivity |].
  apply (BuildHTTPReq_merges_query example_Parse example_ParseQuery example_Encode
           example_String example_NewRequest_err background chain_query.2 chain_query.1
           (struct_of chain_query) {["q1" := ["c"]]} (request_of chain_query) chain_query.2);
    vm_compute; reflexivity.
Defined.

Lemma canonical_keys_singleton (K : string) (vs : list string) :
  CanonicalMIMEHeaderKey K = K →
  Builder.canonical_keys {[K := vs]}.
Proof.
  intros HK k [x Hk]. by apply lookup_singleton_Some in Hk as [<- _].
Qed.

Lemma BuildHTTPReq_keeps_last_header_witness :
  Builder.builders chain_token.2 !! chain_token.1 = Some (struct_of chain_token) ∧
  Builder.maps chain_token.2 !! Builder.header (struct_of chain_token)
  = Some {["X-Token" := ["a"; "b"]]} ∧
  example_BuildHTTPReq background chain_token.1 chain_token.2
  = Some (inl (request_of chain_token), chain_token.2) ∧
  ReqHeader (request_of chain_token) !! "X-Token" = Some ["b"].
Proof.
  split; [vm_compute; reflexivity |]. split; [vm_compute; reflexivity |].
  split; [vm_compute; reflexivity |].
  apply (BuildHTTPReq_keeps_last_header example_Parse example_ParseQuery example_Encode
           example_String example_NewRequest_err background chain_token.2 chain_token.1
           (struct_of chain_token) {["X-Token" := ["a"; "b"]]} "X-Token" ["a"; "b"] "b"
           (request_of chain_token) chain_token.2).
  - vm_compute; reflexivity.
  - vm_compute; reflexivity.
  - apply canonical_keys_singleton. vm_compute; reflexivity.
  - vm_compute; reflexivity.
  - reflexivity.
  - left. discriminate.
  - vm_compute; reflexivity.
Defined.

(** C9 as stated fails for [Content-Type] when the last value is the
    empty string: after [WithHeader("Content-Type", "text/plain")] and
    [WithHeader("Content-Type", "")] the built request carries
    [application/json], the default, not the last value. *)
Lemma last_content_type_is_defaulted : ¬ last_header_value_wins.
Proof.
  intros H.
  specialize (H nat unit example_Parse example_ParseQuery example_Encode
                example_String example_NewRequest_err background
                chain_content_type.2 chain_content_type.2 chain_content_type.1
                (struct_of chain_content_type)
                {["Content-Type" := ["text/plain"; ""]]} "Content-Type"
                ["text/plain"; ""] "" (request_of chain_content_type)).
  assert (ReqHeader (request_of chain_content_type) !! "Content-Type" = Some [""]) as Hlast.
  { apply H.
    - vm_compute; reflexivity.
    - vm_compute; reflexivity.
    - apply canonical_keys_singleton. vm_compute; reflexivity.
    - vm_compute; reflexivity.
    - simpl. lia.
    - reflexivity.
    - vm_compute; reflexivity. }
  vm_compute in Hlast. discriminate Hlast.
Qed.


(** Two builders derived from the same ancestor: neither the ancestor
    nor the sibling sees the parameter the other adds. *)
Example siblings_do_not_interfere :
  match Builder.hbind (Builder.New example_codec) (λ b0,
        Builder.hbind (Builder.WithQueryString "a" "1" b0) (λ b1,
        Builder.hbind (Builder.WithQueryString "a" "2" b0) (λ b2,
        Builder.hret (b0, b1, b2)))) empty_heap with
  | Some ((b0, b1, b2), h) =>
      let query b := Builder.maps h !! Builder.urlValues (struct_of (b, h)) in
      query b0 = Some ∅ ∧
      query b1 = Some {["a" := ["1"]]} ∧
      query b2 = Some {["a" := ["2"]]}
  | None => False
  end.
Proof. vm_compute. done. Qed.

(** * Further properties of the code *)

(** ** The retry transport *)

Section RetryFurther.

Context {St : Type}.
Implicit Types (f : Request → St → RTResult * St) (w : World St).

Lemma server_errors_cons c cs :
  server_errors (c :: cs)
  = ((if is_server_error c.2 then 1 else 0) + server_errors cs)%nat.
Proof.
  unfold server_errors. rewrite filter_cons.
  destruct (decide (is_server_error c.2)) as [H|H].
  - apply Is_true_true in H. by rewrite H.
  - apply Is_true_false in H. by rewrite H.
Qed.

(** The clock of a run of the loop: one pause of 100ms for every answer
    that is a server error, and nothing else. *)
Lemma retry_loop_clock f saved n req resp err w out w' :
  retry_loop n (observe f) saved req resp err w = (out, w') →
  ∃ evs, events w' = events w ++ evs ∧
         now w' = now w + Millisecond * 100 * Z.of_nat (server_errors (calls evs)) ∧
         sleeps evs = replicate (server_errors (calls evs)) (Millisecond * 100).
Proof.
  revert req resp err w.
  induction n as [|n IH]; intros req resp err w Hrun; simpl in Hrun.
  - injection Hrun as <- <-. exists []. rewrite app_nil_r.
    unfold server_errors. simpl. split_and!; [done | lia | done].
  - unfold call_RoundTrip, bind, observe in Hrun.
    destruct (f _ (stub w)) as [[resp1 err1] s1] eqn:Hf.
    unfold ret at 1 in Hrun.
    destruct err1 as [e|].
    + apply IH in Hrun as (evs & Hev & Hnow & Hsl). simpl in Hev, Hnow.
      eexists (EvRoundTrip _ (resp1, Some e) :: evs).
      split; [by rewrite Hev, <- app_assoc |]. simpl.
      rewrite server_errors_cons. simpl.
      by destruct resp1.
    + destruct resp1 as [r|].
      * destruct (500 <=? StatusCode r) eqn:Hcode.
        -- unfold bind, time_Sleep in Hrun.
           apply IH in Hrun as (evs & Hev & Hnow & Hsl). simpl in Hev, Hnow.
           eexists (EvRoundTrip _ (Some r, None) :: EvSleep _ :: evs).
           split; [by rewrite Hev, <- !app_assoc |]. simpl.
           rewrite server_errors_cons. simpl. rewrite Hcode. simpl.
           split; [lia | by rewrite Hsl].
        -- injection Hrun as <- <-. simpl. eexists [EvRoundTrip _ (Some r, None)].
           split; [done |]. simpl. rewrite server_errors_cons. simpl. rewrite Hcode.
           split; [unfold server_errors; simpl; lia | done].
      * injection Hrun as <- <-. simpl. eexists [EvRoundTrip _ (None, None)].
        split; [done |]. simpl. split; [unfold server_errors; simpl; lia | done].
Qed.

(** X1. A body that cannot be read to its end stops the call before any
    attempt: with [maxRetry > 0], the wrapped transport is never called
    and [RoundTrip] returns a nil response and the error of the read,
    annotated by [errors.WithStack]. *)
Theorem RoundTrip_body_read_failure f n req body e w out w' :
  0 < n →
  Body req = Some body →
  fault body = Some e →
  RoundTrip (RetriableTransport n (observe f)) req w = (out, w') →
  out = Some (None, Some (withStack e)) ∧
  stub w' = stub w ∧
  events w' = events w ++ [EvRead (pending body) (Some e)].
Proof.
  intros Hn Hbody Hfault. unfold RoundTrip, RetriableTransport; simpl.
  replace (0 <? n) with true by (symmetry; apply Z.ltb_lt; lia).
  rewrite Hbody. unfold bind, ioutil_ReadAll, bind, emit, ret. simpl.
  rewrite Hfault. by intros [= <- <-].
Qed.

(** X2. A request without a body does not stay without one: nothing is
    read, at least one attempt is made when [maxRetry > 0], and every
    attempt hands the wrapped transport a body that is not nil and
    holds no bytes. *)
Theorem RoundTrip_bodiless_request f n req w out w' evs :
  Body req = None →
  RoundTrip (RetriableTransport n (observe f)) req w = (out, w') →
  events w' = events w ++ evs →
  reads evs = [] ∧
  (0 < n → (1 ≤ length (calls evs))%nat) ∧
  Forall (λ c, Body c.1 = Some (NopCloser [])) (calls evs).
Proof.
  intros Hbody Hrun Hev. apply RoundTrip_trace in Hrun.
  rewrite Hbody in Hrun.
  replace (if 0 <? n then None else None) with (@None ReadCloser) in Hrun
    by (by destruct (0 <? n)).
  destruct Hrun as (evs0 & Hev0 & Htr). rewrite Hev0 in Hev.
  apply app_inv_head in Hev as <-. split_and!.
  - clear Hev0. induction Htr; simpl; auto.
  - intros Hn. destruct (Z.to_nat n) as [|m] eqn:Hm; [lia |].
    destruct (retry_trace_starts _ _ _ _ _ _ Htr) as (r & res & rest & ->).
    simpl. lia.
  - by eapply retry_trace_bodies.
Qed.

(** X3. The only pauses of [RoundTrip] are those of 100ms that follow a
    server error (a response with a nil error and a status of 500 or
    more): there is one for each such answer, also after the last
    attempt, and none after a transport-level error. The clock is moved
    by 100ms times their number, which is at most [maxRetry]. *)
Theorem RoundTrip_pauses f n req w out w' evs :
  RoundTrip (RetriableTransport n (observe f)) req w = (out, w') →
  events w' = events w ++ evs →
  sleeps evs = replicate (server_errors (calls evs)) (Millisecond * 100) ∧
  now w' = now w + Millisecond * 100 * Z.of_nat (server_errors (calls evs)) ∧
  (server_errors (calls evs) ≤ Z.to_nat n)%nat.
Proof.
  intros Hrun Hev.
  assert (server_errors (calls evs) ≤ Z.to_nat n)%nat as Hbound.
  { pose proof Hrun as Htr. apply RoundTrip_trace in Htr.
    assert (length (calls evs) ≤ Z.to_nat n)%nat as Hlen.
    { destruct (if 0 <? n then Body req else None) as [body|].
      - destruct (fault body) as [e|].
        + destruct Htr as [Hev' _]. rewrite Hev' in Hev.
          apply app_inv_head in Hev as <-. simpl. lia.
        + destruct Htr as (evs0 & Hev' & Htr). rewrite Hev' in Hev.
          apply app_inv_head in Hev as <-. simpl.
          by eapply retry_trace_calls_bound.
      - destruct Htr as (evs0 & Hev' & Htr). rewrite Hev' in Hev.
        apply app_inv_head in Hev as <-. by eapply retry_trace_calls_bound. }
    unfold server_errors. pose proof (length_filter (λ c, is_server_error c.2) (calls evs)).
    lia. }
  split_and!; [| | done].
  - unfold RoundTrip, RetriableTransport in Hrun; simpl in Hrun.
    destruct (0 <? n); [destruct (Body req) as [body|] |].
    + unfold bind, ioutil_ReadAll, bind, emit, ret in Hrun. simpl in Hrun.
      destruct (fault body) as [e|].
      * injection Hrun as <- <-. simpl in Hev. apply app_inv_head in Hev as <-. done.
      * apply retry_loop_clock in Hrun as (evs0 & Hev0 & _ & Hsl). simpl in Hev0.
        rewrite Hev0, <- app_assoc in Hev. apply app_inv_head in Hev as <-. done.
    + apply retry_loop_clock in Hrun as (evs0 & Hev0 & _ & Hsl).
      rewrite Hev0 in Hev. apply app_inv_head in Hev as <-. done.
    + assert (retry_loop (Z.to_nat n) (observe f) [] req None None w = (out, w')) as Hrun'
        by (by destruct (Body req)).
      apply retry_loop_clock in Hrun' as (evs0 & Hev0 & _ & Hsl).
      rewrite Hev0 in Hev. apply app_inv_head in Hev as <-. done.
  - unfold RoundTrip, RetriableTransport in Hrun; simpl in Hrun.
    destruct (0 <? n); [destruct (Body req) as [body|] |].
    + unfold bind, ioutil_ReadAll, bind, emit, ret in Hrun. simpl in Hrun.
      destruct (fault body) as [e|].
      * injection Hrun as <- <-. simpl in Hev. apply app_inv_head in Hev as <-.
        simpl. unfold server_errors. simpl. lia.
      * apply retry_loop_clock in Hrun as (evs0 & Hev0 & Hnow & _). simpl in Hev0, Hnow.
        rewrite Hev0, <- app_assoc in Hev. apply app_inv_head in Hev as <-. done.
    + apply retry_loop_clock in Hrun as (evs0 & Hev0 & Hnow & _).
      rewrite Hev0 in Hev. apply app_inv_head in Hev as <-. done.
    + assert (retry_loop (Z.to_nat n) (observe f) [] req None None w = (out, w')) as Hrun'
        by (by destruct (Body req)).
      apply retry_loop_clock in Hrun' as (evs0 & Hev0 & Hnow & _).
      rewrite Hev0 in Hev. apply app_inv_head in Hev as <-. done.
Qed.

End RetryFurther.

Lemma RoundTrip_body_read_failure_witness :
  let run := RoundTrip (RetriableTransport 3 (observe (scripted [answered 200])))
               post_broken world0 in
  0 < 3 ∧ Body post_broken = Some broken_body ∧
  fault broken_body = Some (errorString "unexpected EOF") ∧
  run.1 = Some (None, Some (withStack (errorString "unexpected EOF"))) ∧
  stub run.2 = stub world0 ∧
  events run.2 = events world0 ++ [EvRead (pending broken_body)
                                     (Some (errorString "unexpected EOF"))].
Proof.
  intros run. split; [lia |]. split; [reflexivity |]. split; [reflexivity |].
  apply (RoundTrip_body_read_failure (scripted [answered 200]) 3 post_broken broken_body
           (errorString "unexpected EOF") world0 run.1 run.2);
    [lia | reflexivity | reflexivity | apply surjective_pairing].
Defined.

Lemma RoundTrip_bodiless_request_witness :
  let run := RoundTrip (RetriableTransport 2 (observe (scripted [answered 503; answered 200])))
               get_plain world0 in
  Body get_plain = None ∧
  length (calls (events run.2)) = 2%nat ∧
  reads (events run.2) = [] ∧
  (0 < 2 → (1 ≤ length (calls (events run.2)))%nat) ∧
  Forall (λ c, Body c.1 = Some (NopCloser [])) (calls (events run.2)).
Proof.
  intros run. split; [reflexivity |]. split; [vm_compute; reflexivity |].
  apply (RoundTrip_bodiless_request (scripted [answered 503; answered 200]) 2 get_plain
           world0 run.1 run.2 (events run.2));
    [reflexivity | apply surjective_pairing | reflexivity].
Defined.

Lemma RoundTrip_pauses_witness :
  let run := RoundTrip (RetriableTransport 3
                          (observe (scripted [answered 503; refused; answered 502])))
               post_payload world0 in
  server_errors (calls (events run.2)) = 2%nat ∧
  sleeps (events run.2)
  = replicate (server_errors (calls (events run.2))) (Millisecond * 100) ∧
  now run.2
  = now world0 + Millisecond * 100 * Z.of_nat (server_errors (calls (events run.2))) ∧
  (server_errors (calls (events run.2)) ≤ Z.to_nat 3)%nat.
Proof.
  intros run. split; [vm_compute; reflexivity |].
  apply (RoundTrip_pauses (scripted [answered 503; refused; answered 502]) 3 post_payload
           world0 run.1 run.2 (events run.2));
    [apply surjective_pairing | reflexivity].
Defined.

(** ** The transport wrappers *)

Section WrapperFurther.

Context {St : Type}.
Implicit Types (f : Request → St → RTResult * St) (next : RoundTripper St) (w : World St).

(** X4. When the wrapped transport answers with a response and a nil
    error, [StatusCodesTransport] returns that response untouched if its
    status is one of the expected codes, and otherwise drops it and
    returns the error [expected statuscodes:[...],got:<status>]; with no
    expected code at all every response is rejected. The wrapper has no
    effect of its own. *)
Theorem StatusCodesTransport_accepts (codes : list Z) next req w r w1 :
  next req w = (Some (Some r, None), w1) →
  (StatusCode r ∈ codes →
   StatusCodesTransport codes next req w = (Some (Some r, None), w1)) ∧
  (StatusCode r ∉ codes →
   StatusCodesTransport codes next req w
   = (Some (None, Some (errorString ("expected statuscodes:" +:+ fmt_ds codes
                                      +:+ ",got:" +:+ fmt_d (StatusCode r)))), w1)) ∧
  (codes = [] → (StatusCodesTransport codes next req w).1 ≠ Some (Some r, None)).
Proof.
  intros Hnext. unfold StatusCodesTransport, bind. rewrite Hnext. simpl.
  split_and!.
  - intros Hin. rewrite bool_decide_eq_true_2; [done |].
    by apply elem_of_list_to_set.
  - intros Hnin. rewrite bool_decide_eq_false_2; [done |].
    by rewrite elem_of_list_to_set.
  - intros ->. rewrite bool_decide_eq_false_2; [done |].
    rewrite elem_of_list_to_set. apply not_elem_of_nil.
Qed.

(** X5. [StatusCodeTransport(c)] and [StatusCodesTransport(c)] let the
    same answers through: whatever the wrapped transport does, both
    return the same response, or both return an error (the same one when
    it comes from the wrapped transport), or both panic, and both leave
    the same world. *)
Theorem StatusCodeTransport_as_set (c : Z) next req w :
  let one := StatusCodeTransport c next req w in
  let set := StatusCodesTransport [c] next req w in
  one.2 = set.2 ∧
  (∀ r, one.1 = Some (Some r, None) ↔ set.1 = Some (Some r, None)) ∧
  (one.1 = None ↔ set.1 = None) ∧
  (∀ e, (next req w).1 = Some (None, Some e) →
        one.1 = Some (None, Some e) ∧ set.1 = Some (None, Some e)).
Proof.
  unfold StatusCodeTransport, StatusCodesTransport, bind. simpl.
  destruct (next req w) as [[[[r|] [e|]]|] w1]; simpl;
    try (split_and!; [done | done | done | by intros e' [= <-] || done]).
  destruct (Z.eqb_spec (StatusCode r) c) as [Heq|Hne]; simpl.
  - rewrite bool_decide_eq_true_2 by (subst; set_solver).
    split_and!; [done | done | done | done].
  - rewrite bool_decide_eq_false_2 by set_solver.
    split_and!; [done | | done | done].
    intros r'. split; discriminate.
Qed.

Ltac run_logging Hrun :=
  unfold bind, emit, on_panic, observe, ret, panic, DrainBody, bind, emit, ret in Hrun;
  cbn [stub now events fst snd pending fault NopCloser] in Hrun.

Ltac split_call g ww Hrun Hf :=
  match type of Hrun with context [g ?r (stub ww)] =>
    destruct (g r (stub ww)) as [[[?r1|] [?e1|]] ?s1] eqn:Hf
  end.

(** A call through [LoggingTransport] on an upgrade request. *)
Lemma LoggingTransport_upgrade_run (lq lr : bool) f req w :
  Header_Get "Connection" (ReqHeader req) = "Upgrade" →
  ∃ res s1,
    f req (stub w) = (res, s1) ∧
    LoggingTransport lq lr (observe f) req w
    = (match res with
       | (_, Some e) => Some (None, Some e)
       | (None, None) => None
       | (Some r, None) => Some (Some r, None)
       end,
       {| stub := s1; now := now w;
          events := events w ++ [EvPrintln (ReqHeader req);
                                 EvSlog "send http req" (request_kvs req);
                                 EvRoundTrip req res;
                                 EvSlog "got http resp"
                                   (match res with
                                    | (Some r, None) =>
                                        request_kvs req
                                        ++ [("http_status_code", LogInt (StatusCode r))]
                                    | _ => request_kvs req
                                    end)] |}).
Proof.
  intros Hup. destruct (f req (stub w)) as [res s1] eqn:Hf.
  eexists res, s1. split; [done |].
  unfold LoggingTransport. rewrite Hup.
  cbn [String.eqb Ascii.eqb Bool.eqb negb andb].
  fold (request_kvs req).
  unfold bind, emit, on_panic, observe, ret, panic.
  cbn [stub now events fst snd].
  rewrite Hf.
  destruct res as [[r|] [e|]]; cbn [stub now events fst snd];
    rewrite <- ?app_assoc; reflexivity.
Qed.

(** X6. On an upgrade request ([Connection: Upgrade]) [LoggingTransport]
    reads no body, whatever its two flags say: the wrapped transport gets
    the request as it came in, a response comes back with the body it
    had, and no stream is read. *)
Theorem LoggingTransport_upgrade_reads_nothing (lq lr : bool) f req w out w' evs :
  Header_Get "Connection" (ReqHeader req) = "Upgrade" →
  LoggingTransport lq lr (observe f) req w = (out, w') →
  events w' = events w ++ evs →
  reads evs = [] ∧
  ∃ res, calls evs = [(req, res)] ∧
         (f req (stub w)).1 = res ∧
         out = match res with
               | (_, Some e) => Some (None, Some e)
               | (None, None) => None
               | (Some r, None) => Some (Some r, None)
               end.
Proof.
  intros Hup Hrun Hev.
  destruct (LoggingTransport_upgrade_run lq lr f req w Hup) as (res & s1 & Hf & Heq).
  rewrite Heq in Hrun. injection Hrun as <- <-. cbn [events] in Hev.
  apply app_inv_head in Hev as <-.
  split; [done |]. exists res. by rewrite Hf.
Qed.


(** X8. [JsonTransport] only adds to the header of the request: every
    value present before is still there, at the same place in the list
    of its key, and method, URL, body and context are untouched. It adds
    [application/json] under [Content-Type] exactly when [Get] finds no
    content type; a request whose first content type is the empty
    string therefore keeps it as its first value, and [Get] still finds
    no content type afterwards. *)
Theorem JsonTransport_only_adds f req w :
  ∃ req',
    JsonTransport (observe f) req w = observe f req' w ∧
    Method req' = Method req ∧ URL req' = URL req ∧
    Body req' = Body req ∧ Ctx req' = Ctx req ∧
    (∀ k vs, ReqHeader req !! k = Some vs →
             ∃ extra, ReqHeader req' !! k = Some (vs ++ extra)) ∧
    (Header_Get ContentTypeKey (ReqHeader req) ≠ "" → req' = req) ∧
    (Header_Get ContentTypeKey (ReqHeader req) = "" →
     ReqHeader req' !! ContentTypeKey
     = Some (default [] (ReqHeader req !! ContentTypeKey) ++ [ContentTypeJson])) ∧
    (∀ vs, ReqHeader req !! ContentTypeKey = Some ("" :: vs) →
           Header_Get ContentTypeKey (ReqHeader req') = "").
Proof.
  unfold JsonTransport.
  destruct (String.eqb_spec (Header_Get ContentTypeKey (ReqHeader req)) "") as [Hget|Hget].
  - eexists. split; [reflexivity |]. cbn [Method URL Body Ctx ReqHeader set_ReqHeader].
    split_and!; try done.
    + intros k vs Hk. unfold Header_Add. rewrite Values_Add_lookup.
      destruct (decide (k = CanonicalMIMEHeaderKey ContentTypeKey)) as [->|Hne].
      * rewrite Hk. by eexists.
      * rewrite Hk. exists []. by rewrite app_nil_r.
    + intros _. unfold Header_Add. rewrite Values_Add_lookup.
      by rewrite decide_True by reflexivity.
    + intros vs Hvs. unfold Header_Get, Header_Add. rewrite Values_Add_lookup.
      rewrite decide_True by reflexivity.
      change (CanonicalMIMEHeaderKey ContentTypeKey) with ContentTypeKey.
      by rewrite Hvs.
  - exists req. split; [reflexivity |]. split_and!; try done.
    + intros k vs Hk. exists []. by rewrite app_nil_r.
    + intros vs Hvs. exfalso. apply Hget. unfold Header_Get.
      change (CanonicalMIMEHeaderKey ContentTypeKey) with ContentTypeKey.
      by rewrite Hvs.
Qed.

(** X18. [HeaderTransport] appends its value under the canonical form
    of its key and replaces nothing: the values the request has for that
    key come first, the other keys, the method, the URL, the body and the
    context are those of the request. *)
Theorem HeaderTransport_only_adds (key value : string) f req w :
  ∃ req',
    HeaderTransport key value (observe f) req w = observe f req' w ∧
    Method req' = Method req ∧ URL req' = URL req ∧
    Body req' = Body req ∧ Ctx req' = Ctx req ∧
    ReqHeader req' !! CanonicalMIMEHeaderKey key
    = Some (default [] (ReqHeader req !! CanonicalMIMEHeaderKey key) ++ [value]) ∧
    (∀ k, k ≠ CanonicalMIMEHeaderKey key → ReqHeader req' !! k = ReqHeader req !! k).
Proof.
  unfold HeaderTransport. eexists. split; [reflexivity |].
  cbn [Method URL Body Ctx ReqHeader set_ReqHeader]. unfold Header_Add.
  split_and!; try done.
  - rewrite Values_Add_lookup. by rewrite decide_True.
  - intros k Hk. rewrite Values_Add_lookup. by rewrite decide_False.
Qed.

End WrapperFurther.

Lemma StatusCodesTransport_accepts_witness :
  let next := observe (scripted [answered 404]) in
  let run := next post_payload world0 in
  run = (Some (Some (status_response 404), None), run.2) ∧
  StatusCodesTransport [200; 404] next post_payload world0
  = (Some (Some (status_response 404), None), run.2) ∧
  StatusCodesTransport [200] next post_payload world0
  = (Some (None, Some (errorString "expected statuscodes:[200],got:404")), run.2).
Proof.
  intros next run.
  assert (run = (Some (Some (status_response 404), None), run.2)) as Hrun
    by (vm_compute; reflexivity).
  split; [exact Hrun |]. split.
  - apply (StatusCodesTransport_accepts [200; 404] next post_payload world0
             (status_response 404) run.2 Hrun).
    apply (bool_decide_unpack _). vm_compute. exact I.
  - apply (StatusCodesTransport_accepts [200] next post_payload world0
             (status_response 404) run.2 Hrun).
    apply (bool_decide_unpack _). vm_compute. exact I.
Defined.

Lemma LoggingTransport_upgrade_reads_nothing_witness :
  let run := LoggingTransport true true (observe (scripted [answered_ok]))
               upgrade_request world0 in
  Header_Get "Connection" (ReqHeader upgrade_request) = "Upgrade" ∧
  reads (events run.2) = [] ∧
  ∃ res, calls (events run.2) = [(upgrade_request, res)] ∧
         (scripted [answered_ok] upgrade_request (stub world0)).1 = res ∧
         run.1 = match res with
                 | (_, Some e) => Some (None, Some e)
                 | (None, None) => None
                 | (Some r, None) => Some (Some r, None)
                 end.
Proof.
  intros run. split; [vm_compute; reflexivity |].
  apply (LoggingTransport_upgrade_reads_nothing true true (scripted [answered_ok])
           upgrade_request world0 run.1 run.2 (events run.2));
    [vm_compute; reflexivity | apply surjective_pairing | reflexivity].
Defined.


(** ** The builder: what the chaining methods write *)

Section CopyProperties.

Implicit Types (m uv hd dst : gmap string (list string)) (kvs : list (string * list string)).

(** Copying a map value by value with [Add] gives the map back, when no
    key of it holds an empty list. *)
Lemma range_into_Values_Add_copy uv :
  Builder.no_empty_values uv →
  range_into Values_Add (map_to_list uv) ∅ = uv.
Proof.
  intros Hne. apply map_eq. intros k.
  pose proof (range_into_Values_Add_map uv ∅ k) as Hdef.
  rewrite lookup_empty in Hdef. simpl in Hdef.
  assert (Builder.no_empty_values (range_into Values_Add (map_to_list uv) ∅)) as Hne'.
  { apply range_into_Values_Add_no_empty. intros k'. by rewrite lookup_empty. }
  specialize (Hne k). specialize (Hne' k).
  destruct (range_into Values_Add (map_to_list uv) ∅ !! k) as [[|x xs]|],
           (uv !! k) as [[|y ys]|]; simpl in *; congruence.
Qed.

Lemma range_into_Header_Add_canonical_keys kvs dst :
  (∀ k, k ∈ kvs.*1 → CanonicalMIMEHeaderKey k = k) →
  range_into Header_Add kvs dst = range_into Values_Add kvs dst.
Proof.
  revert dst. induction kvs as [|[k0 vs0] kvs IH]; intros dst Hcan; [done |].
  rewrite !range_into_cons. unfold Header_Add at 2.
  rewrite (Hcan k0) by (simpl; left).
  apply IH. intros k Hk. apply Hcan. simpl. by right.
Qed.

Lemma range_into_Header_Add_copy hd :
  Builder.canonical_keys hd →
  Builder.no_empty_values hd →
  range_into Header_Add (map_to_list hd) ∅ = hd.
Proof.
  intros Hcan Hne. rewrite range_into_Header_Add_canonical_keys.
  - by apply range_into_Values_Add_copy.
  - intros k Hk. apply Hcan.
    apply list_elem_of_fmap in Hk as [[k1 vs] [-> Hin]].
    apply elem_of_map_to_list in Hin. by eexists.
Qed.

End CopyProperties.

Section ChainingFurther.

Context {St Obj : Type}.
Variable query_Values : Obj → gmap string (list string) * option error.
Variable base64_EncodeToString : string → string.

Local Abbreviation call := (@Builder.call St Obj query_Values base64_EncodeToString).

Implicit Types (h : Builder.Heap St Obj) (B NB : Builder.builder St Obj)
  (set : Builder.loc → Builder.H St Obj unit) (uv hd : gmap string (list string)).

Lemma new_locations_fresh h :
  Builder.builders h !! new_struct h = None ∧
  Builder.maps h !! new_query h = None ∧
  Builder.maps h !! new_header h = None ∧
  new_query h ≠ new_header h.
Proof.
  assert (new_header h ∉ {[new_query h]} ∪ dom (Builder.maps h)) as Hfresh
    by apply is_fresh.
  rewrite not_elem_of_union, not_elem_of_singleton in Hfresh.
  destruct Hfresh as [Hne Hdom].
  split_and!; try (apply not_elem_of_dom; apply is_fresh || done). congruence.
Qed.

(** [clone] with the addresses and the content of the copies spelled
    out. *)
Lemma clone_run h b B uv hd :
  Builder.builders h !! b = Some B →
  Builder.maps h !! Builder.urlValues B = Some uv →
  Builder.maps h !! Builder.header B = Some hd →
  Builder.clone b h
  = Some (new_struct h, cloned h B (new_struct h) (new_query h) (new_header h) uv hd).
Proof.
  intros HB Huv Hhd.
  destruct (new_locations_fresh h) as (_ & Hl1 & Hl2 & Hne).
  set (l1 := new_query h) in *. set (l2 := new_header h) in *.
  assert (Builder.urlValues B ≠ l1) as Hu1 by congruence.
  assert (Builder.header B ≠ l1) as Hh1 by congruence.
  assert (Builder.header B ≠ l2) as Hh2 by congruence.
  unfold Builder.clone, Builder.hbind, Builder.deref, Builder.make_map,
    Builder.load_map, Builder.update_map, Builder.new_builder, cloned, copied.
  rewrite HB. simpl. fold (new_query h). fold l1.
  rewrite lookup_insert_ne by done. rewrite Huv. simpl.
  rewrite lookup_insert_eq. simpl. rewrite insert_insert_eq.
  rewrite dom_insert_L. fold (new_header h). fold l2.
  rewrite (lookup_insert_ne _ l2 (Builder.header B)) by done.
  rewrite (lookup_insert_ne _ l1 (Builder.header B)) by done.
  rewrite Hhd. simpl. rewrite lookup_insert_eq. simpl.
  by rewrite !insert_insert_eq.
Qed.

(** A chaining method: the copy, then, unless the copy carries a
    deferred error, the statements of the method on the copy. *)
Lemma chained_run set h b B uv hd :
  Builder.builders h !! b = Some B →
  Builder.maps h !! Builder.urlValues B = Some uv →
  Builder.maps h !! Builder.header B = Some hd →
  Builder.chained b set h
  = let h1 := cloned h B (new_struct h) (new_query h) (new_header h) uv hd in
    match Builder.err B with
    | Some _ => Some (new_struct h, h1)
    | None =>
        match set (new_struct h) h1 with
        | Some (_, h2) => Some (new_struct h, h2)
        | None => None
        end
    end.
Proof.
  intros HB Huv Hhd.
  unfold Builder.chained, Builder.hbind. rewrite (clone_run h b B uv hd HB Huv Hhd).
  unfold Builder.deref. unfold cloned at 1. simpl. rewrite lookup_insert_eq. simpl.
  destruct (Builder.err B); [done |].
  by destruct (set (new_struct h) _) as [[[] h2]|].
Qed.

Lemma cloned_with_builder h B b' l1 l2 uv hd :
  Builder.no_empty_values uv →
  Builder.no_empty_values hd →
  Builder.canonical_keys hd →
  cloned h B b' l1 l2 uv hd = with_builder h b' (copied B l1 l2) l1 l2 uv hd.
Proof.
  intros Hu Hh Hc. unfold cloned, with_builder.
  by rewrite range_into_Values_Add_copy, range_into_Header_Add_copy.
Qed.

Lemma assign_with_builder (g : Builder.builder St Obj → Builder.builder St Obj)
    h b' X l1 l2 uv hd :
  Builder.assign b' g (with_builder h b' X l1 l2 uv hd)
  = Some (tt, with_builder h b' (g X) l1 l2 uv hd).
Proof.
  unfold Builder.assign, with_builder. simpl.
  by rewrite lookup_insert_eq, insert_insert_eq.
Qed.

Lemma update_urlValues_with_builder (g : gmap string (list string) → gmap string (list string))
    h b' X l1 l2 uv hd :
  Builder.urlValues X = l1 → l1 ≠ l2 →
  Builder.hbind (Builder.deref b') (λ NB, Builder.update_map (Builder.urlValues NB) g)
    (with_builder h b' X l1 l2 uv hd)
  = Some (tt, with_builder h b' X l1 l2 (g uv) hd).
Proof.
  intros Hx Hne. unfold Builder.hbind, Builder.deref, Builder.update_map, with_builder. simpl.
  rewrite lookup_insert_eq, Hx. simpl.
  rewrite lookup_insert_ne by done. rewrite lookup_insert_eq.
  do 2 f_equal. f_equal.
  rewrite (insert_insert_ne _ l1 l2) by done. by rewrite insert_insert_eq.
Qed.

Lemma update_header_with_builder (g : gmap string (list string) → gmap string (list string))
    h b' X l1 l2 uv hd :
  Builder.header X = l2 →
  Builder.hbind (Builder.deref b') (λ NB, Builder.update_map (Builder.header NB) g)
    (with_builder h b' X l1 l2 uv hd)
  = Some (tt, with_builder h b' X l1 l2 uv (g hd)).
Proof.
  intros Hx. unfold Builder.hbind, Builder.deref, Builder.update_map, with_builder. simpl.
  rewrite lookup_insert_eq, Hx. simpl.
  by rewrite lookup_insert_eq, insert_insert_eq.
Qed.

(** Every chaining method, on a builder without a deferred error, does
    to a copy of the builder what its functional reading says. *)
Lemma call_run (op : Builder.chain_op St Obj) h b B uv hd :
  well_formed h b B uv hd →
  Builder.err B = None →
  call op b h
  = Some (new_struct h,
          with_builder h (new_struct h)
            (op_fields query_Values op (copied B (new_query h) (new_header h)))
            (new_query h) (new_header h)
            (op_query query_Values op uv)
            (op_header base64_EncodeToString op hd)).
Proof.
  intros (HB & Huv & Hhd & _ & Hnu & Hnh & Hcan) Herr.
  destruct (new_locations_fresh h) as (_ & _ & _ & Hne).
  destruct op; cbn [Builder.call op_fields op_query op_header];
    unfold Builder.Get, Builder.Method, Builder.BaseURL, Builder.Head, Builder.Post,
      Builder.Put, Builder.Patch, Builder.Delete, Builder.Connect, Builder.Options,
      Builder.Trace, Builder.WithQueryString, Builder.WithQueryStringObj,
      Builder.WithURLValues, Builder.WithCodec, Builder.WithHeader, Builder.WithBasicAuth,
      Builder.WithHeaders, Builder.WithReq, Builder.WithResp, Builder.ExpectedStatusCodes,
      Builder.Logging, Builder.Timeout, Builder.Tracing, Builder.ContentType,
      Builder.Insecure, Builder.WithTransport;
    try (destruct (query_Values obj) as [values e] eqn:Hobj; cbn [fst snd]);
    rewrite (chained_run _ h b B uv hd HB Huv Hhd); cbn zeta; rewrite Herr;
    rewrite cloned_with_builder by done;
    unfold Builder.set_method_path, Builder.add_urlValues;
    repeat first
      [ rewrite assign_with_builder
      | rewrite update_urlValues_with_builder by done
      | rewrite update_header_with_builder by done
      | progress unfold Builder.hbind at 1 ];
    try reflexivity.
Qed.

Lemma Values_Add_no_empty key value uv :
  Builder.no_empty_values uv → Builder.no_empty_values (Values_Add key value uv).
Proof. intros Hu. by apply (foldl_Values_Add_no_empty key [value]). Qed.

Lemma Header_Set_no_empty key value hd :
  Builder.no_empty_values hd → Builder.no_empty_values (Header_Set key value hd).
Proof.
  intros Hh k. rewrite Header_Set_lookup. destruct (decide _); [done | apply Hh].
Qed.

Lemma range_into_Header_Add_no_empty kvs hd :
  Builder.no_empty_values hd → Builder.no_empty_values (range_into Header_Add kvs hd).
Proof.
  revert hd. induction kvs as [|[k0 vs0] kvs IH]; intros hd Hh; [done |].
  rewrite range_into_cons. apply IH. clear IH.
  revert hd Hh. induction vs0 as [|v vs0 IH]; intros hd Hh; [done |].
  simpl. by apply IH, Values_Add_no_empty.
Qed.

Lemma op_maps_well_formed (op : Builder.chain_op St Obj) uv hd :
  Builder.no_empty_values uv → Builder.no_empty_values hd → Builder.canonical_keys hd →
  Builder.no_empty_values (op_query query_Values op uv) ∧
  Builder.no_empty_values (op_header base64_EncodeToString op hd) ∧
  Builder.canonical_keys (op_header base64_EncodeToString op hd).
Proof.
  intros Hu Hh Hc.
  destruct op; cbn [op_query op_header]; split_and!;
    auto using Values_Add_no_empty, range_into_Values_Add_no_empty,
      Header_Set_no_empty, range_into_Header_Add_no_empty,
      Header_Add_canonical, Header_Set_canonical, range_into_Header_Add_canonical.
  by apply Values_Add_no_empty.
Qed.

Lemma op_fields_maps (op : Builder.chain_op St Obj) B :
  Builder.urlValues (op_fields query_Values op B) = Builder.urlValues B ∧
  Builder.header (op_fields query_Values op B) = Builder.header B.
Proof. by destruct op. Qed.

Lemma with_builder_well_formed h b' X l1 l2 uv hd :
  Builder.urlValues X = l1 → Builder.header X = l2 → l1 ≠ l2 →
  Builder.no_empty_values uv → Builder.no_empty_values hd → Builder.canonical_keys hd →
  well_formed (with_builder h b' X l1 l2 uv hd) b' X uv hd.
Proof.
  intros Hx1 Hx2 Hne Hu Hh Hc. unfold well_formed, with_builder. simpl.
  rewrite lookup_insert_eq, Hx1, Hx2.
  rewrite lookup_insert_eq. rewrite lookup_insert_ne by done. rewrite lookup_insert_eq.
  by split_and!.
Qed.

(** X9. Every chaining method, called on a well-formed builder (two
    different maps that exist, no key without a value, header keys in
    canonical form), returns a well-formed builder, whether or not the
    receiver carries a deferred error: no chain of calls panics on a
    missing map or leaves a key that is not canonical. *)
Theorem chaining_keeps_well_formed (op : Builder.chain_op St Obj) h b B uv hd :
  well_formed h b B uv hd →
  ∃ b' h' B' uv' hd',
    call op b h = Some (b', h') ∧ well_formed h' b' B' uv' hd'.
Proof.
  intros Hwf. pose proof Hwf as (HB & Huv & Hhd & _ & Hnu & Hnh & Hcan).
  destruct (new_locations_fresh h) as (_ & _ & _ & Hne).
  destruct (Builder.err B) as [e|] eqn:Herr.
  - destruct (call_is_chained query_Values base64_EncodeToString op) as (set & _ & Hcall).
    rewrite Hcall, (chained_run set h b B uv hd HB Huv Hhd). simpl. rewrite Herr.
    rewrite cloned_with_builder by done.
    eexists _, _, _, _, _. split; [reflexivity |].
    by apply with_builder_well_formed.
  - rewrite (call_run op h b B uv hd Hwf Herr).
    destruct (op_maps_well_formed op uv hd Hnu Hnh Hcan) as (H1 & H2 & H3).
    destruct (op_fields_maps op (copied B (new_query h) (new_header h))) as [Hf1 Hf2].
    eexists _, _, _, _, _. split; [reflexivity |].
    by apply with_builder_well_formed.
Qed.

(** X17. In whatever heap it is called, [New] returns a well-formed
    builder with no query parameter, no header and no deferred error,
    at an address that was free and with two maps at addresses that were
    free: every struct and map of the heap is left as it was. The
    builder carries the defaults of the package: no method and no path,
    the expected status 200, the content type [application/json], a
    timeout of ten seconds, tracing and both loggings on, certificate
    checks on, no transport of its own. *)
Theorem New_well_formed (defaultCodec : Builder.Codec Obj) h :
  ∃ b' h' B',
    Builder.New defaultCodec h = Some (b', h') ∧
    well_formed h' b' B' ∅ ∅ ∧
    Builder.builders h !! b' = None ∧
    Builder.maps h !! Builder.urlValues B' = None ∧
    Builder.maps h !! Builder.header B' = None ∧
    Builder.unchanged h h' ∧
    Builder.err B' = None ∧ Builder.method B' = "" ∧ Builder.path B' = "" ∧
    Builder.baseURL B' = "" ∧ Builder.codec B' = defaultCodec ∧
    Builder.req B' = None ∧ Builder.resp B' = None ∧
    Builder.expectedStatusCodes B' = [200] ∧
    Builder.contentType B' = ContentTypeJson ∧
    Builder.timeout B' = Second * 10 ∧
    Builder.tracing B' = true ∧ Builder.insecure B' = false ∧
    Builder.loggingReq B' = true ∧ Builder.loggingResp B' = true ∧
    Builder.transport B' = None.
Proof.
  unfold Builder.New, Builder.hbind, Builder.make_map, Builder.new_builder. simpl.
  eexists _, _, _. split; [reflexivity |]. simpl.
  set (l1 := fresh (dom (Builder.maps h))).
  set (l2 := fresh (dom (<[l1 := ∅]> (Builder.maps h)))).
  assert (Builder.maps h !! l1 = None) as Hl1 by apply not_elem_of_dom, is_fresh.
  assert (l2 ∉ dom (<[l1 := (∅ : gmap string (list string))]> (Builder.maps h)))
    as Hfresh by apply is_fresh.
  rewrite dom_insert, not_elem_of_union, not_elem_of_singleton in Hfresh.
  destruct Hfresh as [Hne Hl2]. apply not_elem_of_dom in Hl2.
  assert (l1 ≠ l2) as Hne' by congruence.
  split; [| split; [| split; [| split; [| split]]]].
  - unfold well_formed. simpl.
    split; [apply lookup_insert_eq |]. simpl.
    rewrite lookup_insert_ne by done. rewrite !lookup_insert_eq.
    split_and!; try done; try apply canonical_keys_empty;
      intros k; by rewrite lookup_empty.
  - apply not_elem_of_dom, is_fresh.
  - exact Hl1.
  - exact Hl2.
  - split; simpl.
    + intros l B HlB. rewrite lookup_insert_ne; [done |].
      intros <-. assert (Builder.builders h !! fresh (dom (Builder.builders h)) = None)
        as Hnone by apply not_elem_of_dom, is_fresh.
      congruence.
    + intros l m Hlm. rewrite !lookup_insert_ne; [done | congruence | congruence].
  - simpl. split_and!; reflexivity.
Qed.

End ChainingFurther.

Section ChainingContent.

Context {St Obj : Type}.
Variable base64_EncodeToString : string → string.

Implicit Types (h : Builder.Heap St Obj) (B : Builder.builder St Obj)
  (uv hd : gmap string (list string)).

(** X10. [WithQueryString] adds its value to a copy of the query
    parameters: in the builder it returns, the values of the key are the
    values the receiver has for it followed by the new value, and every
    other key has the values it has in the receiver; the header is that
    of the receiver. *)
Theorem WithQueryString_appends (key value : string) h b B uv hd :
  well_formed h b B uv hd →
  Builder.err B = None →
  ∃ b' h' B' uv',
    Builder.WithQueryString key value b h = Some (b', h') ∧
    well_formed h' b' B' uv' hd ∧
    uv' !! key = Some (default [] (uv !! key) ++ [value]) ∧
    (∀ k, k ≠ key → uv' !! k = uv !! k).
Proof.
  intros Hwf Herr.
  pose proof (call_run (λ _, (∅, None)) (λ auth, auth) (Builder.OpWithQueryString key value)
                h b B uv hd Hwf Herr) as Hrun.
  cbn [Builder.call op_fields op_query op_header] in Hrun.
  destruct Hwf as (HB & Huv & Hhd & _ & Hnu & Hnh & Hcan).
  destruct (new_locations_fresh h) as (_ & _ & _ & Hne).
  eexists _, _, _, _. split; [exact Hrun |]. split_and!.
  - apply with_builder_well_formed; auto using Values_Add_no_empty.
  - rewrite Values_Add_lookup. by rewrite decide_True.
  - intros k Hk. rewrite Values_Add_lookup. by rewrite decide_False.
Qed.

(** X11. [WithHeader] adds its value to a copy of the header, under the
    canonical form of the key: the values of that key are those of the
    receiver followed by the new value, the other keys and the query
    parameters are those of the receiver. *)
Theorem WithHeader_appends (key value : string) h b B uv hd :
  well_formed h b B uv hd →
  Builder.err B = None →
  ∃ b' h' B' hd',
    Builder.WithHeader key value b h = Some (b', h') ∧
    well_formed h' b' B' uv hd' ∧
    hd' !! CanonicalMIMEHeaderKey key
    = Some (default [] (hd !! CanonicalMIMEHeaderKey key) ++ [value]) ∧
    (∀ k, k ≠ CanonicalMIMEHeaderKey key → hd' !! k = hd !! k).
Proof.
  intros Hwf Herr.
  pose proof (call_run (λ _, (∅, None)) (λ auth, auth) (Builder.OpWithHeader key value)
                h b B uv hd Hwf Herr) as Hrun.
  cbn [Builder.call op_fields op_query op_header] in Hrun.
  destruct Hwf as (HB & Huv & Hhd & _ & Hnu & Hnh & Hcan).
  destruct (new_locations_fresh h) as (_ & _ & _ & Hne).
  eexists _, _, _, _. split; [exact Hrun |]. split_and!.
  - apply with_builder_well_formed; auto using Header_Add_canonical.
    by apply Values_Add_no_empty.
  - unfold Header_Add. rewrite Values_Add_lookup. by rewrite decide_True.
  - intros k Hk. unfold Header_Add. rewrite Values_Add_lookup. by rewrite decide_False.
Qed.

(** X12. [WithBasicAuth] replaces whatever the header of the receiver
    holds under [Authorization]: the builder it returns has exactly one
    value there, [Basic ] followed by the base64 form of
    [username:password]; every other key is as in the receiver. *)
Theorem WithBasicAuth_replaces (username password : string) h b B uv hd :
  well_formed h b B uv hd →
  Builder.err B = None →
  ∃ b' h' B' hd',
    Builder.WithBasicAuth base64_EncodeToString username password b h = Some (b', h') ∧
    well_formed h' b' B' uv hd' ∧
    hd' !! "Authorization"
    = Some ["Basic " +:+ base64_EncodeToString (username +:+ ":" +:+ password)] ∧
    (∀ k, k ≠ "Authorization" → hd' !! k = hd !! k).
Proof.
  intros Hwf Herr.
  pose proof (call_run (λ _, (∅, None)) base64_EncodeToString
                (Builder.OpWithBasicAuth username password) h b B uv hd Hwf Herr) as Hrun.
  cbn [Builder.call op_fields op_query op_header] in Hrun.
  destruct Hwf as (HB & Huv & Hhd & _ & Hnu & Hnh & Hcan).
  destruct (new_locations_fresh h) as (_ & _ & _ & Hne).
  eexists _, _, _, _. split; [exact Hrun |]. split_and!.
  - apply with_builder_well_formed;
      auto using Header_Set_canonical, Header_Set_no_empty.
  - rewrite Header_Set_lookup. by rewrite decide_True.
  - intros k Hk. rewrite Header_Set_lookup. by rewrite decide_False.
Qed.

End ChainingContent.

(** ** The builder: deferred errors and the built request *)

Section BuildFurther.

Context {St Obj : Type}.
Variable query_Values : Obj → gmap string (list string) * option error.
Variable base64_EncodeToString : string → string.
Variable url_Parse : string → Builder.url_URL + error.
Variable url_ParseQuery : string → gmap string (list string).
Variable url_Encode : gmap string (list string) → string.
Variable url_String : Builder.url_URL → string.
Variable http_NewRequest_err : string → string → option error.
Variable defaultTransport insecureTransport : RoundTripper St.
Variable os_Args0 : string.
Variable otelhttp_NewTransport : RoundTripper St → string → RoundTripper St.

Local Abbreviation call := (@Builder.call St Obj query_Values base64_EncodeToString).
Local Abbreviation BuildHTTPReq :=
  (@Builder.BuildHTTPReq St Obj url_Parse url_ParseQuery url_Encode url_String
     http_NewRequest_err).
Local Abbreviation BuildTransport :=
  (@Builder.BuildTransport St Obj defaultTransport insecureTransport os_Args0
     otelhttp_NewTransport).

Implicit Types (h : Builder.Heap St Obj) (B : Builder.builder St Obj)
  (uv hd : gmap string (list string)).

Lemma deferred_error_fails_build ctx h b B e :
  Builder.builders h !! b = Some B →
  Builder.err B = Some e →
  BuildHTTPReq ctx b h = Some (inr e, h) ∧ BuildTransport ctx b h = Some (inr e, h).
Proof.
  intros HB He.
  unfold Builder.BuildHTTPReq, Builder.BuildTransport, Builder.hbind, Builder.deref,
    Builder.hret.
  by rewrite HB, He.
Qed.

(** X13. A deferred error is sticky: a chaining method called on a
    builder that carries one sets nothing. It returns a copy of the
    receiver (the same fields, the same error, copies of the two maps),
    and [BuildHTTPReq] and [BuildTransport] on that copy return the
    error. *)
Theorem chaining_keeps_deferred_error (op : Builder.chain_op St Obj) ctx h b B uv hd e :
  Builder.builders h !! b = Some B →
  Builder.maps h !! Builder.urlValues B = Some uv →
  Builder.maps h !! Builder.header B = Some hd →
  Builder.err B = Some e →
  ∃ b' h',
    call op b h = Some (b', h') ∧
    Builder.builders h' !! b' = Some (copied B (new_query h) (new_header h)) ∧
    Builder.err (copied B (new_query h) (new_header h)) = Some e ∧
    BuildHTTPReq ctx b' h' = Some (inr e, h') ∧
    BuildTransport ctx b' h' = Some (inr e, h').
Proof.
  intros HB Huv Hhd He.
  destruct (call_is_chained query_Values base64_EncodeToString op) as (set & _ & Hcall).
  rewrite Hcall, (chained_run set h b B uv hd HB Huv Hhd). simpl. rewrite He.
  eexists _, _. split; [reflexivity |].
  assert (Builder.builders (cloned h B (new_struct h) (new_query h) (new_header h) uv hd)
          !! new_struct h = Some (copied B (new_query h) (new_header h))) as Hnew
    by apply lookup_insert_eq.
  split; [exact Hnew |]. split; [reflexivity |].
  exact (deferred_error_fails_build ctx _ _ _ e Hnew He).
Qed.

(** X14. When the conversion of [WithQueryStringObj] fails, the builder
    it returns carries the error of the conversion, and [BuildHTTPReq]
    and [BuildTransport] on it return that error. *)
Theorem WithQueryStringObj_defers_error (obj : Obj) ctx h b B uv hd values e :
  well_formed h b B uv hd →
  Builder.err B = None →
  query_Values obj = (values, Some e) →
  ∃ b' h' B',
    Builder.WithQueryStringObj query_Values obj b h = Some (b', h') ∧
    Builder.builders h' !! b' = Some B' ∧
    Builder.err B' = Some e ∧
    BuildHTTPReq ctx b' h' = Some (inr e, h') ∧
    BuildTransport ctx b' h' = Some (inr e, h').
Proof.
  intros Hwf Herr Hobj.
  pose proof (call_run query_Values base64_EncodeToString
                (Builder.OpWithQueryStringObj obj) h b B uv hd Hwf Herr) as Hrun.
  cbn [Builder.call op_fields op_query op_header] in Hrun. rewrite Hobj in Hrun.
  cbn [fst snd] in Hrun.
  eexists _, _, _. split; [exact Hrun |].
  assert (Builder.builders
            (with_builder h (new_struct h)
               (Builder.with_err (Some e) (copied B (new_query h) (new_header h)))
               (new_query h) (new_header h)
               (range_into Values_Add (map_to_list values) uv) hd)
          !! new_struct h
          = Some (Builder.with_err (Some e) (copied B (new_query h) (new_header h))))
    as Hnew by apply lookup_insert_eq.
  split; [exact Hnew |]. split; [reflexivity |].
  exact (deferred_error_fails_build ctx _ _ _ e Hnew eq_refl).
Qed.

(** The header [BuildHTTPReq] starts from: one value for every key. *)
Lemma range_into_Header_Set_single kvs (dst : gmap string (list string)) :
  (∀ k vs, dst !! k = Some vs → length vs = 1%nat) →
  ∀ k vs, range_into Header_Set kvs dst !! k = Some vs → length vs = 1%nat.
Proof.
  revert dst. induction kvs as [|[k0 vs0] kvs IH]; intros dst Hdst; [done |].
  rewrite range_into_cons. apply IH. clear IH.
  revert dst Hdst. induction vs0 as [|v vs0 IH]; intros dst Hdst; [done |].
  simpl. apply IH. intros k vs. rewrite Header_Set_lookup.
  destruct (decide _); [by intros [= <-] | apply Hdst].
Qed.

(** X15. The request that [BuildHTTPReq] builds has exactly one value
    for every key of its header, and a content type that is not empty,
    so that [JsonTransport] delegates it unchanged. *)
Theorem BuildHTTPReq_header_single_valued ctx h b B httpReq h' :
  Builder.builders h !! b = Some B →
  BuildHTTPReq ctx b h = Some (inl httpReq, h') →
  (∀ k vs, ReqHeader httpReq !! k = Some vs → length vs = 1%nat) ∧
  Header_Get ContentTypeKey (ReqHeader httpReq) ≠ "" ∧
  (∀ next : RoundTripper St, JsonTransport next httpReq = next httpReq).
Proof.
  intros HB Hrun.
  destruct (BuildHTTPReq_inv url_Parse url_ParseQuery url_Encode url_String
              http_NewRequest_err _ _ _ _ _ _ HB Hrun)
    as (urlObj & Q2 & hd & _ & _ & _ & _ & _ & Hheaders).
  simpl in Hheaders.
  set (headers := range_into Header_Set (map_to_list hd) ∅) in *.
  assert (∀ k vs, headers !! k = Some vs → length vs = 1%nat) as Hsingle.
  { apply range_into_Header_Set_single. intros k vs. by rewrite lookup_empty. }
  assert (Header_Get ContentTypeKey (ReqHeader httpReq) ≠ "") as Hct.
  { rewrite Hheaders.
    destruct (String.eqb_spec (Header_Get ContentTypeKey headers) "") as [Hget|Hget];
      [| done].
    unfold Header_Get. rewrite Header_Set_lookup. rewrite decide_True by done. simpl.
    destruct (String.eqb_spec (Builder.contentType B) ""); [discriminate | done]. }
  split_and!; [| done |].
  - rewrite Hheaders.
    destruct (String.eqb (Header_Get ContentTypeKey headers) ""); [| done].
    intros k vs. rewrite Header_Set_lookup.
    destruct (decide _); [by intros [= <-] | apply Hsingle].
  - intros next. unfold JsonTransport.
    destruct (String.eqb_spec (Header_Get ContentTypeKey (ReqHeader httpReq)) "");
      [done | reflexivity].
Qed.

(** X16. When the header of the builder has no [Content-Type], the
    built request carries the content type of the builder, or
    [application/json] when that is the empty string. *)
Theorem BuildHTTPReq_default_content_type ctx h b B hd httpReq h' :
  Builder.builders h !! b = Some B →
  Builder.maps h !! Builder.header B = Some hd →
  Builder.canonical_keys hd →
  hd !! ContentTypeKey = None →
  BuildHTTPReq ctx b h = Some (inl httpReq, h') →
  ReqHeader httpReq !! ContentTypeKey
  = Some [if String.eqb (Builder.contentType B) "" then ContentTypeJson
          else Builder.contentType B].
Proof.
  intros HB Hhd Hcan Hnone Hrun.
  destruct (BuildHTTPReq_inv url_Parse url_ParseQuery url_Encode url_String
              http_NewRequest_err _ _ _ _ _ _ HB Hrun)
    as (urlObj & Q2 & hd' & _ & _ & Hhd' & _ & _ & Hheaders).
  rewrite Hhd in Hhd'. injection Hhd' as <-.
  simpl in Hheaders. rewrite Hheaders.
  assert (range_into Header_Set (map_to_list hd) ∅ !! ContentTypeKey = None) as Hset.
  { rewrite range_into_Header_Set_map by done. by rewrite Hnone, lookup_empty. }
  unfold Header_Get.
  change (CanonicalMIMEHeaderKey ContentTypeKey) with ContentTypeKey.
  rewrite Hset. simpl.
  rewrite Header_Set_lookup. by rewrite decide_True.
Qed.

End BuildFurther.

(** *** The further properties of the builder on concrete chains *)

Lemma no_empty_values_empty : Builder.no_empty_values ∅.
Proof. intros k. by rewrite lookup_empty. Qed.

Lemma no_empty_values_singleton (K v : string) (vs : list string) :
  Builder.no_empty_values {[K := v :: vs]}.
Proof. intros k Hk. by apply lookup_singleton_Some in Hk as [_ ?]. Qed.

Ltac fixture_well_formed :=
  unfold well_formed; split_and!;
    [ vm_compute; reflexivity | vm_compute; reflexivity | vm_compute; reflexivity
    | by vm_compute
    | first [apply no_empty_values_empty | apply no_empty_values_singleton]
    | first [apply no_empty_values_empty | apply no_empty_values_singleton]
    | first [apply canonical_keys_empty
            | apply canonical_keys_singleton; vm_compute; reflexivity] ].

Lemma chaining_keeps_well_formed_witness :
  let op := Builder.OpWithHeaders {["accept" := ["text/html"]]} in
  well_formed chain_token.2 chain_token.1 (struct_of chain_token) ∅
    {["X-Token" := ["a"; "b"]]} ∧
  ∃ b' h' B' uv' hd',
    Builder.call (λ _ : unit, (∅, None)) (λ s, s) op chain_token.1 chain_token.2
    = Some (b', h') ∧
    well_formed h' b' B' uv' hd'.
Proof.
  intros op.
  assert (well_formed chain_token.2 chain_token.1 (struct_of chain_token) ∅
            {["X-Token" := ["a"; "b"]]}) as Hwf by fixture_well_formed.
  split; [exact Hwf |].
  exact (chaining_keeps_well_formed (λ _ : unit, (∅, None)) (λ s, s) op
           chain_token.2 chain_token.1 (struct_of chain_token) ∅
           {["X-Token" := ["a"; "b"]]} Hwf).
Defined.

Lemma WithQueryString_appends_witness :
  let uv : gmap string (list string) := {["q1" := ["c"]]} in
  well_formed chain_query.2 chain_query.1 (struct_of chain_query) uv ∅ ∧
  Builder.err (struct_of chain_query) = None ∧
  ∃ b' h' B' uv',
    Builder.WithQueryString "q1" "d" chain_query.1 chain_query.2 = Some (b', h') ∧
    well_formed h' b' B' uv' ∅ ∧
    uv' !! "q1" = Some (default [] (uv !! "q1") ++ ["d"]) ∧
    (∀ k, k ≠ "q1" → uv' !! k = uv !! k).
Proof.
  intros uv.
  assert (well_formed chain_query.2 chain_query.1 (struct_of chain_query) uv ∅) as Hwf
    by fixture_well_formed.
  assert (Builder.err (struct_of chain_query) = None) as Herr by (vm_compute; reflexivity).
  split; [exact Hwf |]. split; [exact Herr |].
  exact (WithQueryString_appends "q1" "d" chain_query.2 chain_query.1
           (struct_of chain_query) uv ∅ Hwf Herr).
Defined.

Lemma WithHeader_appends_witness :
  let hd : gmap string (list string) := {["X-Token" := ["a"; "b"]]} in
  well_formed chain_token.2 chain_token.1 (struct_of chain_token) ∅ hd ∧
  Builder.err (struct_of chain_token) = None ∧
  ∃ b' h' B' hd',
    Builder.WithHeader "x-token" "c" chain_token.1 chain_token.2 = Some (b', h') ∧
    well_formed h' b' B' ∅ hd' ∧
    hd' !! CanonicalMIMEHeaderKey "x-token"
    = Some (default [] (hd !! CanonicalMIMEHeaderKey "x-token") ++ ["c"]) ∧
    (∀ k, k ≠ CanonicalMIMEHeaderKey "x-token" → hd' !! k = hd !! k).
Proof.
  intros hd.
  assert (well_formed chain_token.2 chain_token.1 (struct_of chain_token) ∅ hd) as Hwf
    by fixture_well_formed.
  assert (Builder.err (struct_of chain_token) = None) as Herr by (vm_compute; reflexivity).
  split; [exact Hwf |]. split; [exact Herr |].
  exact (WithHeader_appends "x-token" "c" chain_token.2 chain_token.1
           (struct_of chain_token) ∅ hd Hwf Herr).
Defined.

Lemma WithBasicAuth_replaces_witness :
  let hd : gmap string (list string) := {["X-Token" := ["a"; "b"]]} in
  well_formed chain_token.2 chain_token.1 (struct_of chain_token) ∅ hd ∧
  Builder.err (struct_of chain_token) = None ∧
  ∃ b' h' B' hd',
    Builder.WithBasicAuth (λ s, s) "user" "secret" chain_token.1 chain_token.2
    = Some (b', h') ∧
    well_formed h' b' B' ∅ hd' ∧
    hd' !! "Authorization" = Some ["Basic " +:+ ("user" +:+ ":" +:+ "secret")] ∧
    (∀ k, k ≠ "Authorization" → hd' !! k = hd !! k).
Proof.
  intros hd.
  assert (well_formed chain_token.2 chain_token.1 (struct_of chain_token) ∅ hd) as Hwf
    by fixture_well_formed.
  assert (Builder.err (struct_of chain_token) = None) as Herr by (vm_compute; reflexivity).
  split; [exact Hwf |]. split; [exact Herr |].
  exact (WithBasicAuth_replaces (λ s, s) "user" "secret" chain_token.2 chain_token.1
           (struct_of chain_token) ∅ hd Hwf Herr).
Defined.

Lemma chaining_keeps_deferred_error_witness :
  let e := errorString "query: Values() expects struct input" in
  let B := struct_of chain_failed in
  let h := chain_failed.2 in
  Builder.builders h !! chain_failed.1 = Some B ∧
  Builder.maps h !! Builder.urlValues B = Some ∅ ∧
  Builder.maps h !! Builder.header B = Some ∅ ∧
  Builder.err B = Some e ∧
  ∃ b' h',
    Builder.call failing_Values (λ s, s) (Builder.OpPost "/login") chain_failed.1 h
    = Some (b', h') ∧
    Builder.builders h' !! b' = Some (copied B (new_query h) (new_header h)) ∧
    Builder.err (copied B (new_query h) (new_header h)) = Some e ∧
    example_BuildHTTPReq background b' h' = Some (inr e, h') ∧
    Builder.BuildTransport (observe (scripted [])) (observe (scripted [])) "httpx.test"
      no_tracing background b' h' = Some (inr e, h').
Proof.
  intros e B h.
  assert (Builder.builders h !! chain_failed.1 = Some B) as HB by (vm_compute; reflexivity).
  assert (Builder.maps h !! Builder.urlValues B = Some ∅) as Huv by (vm_compute; reflexivity).
  assert (Builder.maps h !! Builder.header B = Some ∅) as Hhd by (vm_compute; reflexivity).
  assert (Builder.err B = Some e) as He by (vm_compute; reflexivity).
  split; [exact HB |]. split; [exact Huv |]. split; [exact Hhd |]. split; [exact He |].
  exact (chaining_keeps_deferred_error failing_Values (λ s, s) example_Parse
           example_ParseQuery example_Encode example_String example_NewRequest_err
           (observe (scripted [])) (observe (scripted [])) "httpx.test" no_tracing
           (Builder.OpPost "/login") background h chain_failed.1 B ∅ ∅ e HB Huv Hhd He).
Defined.

Lemma WithQueryStringObj_defers_error_witness :
  let e := errorString "query: Values() expects struct input" in
  well_formed chain_new.2 chain_new.1 (struct_of chain_new) ∅ ∅ ∧
  Builder.err (struct_of chain_new) = None ∧
  failing_Values tt = (∅, Some e) ∧
  ∃ b' h' B',
    Builder.WithQueryStringObj failing_Values tt chain_new.1 chain_new.2 = Some (b', h') ∧
    Builder.builders h' !! b' = Some B' ∧
    Builder.err B' = Some e ∧
    example_BuildHTTPReq background b' h' = Some (inr e, h') ∧
    Builder.BuildTransport (observe (scripted [])) (observe (scripted [])) "httpx.test"
      no_tracing background b' h' = Some (inr e, h').
Proof.
  intros e.
  assert (well_formed chain_new.2 chain_new.1 (struct_of chain_new) ∅ ∅) as Hwf
    by fixture_well_formed.
  assert (Builder.err (struct_of chain_new) = None) as Herr by (vm_compute; reflexivity).
  split; [exact Hwf |]. split; [exact Herr |]. split; [reflexivity |].
  exact (WithQueryStringObj_defers_error failing_Values (λ s, s) example_Parse
           example_ParseQuery example_Encode example_String example_NewRequest_err
           (observe (scripted [])) (observe (scripted [])) "httpx.test" no_tracing
           tt background chain_new.2 chain_new.1 (struct_of chain_new) ∅ ∅ ∅ e
           Hwf Herr eq_refl).
Defined.

Lemma BuildHTTPReq_header_single_valued_witness :
  let httpReq := request_of chain_token in
  Builder.builders chain_token.2 !! chain_token.1 = Some (struct_of chain_token) ∧
  example_BuildHTTPReq background chain_token.1 chain_token.2
  = Some (inl httpReq, chain_token.2) ∧
  (∀ k vs, ReqHeader httpReq !! k = Some vs → length vs = 1%nat) ∧
  Header_Get ContentTypeKey (ReqHeader httpReq) ≠ "" ∧
  (∀ next : RoundTripper nat, JsonTransport next httpReq = next httpReq).
Proof.
  intros httpReq.
  assert (Builder.builders chain_token.2 !! chain_token.1 = Some (struct_of chain_token))
    as HB by (vm_compute; reflexivity).
  assert (example_BuildHTTPReq background chain_token.1 chain_token.2
          = Some (inl httpReq, chain_token.2)) as Hrun by (vm_compute; reflexivity).
  split; [exact HB |]. split; [exact Hrun |].
  exact (BuildHTTPReq_header_single_valued example_Parse example_ParseQuery example_Encode
           example_String example_NewRequest_err background chain_token.2 chain_token.1
           (struct_of chain_token) httpReq chain_token.2 HB Hrun).
Defined.

Lemma BuildHTTPReq_default_content_type_witness :
  let httpReq := request_of chain_token in
  let B := struct_of chain_token in
  let hd : gmap string (list string) := {["X-Token" := ["a"; "b"]]} in
  Builder.builders chain_token.2 !! chain_token.1 = Some B ∧
  Builder.maps chain_token.2 !! Builder.header B = Some hd ∧
  Builder.canonical_keys hd ∧
  hd !! ContentTypeKey = None ∧
  example_BuildHTTPReq background chain_token.1 chain_token.2
  = Some (inl httpReq, chain_token.2) ∧
  ReqHeader httpReq !! ContentTypeKey
  = Some [if String.eqb (Builder.contentType B) "" then ContentTypeJson
          else Builder.contentType B].
Proof.
  intros httpReq B hd.
  assert (Builder.builders chain_token.2 !! chain_token.1 = Some B) as HB
    by (vm_compute; reflexivity).
  assert (Builder.maps chain_token.2 !! Builder.header B = Some hd) as Hhd
    by (vm_compute; reflexivity).
  assert (Builder.canonical_keys hd) as Hcan
    by (apply canonical_keys_singleton; vm_compute; reflexivity).
  assert (hd !! ContentTypeKey = None) as Hnone by (vm_compute; reflexivity).
  assert (example_BuildHTTPReq background chain_token.1 chain_token.2
          = Some (inl httpReq, chain_token.2)) as Hrun by (vm_compute; reflexivity).
  split; [exact HB |]. split; [exact Hhd |]. split; [exact Hcan |].
  split; [exact Hnone |]. split; [exact Hrun |].
  exact (BuildHTTPReq_default_content_type example_Parse example_ParseQuery example_Encode
           example_String example_NewRequest_err background chain_token.2 chain_token.1
           B hd httpReq chain_token.2 HB Hhd Hcan Hnone Hrun).
Defined.

(** ** Further wrappers, shared transports and interceptors *)

Section MoreWrapperProperties.

Context {St : Type}.
Variable os_Args0 : string.
Variable otelhttp_NewTransport : RoundTripper St → string → RoundTripper St.
Implicit Types (f : Request → St → RTResult * St) (next : RoundTripper St) (w : World St).

Lemma foldl_Header_Add_prefix k0 (vs0 : list string) (dst : Header) k vs :
  dst !! k = Some vs →
  ∃ extra, foldl (λ d value, Header_Add k0 value d) dst vs0 !! k = Some (vs ++ extra).
Proof.
  revert dst vs. induction vs0 as [|v vs0 IH]; intros dst vs Hk; simpl.
  - exists []. by rewrite app_nil_r.
  - unfold Header_Add at 2.
    destruct (decide (k = CanonicalMIMEHeaderKey k0)) as [->|Hne].
    + destruct (IH (Values_Add (CanonicalMIMEHeaderKey k0) v dst) (vs ++ [v]))
        as [extra Hextra].
      { rewrite Values_Add_lookup, decide_True by done. by rewrite Hk. }
      exists (v :: extra). rewrite Hextra. by rewrite <- app_assoc.
    + apply IH. rewrite Values_Add_lookup. by rewrite decide_False.
Qed.

Lemma range_into_Header_Add_prefix kvs (dst : Header) k vs :
  dst !! k = Some vs →
  ∃ extra, range_into Header_Add kvs dst !! k = Some (vs ++ extra).
Proof.
  revert dst vs. induction kvs as [|[k0 vs0] kvs IH]; intros dst vs Hk.
  - exists []. by rewrite app_nil_r.
  - rewrite range_into_cons.
    destruct (foldl_Header_Add_prefix k0 vs0 dst k vs Hk) as [e1 H1].
    destruct (IH _ _ H1) as [e2 H2].
    exists (e1 ++ e2). rewrite H2. by rewrite <- app_assoc.
Qed.

(** X19. [HeadersTransport] only adds to the header of the request:
    the values the request has for a key stay where they are, with the
    values of the wrapper after them. When the keys of the wrapper's
    header are canonical, the request handed on has for every key the
    values of the request followed by those of the wrapper, whatever the
    order in which the map is ranged over. Method, URL, body and context
    are those of the request. *)
Theorem HeadersTransport_appends (header : Header) f req w :
  ∃ req',
    HeadersTransport header (observe f) req w = observe f req' w ∧
    Method req' = Method req ∧ URL req' = URL req ∧
    Body req' = Body req ∧ Ctx req' = Ctx req ∧
    (∀ k vs, ReqHeader req !! k = Some vs →
             ∃ extra, ReqHeader req' !! k = Some (vs ++ extra)) ∧
    (Builder.canonical_keys header →
     ∀ k, default [] (ReqHeader req' !! k)
          = default [] (ReqHeader req !! k) ++ default [] (header !! k)).
Proof.
  unfold HeadersTransport. eexists. split; [reflexivity |].
  cbn [Method URL Body Ctx ReqHeader set_ReqHeader].
  split_and!; try done.
  - intros k vs. apply range_into_Header_Add_prefix.
  - intros Hcan k. rewrite range_into_Header_Add_canonical_keys.
    + apply range_into_Values_Add_map.
    + intros k' Hk'. apply Hcan.
      apply list_elem_of_fmap in Hk' as [[k1 vs] [-> Hin]].
      apply elem_of_map_to_list in Hin. by eexists.
Qed.

(** X20. [DefaultTransportWrapper] puts the timeout outermost and the
    check of the status innermost: a call derives a context with a
    deadline of ten seconds, runs tracing, logging, the JSON content
    type and the check for status 200 around the wrapped transport with
    that context, cancels the context, and drops the response when the
    error is not nil. *)
Theorem DefaultTransportWrapper_stack next req w :
  ∃ ctx' w0,
    context_WithTimeout (Ctx req) (Second * 10) w = (Some ctx', w0) ∧
    events w0 = events w ++ [EvWithTimeout (Second * 10)] ∧
    deadline ctx' = Some (match deadline (Ctx req) with
                          | Some p => Z.min p (now w + Second * 10)
                          | None => now w + Second * 10
                          end) ∧
    let rest := TracingTransport os_Args0 otelhttp_NewTransport ""
                  (LoggingTransport true true
                     (JsonTransport (StatusCodeTransport 200 next))) in
    DefaultTransportWrapper os_Args0 otelhttp_NewTransport next req w
    = (final_step (rest (set_Ctx ctx' req) w0).1,
       (emit EvCancel (rest (set_Ctx ctx' req) w0).2).2).
Proof.
  destruct (TimeoutTransport_bracket defaultHandlerTimeout
              (default_layers os_Args0 otelhttp_NewTransport next) req w)
    as (ctx' & w0 & Hctx & Hev & Hrun).
  change (if defaultHandlerTimeout <=? 0 then defaultTransprtTimeout
          else defaultHandlerTimeout) with (Second * 10) in *.
  exists ctx', w0. split; [exact Hctx |]. split; [exact Hev |].
  split.
  { unfold context_WithTimeout in Hctx. by injection Hctx as <- _. }
  intros rest.
  change (DefaultTransportWrapper os_Args0 otelhttp_NewTransport next req w)
    with (WrapTransport
            (TimeoutTransport defaultHandlerTimeout
               (default_layers os_Args0 otelhttp_NewTransport next)) [] req w).
  rewrite WrapTransport_final_step, Hrun. reflexivity.
Qed.

End MoreWrapperProperties.

Section SharedProperties.

Context {St : Type}.
Variable http_Transport http_Transport_insecure : RoundTripper St.

Local Abbreviation Transport := (Shared.Transport http_Transport).
Local Abbreviation Client := (Shared.Client http_Transport).
Local Abbreviation after := (Shared.after http_Transport http_Transport_insecure).

Implicit Types (g : Shared.Globals St) (c : Shared.shared_call St)
  (tws : list (TransportWrapper St)).

Lemma after_keeps_transport g c t :
  Shared.transportOnce g = true → Shared.transport g = Some t →
  Shared.transportOnce (after g c) = true ∧ Shared.transport (after g c) = Some t.
Proof.
  intros Honce Ht.
  destruct c as [tws|tws|tws|tws]; unfold Shared.after; simpl.
  - unfold Shared.Once_Do. by rewrite Honce.
  - unfold Shared.Once_Do. by destruct (Shared.insecureTransportOnce g).
  - unfold Shared.Once_Do. by destruct (Shared.clientOnce g).
  - unfold Shared.Once_Do. by destruct (Shared.insecureClientOnce g).
Qed.

Lemma after_keeps_client g c x :
  Shared.clientOnce g = true → Shared.client g = Some x →
  Shared.clientOnce (after g c) = true ∧ Shared.client (after g c) = Some x.
Proof.
  intros Honce Ht.
  destruct c as [tws|tws|tws|tws]; unfold Shared.after; simpl.
  - unfold Shared.Once_Do. by destruct (Shared.transportOnce g).
  - unfold Shared.Once_Do. by destruct (Shared.insecureTransportOnce g).
  - unfold Shared.Once_Do. by rewrite Honce.
  - unfold Shared.Once_Do. by destruct (Shared.insecureClientOnce g).
Qed.

(** X21. The wrappers of the first call of [Transport] are the only
    ones that count: the first call returns the transport built with
    its wrappers, and every later call, after any calls of the four
    shared functions and whatever wrappers it is given, returns that
    same transport. *)
Theorem Transport_first_call_wins g tws1 (cs : list (Shared.shared_call St)) tws :
  Shared.transportOnce g = false →
  (Transport tws1 g).1 = Some (Shared.BuildTransport http_Transport tws1) ∧
  (Transport tws (foldl after (Transport tws1 g).2 cs)).1
  = Some (Shared.BuildTransport http_Transport tws1).
Proof.
  intros Honce.
  assert (Shared.transportOnce (Transport tws1 g).2 = true ∧
          Shared.transport (Transport tws1 g).2
          = Some (Shared.BuildTransport http_Transport tws1)) as [H1 H2].
  { unfold Shared.Transport, Shared.Once_Do. by rewrite Honce. }
  split.
  { unfold Shared.Transport, Shared.Once_Do. by rewrite Honce. }
  revert H1 H2. generalize (Transport tws1 g).2. clear g Honce.
  induction cs as [|c cs IH]; intros g H1 H2; simpl.
  - unfold Shared.Transport, Shared.Once_Do. by rewrite H1.
  - destruct (after_keeps_transport g c _ H1 H2) as [H1' H2']. by apply IH.
Qed.

(** X22. [Client] never applies the wrappers it is given, not even on
    its first call: the client it returns sends every request straight
    to a transport of [net/http] (dropping the response when the error
    is not nil), where [BuildClient] with the same wrappers runs them.
    Every later call, after any calls of the four shared functions,
    returns that same client. *)
Theorem Client_ignores_wrappers g tws (cs : list (Shared.shared_call St)) tws' :
  Shared.clientOnce g = false →
  ∃ x,
    (Client tws g).1 = Some x ∧
    (∀ req w, Shared.ClientTransport x req w
              = (final_step (http_Transport req w).1, (http_Transport req w).2)) ∧
    (∀ req w, Shared.ClientTransport (Shared.BuildClient http_Transport tws) req w
              = WrapTransport (nest (reverse tws) http_Transport) [] req w) ∧
    (Client tws' (foldl after (Client tws g).2 cs)).1 = Some x.
Proof.
  intros Honce.
  exists (Shared.BuildClient http_Transport []).
  assert (Shared.clientOnce (Client tws g).2 = true ∧
          Shared.client (Client tws g).2
          = Some (Shared.BuildClient http_Transport [])) as [H1 H2].
  { unfold Shared.Client, Shared.Once_Do. by rewrite Honce. }
  split_and!.
  - unfold Shared.Client, Shared.Once_Do. by rewrite Honce.
  - intros req w. apply WrapTransport_final_step.
  - intros req w. apply WrapTransport_nest.
  - revert H1 H2. generalize (Client tws g).2. clear g Honce.
    induction cs as [|c cs IH]; intros g H1 H2; simpl.
    + unfold Shared.Client, Shared.Once_Do. by rewrite H1.
    + destruct (after_keeps_client g c _ H1 H2) as [H1' H2']. by apply IH.
Qed.

End SharedProperties.

Section InterceptorProperties.

Context {St : Type}.
Implicit Types (i : RespInterceptor St) (xs ys : list (RespInterceptor St))
  (r : Response) (w : World St).

Lemma ChainedRespInterceptor_app xs ys r w :
  ChainedRespInterceptor (xs ++ ys) r w
  = match ChainedRespInterceptor xs r w with
    | (Some (r', None), w') => ChainedRespInterceptor ys r' w'
    | other => other
    end.
Proof.
  revert r w. induction xs as [|x xs IH]; intros r w; simpl; [done |].
  unfold bind. destruct (x r w) as [[[r1 [e|]]|] w1]; simpl; [done | apply IH | done].
Qed.

(** X23. [ChainedRespInterceptor] runs its interceptors in order, each
    on the response as the one before left it, and stops at the first
    that fails: when the interceptors before [i] succeed and [i] fails,
    the chain returns the error of [i] annotated by [errors.WithStack]
    (its cause is the error of [i]) and the interceptors after [i] do
    not run; when all succeed the chain returns nil. A chain of chains
    is the chain of their interceptors, except that an error is
    annotated once more. *)
Theorem ChainedRespInterceptor_first_failure xs i ys r w r1 w1 :
  ChainedRespInterceptor xs r w = (Some (r1, None), w1) →
  (∀ r2 e w2, i r1 w1 = (Some (r2, Some e), w2) →
     ChainedRespInterceptor (xs ++ i :: ys) r w = (Some (r2, Some (withStack e)), w2) ∧
     Cause (withStack e) = Cause e) ∧
  (∀ r2 w2, i r1 w1 = (Some (r2, None), w2) →
     ChainedRespInterceptor (xs ++ i :: ys) r w = ChainedRespInterceptor ys r2 w2) ∧
  ChainedRespInterceptor (xs ++ ys) r w = ChainedRespInterceptor ys r1 w1 ∧
  ChainedRespInterceptor [ChainedRespInterceptor xs; ChainedRespInterceptor ys] r w
  = match ChainedRespInterceptor ys r1 w1 with
    | (Some (r', Some e), w') => (Some (r', Some (withStack e)), w')
    | other => other
    end.
Proof.
  intros Hxs. split_and!.
  - intros r2 e w2 Hi. rewrite ChainedRespInterceptor_app, Hxs. simpl.
    unfold bind. by rewrite Hi.
  - intros r2 w2 Hi. rewrite ChainedRespInterceptor_app, Hxs. simpl.
    unfold bind. by rewrite Hi.
  - by rewrite ChainedRespInterceptor_app, Hxs.
  - simpl. unfold bind. rewrite Hxs.
    by destruct (ChainedRespInterceptor ys r1 w1) as [[[r' [e|]]|] w'].
Qed.

(** X24. [StatusCodeRangeRespInterceptor] accepts exactly the statuses
    from [codeStart] to [codeEnd], both included (the message of its
    error prints them like an open interval); it rejects every status
    when [codeStart > codeEnd], and with [codeStart = codeEnd] it accepts
    what [StatusCodeRespInterceptor] accepts. Neither touches the
    response or has an effect. *)
Theorem StatusCodeRangeRespInterceptor_inclusive (codeStart codeEnd : Z) r w :
  (codeStart ≤ StatusCode r ≤ codeEnd →
   StatusCodeRangeRespInterceptor codeStart codeEnd r w = (Some (r, None), w)) ∧
  (¬ (codeStart ≤ StatusCode r ≤ codeEnd) →
   StatusCodeRangeRespInterceptor codeStart codeEnd r w
   = (Some (r, Some (errorString ("expected code in (" +:+ fmt_d codeStart +:+ ","
                                  +:+ fmt_d codeEnd +:+ "), got:"
                                  +:+ fmt_d (StatusCode r)))), w)) ∧
  (StatusCodeRespInterceptor codeStart r w = (Some (r, None), w)
   ↔ StatusCodeRangeRespInterceptor codeStart codeStart r w = (Some (r, None), w)).
Proof.
  unfold StatusCodeRangeRespInterceptor, StatusCodeRespInterceptor, ret.
  split_and!.
  - intros [H1 H2].
    replace (StatusCode r <? codeStart) with false by (symmetry; apply Z.ltb_ge; lia).
    replace (codeEnd <? StatusCode r) with false by (symmetry; apply Z.ltb_ge; lia).
    done.
  - intros Hout.
    destruct (Z.ltb_spec (StatusCode r) codeStart); [done |].
    destruct (Z.ltb_spec codeEnd (StatusCode r)); [done | lia].
  - destruct (Z.eqb_spec (StatusCode r) codeStart) as [->|Hne].
    + rewrite Z.ltb_irrefl. done.
    + destruct (Z.ltb_spec (StatusCode r) codeStart); simpl; [done |].
      destruct (Z.ltb_spec codeStart (StatusCode r)); [done | lia].
Qed.

End InterceptorProperties.

(** *** The shared transports and the interceptors on concrete inputs *)

Lemma Transport_first_call_wins_witness :
  let base : RoundTripper nat := observe (scripted [answered 200]) in
  let later := [Shared.CallClient [mark_request]; Shared.CallInsecureTransport []] in
  Shared.transportOnce (Shared.zero (St := nat)) = false ∧
  (Shared.Transport base [mark_request] Shared.zero).1
  = Some (Shared.BuildTransport base [mark_request]) ∧
  (Shared.Transport base []
     (foldl (Shared.after base base) (Shared.Transport base [mark_request] Shared.zero).2
        later)).1
  = Some (Shared.BuildTransport base [mark_request]).
Proof.
  intros base later. split; [reflexivity |].
  apply (Transport_first_call_wins base base Shared.zero [mark_request] later []).
  reflexivity.
Defined.

Lemma Client_ignores_wrappers_witness :
  let base : RoundTripper nat := observe (scripted [answered 200]) in
  Shared.clientOnce (Shared.zero (St := nat)) = false ∧
  ∃ x,
    (Shared.Client base [mark_request] Shared.zero).1 = Some x ∧
    (∀ req w, Shared.ClientTransport x req w
              = (final_step (base req w).1, (base req w).2)) ∧
    (∀ req w, Shared.ClientTransport (Shared.BuildClient base [mark_request]) req w
              = WrapTransport (nest (reverse [mark_request]) base) [] req w) ∧
    (Shared.Client base []
       (foldl (Shared.after base base) (Shared.Client base [mark_request] Shared.zero).2
          [Shared.CallTransport [mark_request]])).1 = Some x.
Proof.
  intros base. split; [reflexivity |].
  apply (Client_ignores_wrappers base base Shared.zero [mark_request]
           [Shared.CallTransport [mark_request]] []).
  reflexivity.
Defined.

(** The client of [Client(mark)] sends the request unmarked, the client
    of [BuildClient(mark)] sends it marked. *)
Example Client_sends_unmarked :
  let base : RoundTripper nat := observe (scripted [answered 200]) in
  let sent (c : option (Shared.http_Client nat)) :=
    match c with
    | Some x => (λ call, ReqHeader call.1 !! "X-Mark")
                  <$> calls (events (Shared.ClientTransport x get_plain world0).2)
    | None => []
    end in
  sent (Shared.Client base [mark_request] Shared.zero).1 = [None] ∧
  sent (Some (Shared.BuildClient base [mark_request])) = [Some ["1"]].
Proof. vm_compute. done. Qed.

Lemma ChainedRespInterceptor_first_failure_witness :
  let xs := [tag_response "a"] in
  let i := StatusCodeRespInterceptor 200 in
  let ys := [tag_response "b"] in
  let r1 := {| StatusCode := 404; RespHeader := {["X-Seen" := ["a"]]};
               RespBody := NopCloser [] |} in
  let e := errorString "expected statuscode:200, got:404" in
  ChainedRespInterceptor xs (status_response 404) world0 = (Some (r1, None), world0) ∧
  i r1 world0 = (Some (r1, Some e), world0) ∧
  ChainedRespInterceptor (xs ++ i :: ys) (status_response 404) world0
  = (Some (r1, Some (withStack e)), world0) ∧
  Cause (withStack e) = Cause e.
Proof.
  intros xs i ys r1 e.
  assert (ChainedRespInterceptor xs (status_response 404) world0
          = (Some (r1, None), world0)) as Hxs by (vm_compute; reflexivity).
  assert (i r1 world0 = (Some (r1, Some e), world0)) as Hi by (vm_compute; reflexivity).
  split; [exact Hxs |]. split; [exact Hi |].
  exact (proj1 (ChainedRespInterceptor_first_failure xs i ys (status_response 404) world0
                  r1 world0 Hxs) r1 e world0 Hi).
Defined.

(** ** Handlers and the recording response writer *)

Section ServerProperties.

Context {RW Req Resp : Type}.
Variable conn_WriteHeader : Z → RW → RW.
Variable conn_Write : bytes → RW → (Z * option error) * RW.
Variable codec_Decode : option ReadCloser → Req → Req * option error.
Variable codec_Encode : Resp → bytes * option error.
Variable new_Req : Req.

Local Abbreviation calls_writer := (Server.calls_writer conn_WriteHeader conn_Write).
Local Abbreviation conn_after := (Server.conn_after conn_WriteHeader conn_Write).
Local Abbreviation recorded := (Server.recorded conn_WriteHeader conn_Write).
Local Abbreviation LoggingHandler := (Server.LoggingHandler (RW := RW)).
Local Abbreviation Handler :=
  (Server.Handler conn_WriteHeader conn_Write codec_Decode codec_Encode new_Req).

Implicit Types (w : World (Server.Srv RW)) (cs : list Server.writer_call)
  (x : Server.responseWriterWrapper) (rw : positive).

Local Abbreviation with_srv := (Server.with_srv (RW := RW)).

Lemma calls_writer_net cs r w :
  calls_writer cs Server.net_writer r w
  = (Some tt, with_srv w (conn_after cs (Server.conn (stub w))) (Server.wrappers (stub w))).
Proof.
  revert w. induction cs as [|[code|data] cs IH]; intros [[c ws] n evs].
  - reflexivity.
  - simpl. unfold bind, Server.net_WriteHeader, bind, Server.get_srv, Server.put_srv.
    simpl. rewrite IH. reflexivity.
  - simpl. unfold bind, Server.net_Write, bind, Server.get_srv. simpl.
    destruct (conn_Write data c) as [res c'] eqn:Hw. simpl.
    unfold bind, Server.put_srv, ret. simpl. rewrite IH. reflexivity.
Qed.

Lemma calls_writer_wrapped cs r w rw x :
  Server.wrappers (stub w) !! rw = Some x →
  calls_writer cs (Server.wrapper_at rw) r w
  = (Some tt,
     with_srv w (conn_after cs (Server.conn (stub w)))
       (<[rw := {| Server.statusCode := Server.last_status cs (Server.statusCode x);
                   Server.buf := Server.buf x ++ recorded cs (Server.conn (stub w)) |}]>
          (Server.wrappers (stub w)))).
Proof.
  revert w x. induction cs as [|[code|data] cs IH]; intros [[c ws] n evs] [st b] Hx;
    simpl in Hx.
  - simpl. unfold ret, Server.with_srv. simpl. rewrite app_nil_r. by rewrite insert_id.
  - simpl. unfold bind at 1.
    unfold Server.rw_WriteHeader, bind, Server.load, bind, Server.get_srv,
      Server.net_WriteHeader, bind, Server.get_srv, Server.put_srv, Server.store,
      bind, Server.get_srv, Server.put_srv, ret. simpl. rewrite Hx. simpl.
    rewrite Hx. simpl.
    erewrite IH by (simpl; apply lookup_insert_eq). unfold Server.with_srv. simpl.
    by rewrite insert_insert_eq.
  - simpl. unfold bind at 1.
    unfold Server.rw_Write, bind, Server.load, bind, Server.get_srv,
      Server.net_Write, bind, Server.get_srv. simpl. rewrite Hx. simpl.
    destruct (conn_Write data c) as [[k [e|]] c'] eqn:Hw; simpl;
      unfold bind, Server.put_srv, ret, Server.store, bind, Server.get_srv,
        Server.put_srv; simpl.
    + erewrite IH by (simpl; exact Hx). reflexivity.
    + rewrite Hx. simpl.
      erewrite IH by (simpl; apply lookup_insert_eq). unfold Server.with_srv. simpl.
      rewrite insert_insert_eq. by rewrite <- app_assoc.
Qed.


Ltac run_srv :=
  unfold bind, Server.load, Server.store, Server.get_srv, Server.put_srv, ret, emit,
    bind, Server.get_srv, Server.put_srv, ret;
  cbn [stub now events fst snd Server.conn Server.wrappers Server.statusCode Server.buf].

(** X25. A [responseWriterWrapper] is transparent to the connection and
    records what it passes on: after any calls of [WriteHeader] and
    [Write] through the wrapper, the connection is as after the same
    calls made on it directly; [Body()] returns the bytes the connection
    took without an error since the wrapper was last emptied (all the
    data written, when the connection takes everything) and empties the
    buffer, so that a second [Body()] returns the empty string;
    [StatusCode()] returns the status of the last [WriteHeader], with
    200 in place of 0, or the status the wrapper had. *)
Theorem wrapper_records cs r w rw x :
  Server.wrappers (stub w) !! rw = Some x →
  let run := calls_writer cs (Server.wrapper_at rw) r w in
  let direct := calls_writer cs Server.net_writer r w in
  run.1 = Some tt ∧
  Server.conn (stub run.2) = Server.conn (stub direct.2) ∧
  events run.2 = events w ∧
  (∀ rw', rw' ≠ rw →
     Server.wrappers (stub run.2) !! rw' = Server.wrappers (stub w) !! rw') ∧
  (Server.rw_Body rw run.2).1
  = Some (string_of_list_byte (Server.buf x ++ recorded cs (Server.conn (stub w)))) ∧
  (Server.rw_Body rw (Server.rw_Body rw run.2).2).1 = Some "" ∧
  (Server.rw_StatusCode rw run.2).1
  = Some (Server.reported (Server.last_status cs (Server.statusCode x))) ∧
  ((∀ data c, (conn_Write data c).1 = (Z.of_nat (length data), None)) →
   recorded cs (Server.conn (stub w)) = Server.written cs).
Proof.
  intros Hx run direct. unfold run, direct.
  rewrite (calls_writer_wrapped cs r w rw x Hx), calls_writer_net.
  cbn [fst snd]. unfold Server.with_srv. cbn [stub events Server.conn Server.wrappers].
  split_and!; try done.
  - intros rw' Hne. by rewrite lookup_insert_ne.
  - unfold Server.rw_Body. run_srv. rewrite lookup_insert_eq. by run_srv.
  - unfold Server.rw_Body. run_srv. rewrite lookup_insert_eq. run_srv.
    rewrite lookup_insert_eq. by run_srv.
  - unfold Server.rw_StatusCode, Server.reported. run_srv. rewrite lookup_insert_eq.
    run_srv. by destruct (_ =? 0).
  - intros Hall. generalize (Server.conn (stub w)). clear Hx run direct.
    induction cs as [|[code|data] cs IH]; intros c; simpl; [done | apply IH |].
    pose proof (Hall data c) as Hw.
    destruct (conn_Write data c) as [[k [e|]] c']; simpl in Hw; [done |].
    injection Hw as ->. rewrite Nat2Z.id, firstn_all. by rewrite IH.
Qed.

Lemma not_upgrade req :
  Header_Get "Connection" (ReqHeader req) ≠ "Upgrade" →
  String.eqb (Header_Get "Connection" (ReqHeader req)) "Upgrade" = false.
Proof. intros Hne. by apply String.eqb_neq. Qed.

(** X26. [LoggingHandler] with both flags on, around a handler that
    writes through the writer it is given: for a request that is not an
    upgrade and whose body can be read, the connection gets the calls of
    the handler, and one record is logged, after the handler has
    returned, with the bytes of the request body, the bytes the
    connection took, and the last status the handler set, 200 when it
    set none. *)
Theorem LoggingHandler_records cs req body w :
  Header_Get "Connection" (ReqHeader req) ≠ "Upgrade" →
  Body req = Some body →
  fault body = None →
  let run := LoggingHandler true true (calls_writer cs) Server.net_writer req w in
  run.1 = Some tt ∧
  Server.conn (stub run.2) = conn_after cs (Server.conn (stub w)) ∧
  events run.2
  = events w ++
    [EvRead (pending body) None;
     EvSlog "serve http req"
       (request_kvs req
        ++ [("req_data", LogString (string_of_list_byte (pending body)))]
        ++ [("resp_data",
             LogString (string_of_list_byte (recorded cs (Server.conn (stub w)))));
            ("statusCode", LogInt (Server.reported (Server.last_status cs 200)))])].
Proof.
  intros Hup Hbody Hfault run. unfold run, Server.LoggingHandler.
  rewrite (not_upgrade req Hup). cbn [negb]. rewrite Hbody.
  fold (request_kvs req).
  destruct w as [[c ws] n evs].
  unfold Server.wrapResponseWriter. unfold bind at 1. run_srv.
  unfold DrainBody. unfold bind at 1. unfold bind at 1. unfold emit at 1. run_srv.
  rewrite Hfault.
  set (rw := fresh (dom ws)).
  destruct (pending body) as [|b0 bs]; cbn [length Nat.ltb Nat.leb]; unfold defer;
    (erewrite calls_writer_wrapped by (cbn [stub Server.wrappers]; apply lookup_insert_eq));
    unfold Server.with_srv;
    cbn [stub now events Server.conn Server.wrappers Server.statusCode Server.buf];
    unfold Server.rw_Body, Server.rw_StatusCode; run_srv;
    rewrite lookup_insert_eq; run_srv; rewrite lookup_insert_eq; run_srv;
    unfold Server.reported;
    destruct (Server.last_status cs 200 =? 0); run_srv;
    rewrite <- ?app_assoc; split_and!; reflexivity.
Qed.

(** X27. When the body of a request that is not an upgrade cannot be
    read, [LoggingHandler] with the logging of request bodies on returns
    without a word: the handler it wraps is not called, nothing is
    written to the connection and no record is logged. *)
Theorem LoggingHandler_unreadable_body (lr : bool) (next : Server.http_Handler RW)
    (wr : Server.ResponseWriter) req body e w :
  Header_Get "Connection" (ReqHeader req) ≠ "Upgrade" →
  Body req = Some body →
  fault body = Some e →
  let run := LoggingHandler true lr next wr req w in
  run.1 = Some tt ∧
  Server.conn (stub run.2) = Server.conn (stub w) ∧
  events run.2 = events w ++ [EvRead (pending body) (Some e)].
Proof.
  intros Hup Hbody Hfault run. unfold run, Server.LoggingHandler.
  rewrite (not_upgrade req Hup). cbn [negb]. rewrite Hbody.
  destruct w as [[c ws] n evs].
  unfold Server.wrapResponseWriter.
  destruct wr as [|rw]; unfold DrainBody; run_srv; rewrite Hfault; run_srv; done.
Qed.



End ServerProperties.

(** *** The server side on concrete inputs *)

Lemma wrapper_records_witness :
  let x := {| Server.statusCode := 200; Server.buf := [] |} in
  let run := Server.calls_writer recording_WriteHeader recording_Write not_found_page
               (Server.wrapper_at 1) get_plain server1 in
  let direct := Server.calls_writer recording_WriteHeader recording_Write not_found_page
                  Server.net_writer get_plain server1 in
  Server.wrappers (stub server1) !! 1%positive = Some x ∧
  Server.conn (stub run.2)
  = [SentHeader 404; SentData (bytes_of "not "); SentData (bytes_of "found")] ∧
  (Server.rw_Body 1 run.2).1 = Some "not found" ∧
  (Server.rw_StatusCode 1 run.2).1 = Some 404 ∧
  run.1 = Some tt ∧
  Server.conn (stub run.2) = Server.conn (stub direct.2) ∧
  events run.2 = events server1 ∧
  (∀ rw', rw' ≠ 1%positive →
     Server.wrappers (stub run.2) !! rw' = Server.wrappers (stub server1) !! rw') ∧
  (Server.rw_Body 1 run.2).1
  = Some (string_of_list_byte
            (Server.buf x ++ Server.recorded recording_WriteHeader recording_Write
                               not_found_page (Server.conn (stub server1)))) ∧
  (Server.rw_Body 1 (Server.rw_Body 1 run.2).2).1 = Some "" ∧
  (Server.rw_StatusCode 1 run.2).1
  = Some (Server.reported (Server.last_status not_found_page (Server.statusCode x))) ∧
  ((∀ data c, (recording_Write data c).1 = (Z.of_nat (length data), None)) →
   Server.recorded recording_WriteHeader recording_Write not_found_page
     (Server.conn (stub server1))
   = Server.written not_found_page).
Proof.
  intros x run direct.
  assert (Server.wrappers (stub server1) !! 1%positive = Some x) as Hx
    by (vm_compute; reflexivity).
  split; [exact Hx |]. split; [vm_compute; reflexivity |].
  split; [vm_compute; reflexivity |]. split; [vm_compute; reflexivity |].
  exact (wrapper_records recording_WriteHeader recording_Write not_found_page get_plain
           server1 1%positive x Hx).
Defined.

Lemma LoggingHandler_records_witness :
  let body := NopCloser (bytes_of "payload") in
  let run := Server.LoggingHandler true true
               (Server.calls_writer recording_WriteHeader recording_Write not_found_page)
               Server.net_writer post_payload server0 in
  Header_Get "Connection" (ReqHeader post_payload) ≠ "Upgrade" ∧
  Body post_payload = Some body ∧
  fault body = None ∧
  run.1 = Some tt ∧
  Server.conn (stub run.2)
  = Server.conn_after recording_WriteHeader recording_Write not_found_page
      (Server.conn (stub server0)) ∧
  events run.2
  = events server0 ++
    [EvRead (pending body) None;
     EvSlog "serve http req"
       (request_kvs post_payload
        ++ [("req_data", LogString (string_of_list_byte (pending body)))]
        ++ [("resp_data",
             LogString (string_of_list_byte
                          (Server.recorded recording_WriteHeader recording_Write
                             not_found_page (Server.conn (stub server0)))));
            ("statusCode",
             LogInt (Server.reported (Server.last_status not_found_page 200)))])].
Proof.
  intros body run.
  assert (Header_Get "Connection" (ReqHeader post_payload) ≠ "Upgrade") as Hup
    by (vm_compute; discriminate).
  split; [exact Hup |]. split; [reflexivity |]. split; [reflexivity |].
  exact (LoggingHandler_records recording_WriteHeader recording_Write not_found_page
           post_payload body server0 Hup eq_refl eq_refl).
Defined.

Example LoggingHandler_records_not_found :
  let run := Server.LoggingHandler true true
               (Server.calls_writer recording_WriteHeader recording_Write not_found_page)
               Server.net_writer post_payload server0 in
  Server.conn (stub run.2)
  = [SentHeader 404; SentData (bytes_of "not "); SentData (bytes_of "found")] ∧
  events run.2
  = [EvRead (bytes_of "payload") None;
     EvSlog "serve http req"
       [("http_method", LogString "POST");
        ("http_url", LogString "http://example.test/");
        ("traceID", LogString ""); ("spanID", LogString "");
        ("req_data", LogString "payload");
        ("resp_data", LogString "not found");
        ("statusCode", LogInt 404)]].
Proof. vm_compute. done. Qed.

Lemma LoggingHandler_unreadable_body_witness :
  let run := Server.LoggingHandler true true
               (Server.calls_writer recording_WriteHeader recording_Write not_found_page)
               Server.net_writer post_broken server0 in
  Header_Get "Connection" (ReqHeader post_broken) ≠ "Upgrade" ∧
  Body post_broken = Some broken_body ∧
  fault broken_body = Some (errorString "unexpected EOF") ∧
  run.1 = Some tt ∧
  Server.conn (stub run.2) = Server.conn (stub server0) ∧
  events run.2
  = events server0 ++ [EvRead (pending broken_body) (Some (errorString "unexpected EOF"))].
Proof.
  intros run.
  assert (Header_Get "Connection" (ReqHeader post_broken) ≠ "Upgrade") as Hup
    by (vm_compute; discriminate).
  split; [exact Hup |]. split; [reflexivity |]. split; [reflexivity |].
  exact (LoggingHandler_unreadable_body true
           (Server.calls_writer recording_WriteHeader recording_Write not_found_page)
           Server.net_writer post_broken broken_body (errorString "unexpected EOF")
           server0 Hup eq_refl eq_refl).
Defined.


